(** * Population forecast engine of [app.py]: model and verified properties

    The development embeds [prepare_country_context] of [src/app.py]: the
    log-linear fit of the growth rate, the exponential projection, the
    forward-Euler logistic recurrence, the checkpoint table, the summary
    sentence and the formatted population history.

    Number model.  numpy's [float64] is modelled by [float64] below: a real
    number, or one of the three IEEE 754 special values.  Arithmetic on finite
    values is exact (no rounding, no overflow, no signed zero); the special
    values follow the IEEE rules that numpy applies (numpy warns and
    continues where plain Python would raise).  Integers are [Z].

    What this means for the results.  A binary64 operation rounds its result
    to 53 bits and overflows to an infinity above about 1.8e308; the model
    does neither.  Results on the values of the series (signs, bounds,
    monotonicity, exact equalities between computed numbers) are therefore
    results in exact arithmetic, and say so.  Results on the control flow,
    on exceptions, on indexing and on the text that is made from a value the
    program has computed ([int], the separators, the summary sentence) are
    stated on the computed series themselves and do not depend on how the
    values were rounded. *)

From Stdlib Require Import Reals Lra Lia ZArith List String Ascii Bool Sorted.
Import ListNotations.

(* ===================================================================== *)
(** * Part I: definitions                                                 *)
(* ===================================================================== *)

(** ** Python exceptions and the error monad *)

Inductive pyexc : Type := IndexError | TypeError | ValueError | OverflowError.

Record exn : Type := Raise { exc_class : pyexc; exc_msg : string }.

Definition class_name (c : pyexc) : string :=
  match c with
  | IndexError => "IndexError"
  | TypeError => "TypeError"
  | ValueError => "ValueError"
  | OverflowError => "OverflowError"
  end.

Inductive result (A : Type) : Type :=
| Ok (a : A)
| Err (e : exn).

Arguments Ok {A} a.
Arguments Err {A} e.

Definition bind {A B : Type} (c : result A) (f : A -> result B) : result B :=
  match c with
  | Ok a => f a
  | Err e => Err e
  end.

Declare Scope py_scope.
Delimit Scope py_scope with py.
Notation "x <- c ;; k" := (bind c (fun x => k))
  (at level 61, c at next level, right associativity) : py_scope.

(** [[f(x) for x in l]] where [f] may raise: left to right, first failure wins. *)
Fixpoint mapM {A B : Type} (f : A -> result B) (l : list A) : result (list B) :=
  match l with
  | [] => Ok []
  | x :: xs =>
      (y <- f x ;;
       ys <- mapM f xs ;;
       Ok (y :: ys))%py
  end.

(** ** Python sequence indexing *)

Definition len {A : Type} (l : list A) : Z := Z.of_nat (List.length l).

(** [np.arange(start, stop)] on integers. *)
Definition arange (start stop : Z) : list Z :=
  map (fun i => (start + Z.of_nat i)%Z) (seq 0 (Z.to_nat (stop - start))).

(** ** The float model *)

Inductive float64 : Type :=
| Finite (x : R)
| PInf
| NInf
| NaN.

(** The float of an integer.  Exact here for every integer; a binary64
    holds an integer exactly only up to 2^53 in absolute value.  The program
    converts year offsets and lengths, which are far below that bound. *)
Definition of_int (z : Z) : float64 := Finite (IZR z).

Definition fneg (a : float64) : float64 :=
  match a with
  | Finite x => Finite (- x)
  | PInf => NInf
  | NInf => PInf
  | NaN => NaN
  end.

Definition fadd (a b : float64) : float64 :=
  match a, b with
  | NaN, _ | _, NaN => NaN
  | Finite x, Finite y => Finite (x + y)
  | PInf, NInf | NInf, PInf => NaN
  | PInf, _ | _, PInf => PInf
  | NInf, _ | _, NInf => NInf
  end.

Definition fsub (a b : float64) : float64 := fadd a (fneg b).

(** A finite factor [x] times the infinity [i]: the sign of [x] decides,
    and [0 * inf] is NaN. *)
Definition scale_inf (x : R) (i : float64) : float64 :=
  if Rlt_dec 0 x then i
  else if Rlt_dec x 0 then fneg i
  else NaN.

(** The product; on finite values exact and unbounded (no rounding, no
    overflow to an infinity). *)
Definition fmul (a b : float64) : float64 :=
  match a, b with
  | NaN, _ | _, NaN => NaN
  | Finite x, Finite y => Finite (x * y)
  | Finite x, i | i, Finite x => scale_inf x i
  | PInf, PInf | NInf, NInf => PInf
  | PInf, NInf | NInf, PInf => NInf
  end.

(** numpy division: dividing by zero gives a signed infinity, or NaN for
    [0/0]; it warns and does not raise. *)
Definition fdiv (a b : float64) : float64 :=
  match a, b with
  | NaN, _ | _, NaN => NaN
  | Finite x, Finite y =>
      if Req_dec_T y 0 then scale_inf x PInf else Finite (x / y)
  | Finite _, _ => Finite 0
  | i, Finite y => if Rlt_dec y 0 then fneg i else i
  | _, _ => NaN
  end.

(** [np.exp]; on finite values the real exponential, which never overflows
    (binary64 gives [inf] above about 709.78) and never underflows to 0. *)
Definition np_exp (a : float64) : float64 :=
  match a with
  | Finite x => Finite (exp x)
  | PInf => PInf
  | NInf => Finite 0
  | NaN => NaN
  end.

(** [np.log]: [log(0) = -inf] and the logarithm of a negative number is
    NaN, both with a warning only. *)
Definition np_log (a : float64) : float64 :=
  match a with
  | Finite x =>
      if Rlt_dec 0 x then Finite (ln x)
      else if Rlt_dec x 0 then NaN
      else NInf
  | PInf => PInf
  | NInf => NaN
  | NaN => NaN
  end.

(** [np.maximum] of two values; NaN propagates. *)
Definition fmax (a b : float64) : float64 :=
  match a, b with
  | NaN, _ | _, NaN => NaN
  | PInf, _ | _, PInf => PInf
  | NInf, c | c, NInf => c
  | Finite x, Finite y => Finite (Rmax x y)
  end.

(** [arr.max()]; numpy raises [ValueError] on an empty array. *)
Definition np_max (l : list float64) : result float64 :=
  match l with
  | [] => Err (Raise ValueError
                 "zero-size array to reduction operation maximum which has no identity")
  | x :: xs => Ok (fold_left fmax xs x)
  end.

Definition fsum (l : list float64) : float64 := fold_left fadd l (Finite 0).

(** Truncation of a real toward zero. *)
Definition Rtrunc (x : R) : Z :=
  if Rlt_dec x 0 then (- Int_part (- x))%Z else Int_part x.

(** [int(x)] on a float: truncation toward zero; NaN and the infinities
    raise. *)
Definition int (a : float64) : result Z :=
  match a with
  | Finite x => Ok (Rtrunc x)
  | NaN => Err (Raise ValueError "cannot convert float NaN to integer")
  | PInf | NInf => Err (Raise OverflowError "cannot convert float infinity to integer")
  end.

(** ** String formatting of integers *)

Definition digit_char (d : N) : ascii := ascii_of_N (48 + d).

(** Decimal digits of [n], most significant first; [fuel] bounds the number
    of digits. *)
Fixpoint digits_fuel (fuel : nat) (n : N) (acc : list ascii) : list ascii :=
  match fuel with
  | O => acc
  | S fuel' =>
      let acc' := digit_char (n mod 10) :: acc in
      if (n / 10 =? 0)%N then acc' else digits_fuel fuel' (n / 10) acc'
  end.

Definition digits (n : N) : list ascii := digits_fuel (S (N.to_nat (N.log2 n))) n [].

(** Insert a comma before every group of three digits counted from the
    right; the input is the digit list reversed. *)
Fixpoint group3_rev (rev_digits : list ascii) : list ascii :=
  match rev_digits with
  | a :: b :: c :: ((_ :: _) as rest) => a :: b :: c :: ","%char :: group3_rev rest
  | short => short
  end.

Definition with_sign (z : Z) (body : list ascii) : string :=
  string_of_list_ascii (if (z <? 0)%Z then "-"%char :: body else body).

(** [str(z)] / [f"{z}"] for an integer. *)
Definition str (z : Z) : string := with_sign z (digits (Z.abs_N z)).

(** [f"{z:,}"]: decimal with thousands separators. *)
Definition format_commas (z : Z) : string :=
  with_sign z (rev (group3_rev (rev (digits (Z.abs_N z))))).

(** [f"{int(x):,}"] *)
Definition fmt_int (x : float64) : result string :=
  (n <- int x ;; Ok (format_commas n))%py.

(** ** Indexing *)

(** The two kinds of sequence the source indexes: Python lists ([pop_log],
    [forecast_table]) and numpy arrays ([years], [pop], [future_years],
    [pop_future_exp]).  They differ in the text of their [IndexError]. *)
Inductive container : Type := PyList | NdArray.

Definition index_error (c : container) (i n : Z) : exn :=
  match c with
  | PyList => Raise IndexError "list index out of range"
  | NdArray =>
      Raise IndexError
        ("index " ++ str i ++ " is out of bounds for axis 0 with size " ++ str n)
  end.

(** [l[i]]: a negative index counts from the end, anything out of range
    raises [IndexError]. *)
Definition getitem_of (c : container) {A : Type} (l : list A) (i : Z) : result A :=
  let j := (if i <? 0 then i + len l else i)%Z in
  if (j <? 0)%Z then Err (index_error c i (len l))
  else match nth_error l (Z.to_nat j) with
       | Some a => Ok a
       | None => Err (index_error c i (len l))
       end.

Abbreviation getitem := (getitem_of PyList).
Abbreviation np_getitem := (getitem_of NdArray).

(** ** numpy's degree-one least-squares fit *)

Definition zip_with {A B C : Type} (f : A -> B -> C) (l1 : list A) (l2 : list B)
  : list C :=
  map (fun ab => f (fst ab) (snd ab)) (combine l1 l2).

(** [np.polyfit(x, y, 1)[0]], the slope of the least-squares line.  numpy is
    library code; its result is modelled by the closed form of the normal
    equations, [(n*Sxy - Sx*Sy) / (n*Sxx - Sx*Sx)], evaluated in the float
    model, so a NaN among the [y] makes the slope NaN.  numpy raises
    [TypeError] on an empty [x] or on vectors of different lengths.  (When all
    [x] coincide the system is rank deficient; numpy then returns a
    minimum-norm solution, which this closed form does not model.)  numpy
    solves the system by a scaled singular-value decomposition in binary64;
    the closed form agrees with it in exact arithmetic only, not to the last
    bit. *)
Definition polyfit_slope (x : list Z) (y : list float64) : result float64 :=
  if (len x =? 0)%Z then
    Err (Raise TypeError "expected non-empty vector for x")
  else if negb (len x =? len y)%Z then
    Err (Raise TypeError "expected x and y to have same length")
  else
    let xf := map of_int x in
    let n := of_int (len x) in
    let sx := fsum xf in
    let sy := fsum y in
    let sxy := fsum (zip_with fmul xf y) in
    let sxx := fsum (zip_with fmul xf xf) in
    Ok (fdiv (fsub (fmul n sxy) (fmul sx sy))
             (fsub (fmul n sxx) (fmul sx sx))).

(** ** The data source *)

(** One row of [world_population.csv] as pandas parses it; numeric columns
    are floats. *)
Record Row : Type := {
  Country_Territory : string;
  Rank : float64;
  Capital : string;
  Continent : string;
  Area : float64;
  Density : float64;
  Growth_Rate : float64;
  World_Population_Percentage : float64;
  Population_1970 : float64;
  Population_1980 : float64;
  Population_1990 : float64;
  Population_2000 : float64;
  Population_2010 : float64;
  Population_2015 : float64;
  Population_2020 : float64;
  Population_2022 : float64
}.

Definition DEFAULT_COUNTRY : string := "Indonesia".

Definition numeric_columns : list (Row -> float64) :=
  [ Population_1970; Population_1980; Population_1990; Population_2000;
    Population_2010; Population_2015; Population_2020; Population_2022 ].

(** [df["Country/Territory"].values] *)
Definition countries (df : list Row) : list string := map Country_Territory df.

(** [country_name in df["Country/Territory"].values] *)
Definition known_country (df : list Row) (country_name : string) : bool :=
  existsb (String.eqb country_name) (countries df).

(** Line 35: [data[numeric_columns].to_numpy(dtype=float)] *)
Definition pop_of (data : Row) : list float64 :=
  map (fun column => column data) numeric_columns.

(** Lines 30-31: an unknown name is replaced by the default. *)
Definition resolve_country (df : list Row) (country_name : string) : string :=
  if negb (known_country df country_name) then DEFAULT_COUNTRY else country_name.

(** Line 33: [df[df["Country/Territory"] == country_name].iloc[0]] *)
Definition select_row (df : list Row) (country_name : string) : result Row :=
  match filter (fun row => String.eqb (Country_Territory row) country_name) df with
  | row :: _ => Ok row
  | [] => Err (Raise IndexError "single positional indexer is out-of-bounds")
  end.

(** ** The growth models (lines 34-51) *)

(** One pass of the loop body of lines 48-51 on the state [(p, pop_log)]:
    [dp = r * p * (1 - p / k); p += dp; pop_log.append(p)]. *)
Definition logistic_step (r k p : float64) : float64 :=
  let dp := fmul (fmul r p) (fsub (Finite 1) (fdiv p k)) in
  fadd p dp.

Definition logistic_body (r k : float64) (st : float64 * list float64) (_ : Z)
  : float64 * list float64 :=
  let p := logistic_step r k (fst st) in
  (p, snd st ++ [p]).

(** The loop of lines 46-51, from [p = pop[-1]] and [pop_log = []]. *)
Definition logistic_loop (r k p_last : float64) (future_years : list Z)
  : list float64 :=
  snd (fold_left (logistic_body r k) future_years (p_last, [])).

(** Line 43: [p0 * np.exp(r * t_future)], elementwise. *)
Definition exp_curve (p0 r : float64) (t_future : list Z) : list float64 :=
  map (fun tf => fmul p0 (np_exp (fmul r (of_int tf)))) t_future.

(** The local variables of [prepare_country_context] after line 51. *)
Record models : Type := {
  t : list Z;
  p0 : float64;
  r : float64;
  future_years : list Z;
  t_future : list Z;
  pop_future_exp : list float64;
  k : float64;
  pop_log : list float64
}.

(** Lines 37-51.  The source fixes [years] and the bounds of [future_years]
    as literals; they are arguments here so that other horizons and shorter
    series can be evaluated too.  [prepare_country_context] below passes the
    literals of the source. *)
Definition growth_models (years : list Z) (first_year stop_year : Z)
    (pop : list float64) : result models :=
  (year0 <- np_getitem years 0 ;;
   let t := map (fun y => y - year0)%Z years in
   p0 <- np_getitem pop 0 ;;
   r <- polyfit_slope t (map np_log pop) ;;
   let future_years := arange first_year stop_year in
   let t_future := map (fun y => y - year0)%Z future_years in
   let pop_future_exp := exp_curve p0 r t_future in
   pop_max <- np_max pop ;;
   let k := fmul pop_max (Finite 3) in
   p <- np_getitem pop (-1) ;;
   let pop_log := logistic_loop r k p future_years in
   Ok {| t := t; p0 := p0; r := r; future_years := future_years;
         t_future := t_future; pop_future_exp := pop_future_exp;
         k := k; pop_log := pop_log |})%py.

(** ** The forecast table (lines 62-76) *)

Record forecast_row : Type := {
  row_year : Z;
  row_exp : string;
  row_log : string
}.

Definition forecast_points : list Z := [2030; 2040; 2050; 2060; 2071]%Z.

(** One pass of the loop body of lines 65-76. *)
Definition table_body (future_years : list Z) (pop_future_exp pop_log : list float64)
    (forecast_table : list forecast_row) (year : Z) : result (list forecast_row) :=
  (first <- np_getitem future_years 0 ;;
   if (year <? first)%Z then Ok forecast_table
   else
     let idx := (year - first)%Z in
     if (idx >=? len future_years)%Z then Ok forecast_table
     else
       e <- np_getitem pop_future_exp idx ;;
       exp_text <- fmt_int e ;;
       l <- getitem pop_log idx ;;
       log_text <- fmt_int l ;;
       Ok (forecast_table ++
             [{| row_year := year; row_exp := exp_text; row_log := log_text |}]))%py.

(** [for x in l: acc = body(acc, x)] where the body may raise. *)
Fixpoint foldM {A B : Type} (body : B -> A -> result B) (l : list A) (acc : B)
  : result B :=
  match l with
  | [] => Ok acc
  | x :: xs => (acc' <- body acc x ;; foldM body xs acc')%py
  end.

Definition build_forecast_table (points future_years : list Z)
    (pop_future_exp pop_log : list float64) : result (list forecast_row) :=
  foldM (table_body future_years pop_future_exp pop_log) points [].

(** ** The summary (lines 78-87) *)

Record final_point : Type := {
  final_year : Z;
  final_exp : string;
  final_log : string
}.

(** Lines 78-80: the last table row if there is one, else the last point of
    the raw series. *)
Definition final_values (forecast_table : list forecast_row)
    (future_years : list Z) (pop_future_exp pop_log : list float64)
  : result final_point :=
  match forecast_table with
  | _ :: _ =>
      (a <- getitem forecast_table (-1) ;;
       b <- getitem forecast_table (-1) ;;
       c <- getitem forecast_table (-1) ;;
       Ok {| final_year := row_year a; final_exp := row_exp b;
             final_log := row_log c |})%py
  | [] =>
      (y <- np_getitem future_years (-1) ;;
       e <- np_getitem pop_future_exp (-1) ;;
       exp_text <- fmt_int e ;;
       l <- getitem pop_log (-1) ;;
       log_text <- fmt_int l ;;
       Ok {| final_year := y; final_exp := exp_text; final_log := log_text |})%py
  end.

(** Lines 82-87. *)
Definition summary_text (f : final_point) : string :=
  ("Dalam horizon 50 tahun hingga " ++ str (final_year f)
   ++ ", model eksponensial memproyeksikan "
   ++ "populasi mencapai sekitar " ++ final_exp f
   ++ " jiwa, sedangkan model logistic yang mempertimbangkan "
   ++ "kapasitas lingkungan memperkirakan sekitar " ++ final_log f
   ++ " jiwa. Perbedaan ini membantu membaca "
   ++ "skenario optimistis versus realistis untuk setiap negara.")%string.

(** ** Presentation values (lines 89-101) *)

(** Nearest integer, ties to the even neighbour. *)
Definition round_half_even (x : R) : Z :=
  let q := Int_part x in
  let f := frac_part x in
  if Rlt_dec f (1 / 2) then q
  else if Rlt_dec (1 / 2) f then (q + 1)%Z
  else if Z.even q then q else (q + 1)%Z.

Definition zero_pad (width : nat) (ds : list ascii) : list ascii :=
  repeat "0"%char (width - List.length ds) ++ ds.

(** [f"{x:.nf}"] for a float. *)
Definition format_fixed (n : nat) (a : float64) : string :=
  match a with
  | NaN => "nan"
  | PInf => "inf"
  | NInf => "-inf"
  | Finite x =>
      let scaled := Z.to_N (round_half_even (Rabs x * 10 ^ n)) in
      let unit := (10 ^ N.of_nat n)%N in
      let whole := digits (scaled / unit) in
      let fraction :=
        match n with
        | O => []
        | S _ => "."%char :: zero_pad n (digits (scaled mod unit))
        end in
      string_of_list_ascii
        ((if Rlt_dec x 0 then ["-"%char] else []) ++ whole ++ fraction)
  end.

Record stats_t : Type := {
  stat_Rank : Z;
  stat_Capital : string;
  stat_Continent : string;
  stat_Area : string;
  stat_Density : string;
  stat_Growth_Rate : string;
  stat_World_Share : string
}.

Definition make_stats (data : Row) : result stats_t :=
  (rank <- int (Rank data) ;;
   area <- int (Area data) ;;
   Ok {| stat_Rank := rank;
         stat_Capital := Capital data;
         stat_Continent := Continent data;
         stat_Area := (format_commas area ++ " km²")%string;
         stat_Density := (format_fixed 2 (Density data) ++ " people/km²")%string;
         stat_Growth_Rate := format_fixed 4 (Growth_Rate data);
         stat_World_Share :=
           (format_fixed 2 (World_Population_Percentage data) ++ "%")%string |})%py.

(** Lines 99-101: [(year, f"{int(value):,}")] over the reversed series. *)
Definition history_entry (yv : Z * float64) : result (Z * string) :=
  (text <- fmt_int (snd yv) ;; Ok (fst yv, text))%py.

Definition make_population_history (years : list Z) (pop : list float64)
  : result (list (Z * string)) :=
  mapM history_entry (combine (rev years) (rev pop)).

(** ** The chart (lines 114-131) *)

(** [build_chart] draws three lines under a title and returns the PNG that
    matplotlib renders, base64 encoded.  The model keeps what is drawn, not
    the image bytes. *)
Record chart_t : Type := {
  chart_title : string;
  data_historis : list Z * list float64;
  model_eksponensial : list Z * list float64;
  model_logistic : list Z * list float64
}.

Definition build_chart (years : list Z) (pop : list float64) (future_years : list Z)
    (pop_future_exp pop_log : list float64) (country : string) : chart_t :=
  {| chart_title := ("Dynamic System Modelling: Populasi " ++ country)%string;
     data_historis := (years, pop);
     model_eksponensial := (future_years, pop_future_exp);
     model_logistic := (future_years, pop_log) |}.

(** ** [prepare_country_context] *)

Record context : Type := {
  country : string;
  stats : stats_t;
  growth_rate : string;
  chart : chart_t;
  population_history : list (Z * string);
  forecast_table : list forecast_row;
  forecast_summary : string
}.

(** Lines 34-111 for a selected row, with the literals of the source as
    arguments (see [growth_models]). *)
Definition country_forecast (years : list Z) (first_year stop_year : Z)
    (points : list Z) (country_name : string) (data : Row) : result context :=
  (let pop := pop_of data in
   m <- growth_models years first_year stop_year pop ;;
   let chart_data :=
     build_chart years pop (future_years m) (pop_future_exp m) (pop_log m)
       country_name in
   table <- build_forecast_table points (future_years m) (pop_future_exp m)
              (pop_log m) ;;
   final <- final_values table (future_years m) (pop_future_exp m) (pop_log m) ;;
   let summary := summary_text final in
   st <- make_stats data ;;
   history <- make_population_history years pop ;;
   Ok {| country := country_name;
         stats := st;
         growth_rate := format_fixed 4 (r m);
         chart := chart_data;
         population_history := history;
         forecast_table := table;
         forecast_summary := summary |})%py.

Definition years : list Z := [1970; 1980; 1990; 2000; 2010; 2015; 2020; 2022]%Z.

Definition prepare_country_context (df : list Row) (country_name : string)
  : result context :=
  (let country_name := resolve_country df country_name in
   data <- select_row df country_name ;;
   country_forecast years 2022 2072 forecast_points country_name data)%py.

(** ** Real-number counterparts of the numeric locals *)

Definition Rsum (l : list R) : R := fold_right Rplus 0%R l.

(** Periods since the first observation, as reals. *)
Definition periods (years : list Z) : list R :=
  map (fun y => IZR (y - hd 0%Z years)) years.

(** The normal-equation slope and intercept on real data; [spread] is the
    determinant [n*Sxx - Sx^2]. *)
Definition spread (xs : list R) : R :=
  (INR (List.length xs) * Rsum (zip_with Rmult xs xs) - Rsum xs * Rsum xs)%R.

Definition ols_slope (xs ys : list R) : R :=
  ((INR (List.length xs) * Rsum (zip_with Rmult xs ys) - Rsum xs * Rsum ys)
   / spread xs)%R.

Definition ols_intercept (xs ys : list R) : R :=
  ((Rsum ys - ols_slope xs ys * Rsum xs) / INR (List.length xs))%R.

(** Sum of squared residuals of the line [a*x + b] on the points
    [(x_i, y_i)]. *)
Definition sse (xs ys : list R) (a b : R) : R :=
  Rsum (zip_with (fun x y => (y - (a * x + b)) * (y - (a * x + b)))%R xs ys).

(** The exponential curve [a * exp (b * t)] at the periods [ts]. *)
Definition exp_series (a b : R) (ts : list Z) : list R :=
  map (fun tf => a * exp (b * IZR tf))%R ts.

(** The forward-Euler step of the logistic equation on reals, and the
    first [n] iterates after [p]. *)
Definition euler_step (rr kk p : R) : R := (p + rr * p * (1 - p / kk))%R.

Definition euler_series (rr kk p : R) (n : nat) : list R :=
  map (fun i => Nat.iter (S i) (euler_step rr kk) p) (seq 0 n).

(** The half-open interval [(0, k]] for the logistic state. *)
Definition within_capacity (k p : R) : Prop := (0 < p <= k)%R.

(** Largest element of a list of reals (0 for the empty list). *)
Definition Rmax_list (l : list R) : R :=
  match l with
  | [] => 0%R
  | x :: xs => fold_left Rmax xs x
  end.

(** The locals of the source on a positive real series [ps] of the eight
    historical values, for a horizon [first_year .. stop_year - 1]. *)
Definition fitted_rate (ps : list R) : R := ols_slope (periods years) (map ln ps).

Definition capacity (ps : list R) : R := (Rmax_list ps * 3)%R.

Definition exp_forecast (first_year stop_year : Z) (ps : list R) : list R :=
  exp_series (hd 0%R ps) (fitted_rate ps)
    (map (fun y => (y - 1970)%Z) (arange first_year stop_year)).

Definition log_forecast (first_year stop_year : Z) (ps : list R) : list R :=
  euler_series (fitted_rate ps) (capacity ps) (last ps 0%R)
    (List.length (arange first_year stop_year)).

(** ** The table and the history on real series *)

(** The years of a horizon [first_year .. stop_year - 1]. *)
Definition in_horizon (first_year stop_year y : Z) : bool :=
  ((first_year <=? y) && (y <? stop_year))%Z.

(** The table row for checkpoint [y] of a horizon starting at [first_year],
    from the real values of the two series. *)
Definition checkpoint_row (first_year : Z) (es ls : list R) (y : Z) : forecast_row :=
  let idx := Z.to_nat (y - first_year) in
  {| row_year := y;
     row_exp := format_commas (Rtrunc (nth idx es 0%R));
     row_log := format_commas (Rtrunc (nth idx ls 0%R)) |}.

Definition table_of (first_year stop_year : Z) (points : list Z) (ps : list R)
  : list forecast_row :=
  map (checkpoint_row first_year (exp_forecast first_year stop_year ps)
         (log_forecast first_year stop_year ps))
      (filter (in_horizon first_year stop_year) points).

Definition history_of (years : list Z) (ps : list R) : list (Z * string) :=
  map (fun yp => (fst yp, format_commas (Rtrunc (snd yp))))
      (combine (rev years) (rev ps)).

(** ** Figures read off computed series *)

(** A figure of the table: the two texts of a row are the values of the two
    series at the offset of its year, truncated and written with
    separators. *)
Definition row_figures (first_year : Z) (pexp plog : list float64) (row : forecast_row)
  : Prop :=
  exists e l : R,
    np_getitem pexp (row_year row - first_year) = Ok (Finite e) /\
    getitem plog (row_year row - first_year) = Ok (Finite l) /\
    row_exp row = format_commas (Rtrunc e) /\
    row_log row = format_commas (Rtrunc l).

(** A figure of the history: the text is the value of its year, truncated
    and written with separators. *)
Definition history_figure (yv : Z * float64) (entry : Z * string) : Prop :=
  exists x : R, snd yv = Finite x /\ entry = (fst yv, format_commas (Rtrunc x)).

(** ** Exceptions and special float values *)

(** The computation ends by raising an exception of the class named [c]. *)
Definition raises {A : Type} (res : result A) (c : string) : Prop :=
  exists e, res = Err e /\ class_name (exc_class e) = c.

(** Two classes of float values met when the logarithm of a non-positive
    number enters the regression sums. *)
Definition nan_or_ninf (a : float64) : Prop := a = NaN \/ a = NInf.

Definition below_pinf (a : float64) : Prop := a <> PInf.

(** ** Example data *)

(** A data row with the given name and population series; the other
    attributes are those of a fixed example. *)
Definition sample_row (name : string) (series : list R) : Row :=
  {| Country_Territory := name;
     Rank := Finite 4;
     Capital := "Jakarta";
     Continent := "Asia";
     Area := Finite 1904569;
     Density := Finite (1447 / 10);
     Growth_Rate := Finite (10064 / 10000);
     World_Population_Percentage := Finite (345 / 100);
     Population_1970 := Finite (nth 0 series 0%R);
     Population_1980 := Finite (nth 1 series 0%R);
     Population_1990 := Finite (nth 2 series 0%R);
     Population_2000 := Finite (nth 3 series 0%R);
     Population_2010 := Finite (nth 4 series 0%R);
     Population_2015 := Finite (nth 5 series 0%R);
     Population_2020 := Finite (nth 6 series 0%R);
     Population_2022 := Finite (nth 7 series 0%R) |}.

(** A positive eight-value series, and one whose 1990 figure is negative. *)
Definition sample_series : list R :=
  [115; 148; 182; 214; 244; 259; 271; 275]%R.

Definition series_with_negative : list R :=
  [100; 110; -1; 130; 140; 150; 160; 170]%R.

(** A positive series of figures that are not whole numbers. *)
Definition fractional_series : list R :=
  [1152284 / 10; 1481771 / 10; 1821599 / 10; 2140724 / 10; 2440162 / 10;
   2590925 / 10; 2718585 / 10; 2755013 / 10]%R.

Definition sample_df : list Row :=
  [sample_row "Malaysia" [10; 13; 17; 22; 28; 31; 33; 34]%R;
   sample_row "Indonesia" sample_series].

Definition faulty_df : list Row := [sample_row "Indonesia" series_with_negative].

(** The doubling series of the end-to-end example. *)
Definition doubling_years : list Z := [0; 10; 20; 30]%Z.

Definition doubling_series : list R := [100; 200; 400; 800]%R.

(** ** The page route (lines 134-139) *)

(** [request.form.get(key, default)]: the first value posted under [key],
    else the default.  The form is the list of posted fields in order; it is
    empty for a GET request. *)
Fixpoint form_get (form : list (string * string)) (key default : string) : string :=
  match form with
  | [] => default
  | (field, value) :: rest =>
      if String.eqb field key then value else form_get rest key default
  end.

(** [Series.unique()]: the distinct values in order of first appearance. *)
Fixpoint unique (l : list string) : list string :=
  match l with
  | [] => []
  | x :: xs => x :: filter (fun y => negb (String.eqb x y)) (unique xs)
  end.

(** [sorted(...)] on strings: ascending in the lexicographic order of the
    characters' codes.  Python's sort is library code; as the order is total
    and equal strings are identical, its result is the one sorted
    arrangement, computed here by insertion. *)
Fixpoint insert_sorted (x : string) (l : list string) : list string :=
  match l with
  | [] => [x]
  | y :: ys => if String.leb x y then x :: l else y :: insert_sorted x ys
  end.

Definition sorted (l : list string) : list string := fold_right insert_sorted [] l.

(** The keyword arguments handed to [render_template("index.html", ...)];
    the template itself is outside the source. *)
Record page : Type := {
  page_countries : list string;
  page_selected : string;
  page_context : context
}.

Definition index (df : list Row) (form : list (string * string)) : result page :=
  (let country := form_get form "country" DEFAULT_COUNTRY in
   context <- prepare_country_context df country ;;
   let countries := sorted (unique (countries df)) in
   Ok {| page_countries := countries;
         page_selected := country;
         page_context := context |})%py.

(** ** Reading formatted integers back *)

Definition digit_value (c : ascii) : option N :=
  let n := N_of_ascii c in
  if ((48 <=? n) && (n <=? 57))%N then Some (n - 48)%N else None.

Fixpoint parse_digits (s : list ascii) (acc : N) : option N :=
  match s with
  | [] => Some acc
  | c :: cs =>
      match digit_value c with
      | Some d => parse_digits cs (10 * acc + d)%N
      | None => None
      end
  end.

(** Python's [int(s)] on an optional minus sign followed by digits. *)
Definition parse_int (s : string) : option Z :=
  match list_ascii_of_string s with
  | [] => None
  | c :: ds =>
      if Ascii.eqb c "-"%char then
        match ds with
        | [] => None
        | _ => option_map (fun n => (- Z.of_N n)%Z) (parse_digits ds 0)
        end
      else option_map Z.of_N (parse_digits (c :: ds) 0)
  end.

(** [s.replace(",", "")] *)
Definition strip_commas (s : string) : string :=
  string_of_list_ascii
    (filter (fun c => negb (Ascii.eqb c ","%char)) (list_ascii_of_string s)).

(** ** Further notions on real series *)

(** The cross moment [n*Sxy - Sx*Sy], numerator of the slope. *)
Definition cross (xs ys : list R) : R :=
  (INR (List.length xs) * Rsum (zip_with Rmult xs ys) - Rsum xs * Rsum ys)%R.

(** A data row whose eight population values are the given floats. *)
Definition row_of_floats (name : string) (series : list float64) : Row :=
  {| Country_Territory := name;
     Rank := Finite 4;
     Capital := "Jakarta";
     Continent := "Asia";
     Area := Finite 1904569;
     Density := Finite (1447 / 10);
     Growth_Rate := Finite (10064 / 10000);
     World_Population_Percentage := Finite (345 / 100);
     Population_1970 := nth 0 series NaN;
     Population_1980 := nth 1 series NaN;
     Population_1990 := nth 2 series NaN;
     Population_2000 := nth 3 series NaN;
     Population_2010 := nth 4 series NaN;
     Population_2015 := nth 5 series NaN;
     Population_2020 := nth 6 series NaN;
     Population_2022 := nth 7 series NaN |}.

(** A declining positive series, and a constant one. *)
Definition declining_series : list R :=
  [90; 88; 85; 80; 76; 74; 72; 71]%R.

Definition constant_series : list R :=
  [50; 50; 50; 50; 50; 50; 50; 50]%R.


(* ===================================================================== *)
(** * Part II: properties                                                 *)
(* ===================================================================== *)

(** ** Formatting examples *)

Example format_commas_millions : format_commas 1234567 = "1,234,567"%string.
Proof. reflexivity. Qed.

Example format_commas_small : format_commas 999 = "999"%string.
Proof. reflexivity. Qed.

Example format_commas_negative : format_commas (-1000) = "-1,000"%string.
Proof. reflexivity. Qed.

Example str_year : str 2071 = "2071"%string.
Proof. reflexivity. Qed.

Example arange_small : arange 2022 2026 = [2022; 2023; 2024; 2025]%Z.
Proof. reflexivity. Qed.

(** ** The error monad and indexing *)

Lemma bind_Ok {A B : Type} (c : result A) (f : A -> result B) (b : B) :
  bind c f = Ok b -> exists a, c = Ok a /\ f a = Ok b.
Proof. destruct c as [a|e]; simpl; intros E; [eauto | discriminate]. Qed.

Lemma Ok_inj {A : Type} (a b : A) : Ok a = Ok b -> a = b.
Proof. intros H. now injection H. Qed.

Lemma len_nonneg {A : Type} (l : list A) : (0 <= len l)%Z.
Proof. unfold len. lia. Qed.

Lemma getitem_nth {c : container} {A : Type} (l : list A) (i : nat) (a : A) :
  nth_error l i = Some a -> getitem_of c l (Z.of_nat i) = Ok a.
Proof.
  intros E. unfold getitem_of.
  destruct (Z.of_nat i <? 0)%Z eqn:Hi; [apply Z.ltb_lt in Hi; lia|].
  rewrite Hi, Nat2Z.id, E. reflexivity.
Qed.

Lemma getitem_0 {c : container} {A : Type} (a : A) (l : list A) :
  getitem_of c (a :: l) 0 = Ok a.
Proof. reflexivity. Qed.

Lemma getitem_last {c : container} {A : Type} (l : list A) (a : A) :
  getitem_of c (l ++ [a]) (-1) = Ok a.
Proof.
  unfold getitem_of, len.
  change (-1 <? 0)%Z with true. cbv beta iota zeta.
  rewrite length_app, Nat.add_1_r.
  replace (-1 + Z.of_nat (S (List.length l)))%Z with (Z.of_nat (List.length l)) by lia.
  destruct (Z.of_nat (List.length l) <? 0)%Z eqn:Hneg; [apply Z.ltb_lt in Hneg; lia|].
  rewrite Nat2Z.id, nth_error_app2, Nat.sub_diag by lia. reflexivity.
Qed.

Lemma arange_length (a b : Z) : List.length (arange a b) = Z.to_nat (b - a).
Proof. unfold arange. now rewrite length_map, length_seq. Qed.

Lemma arange_nth (a b : Z) (i : nat) :
  (i < Z.to_nat (b - a))%nat -> nth_error (arange a b) i = Some (a + Z.of_nat i)%Z.
Proof.
  intros Hi. unfold arange.
  rewrite nth_error_map, nth_error_seq.
  destruct (Nat.ltb_spec i (Z.to_nat (b - a))); [reflexivity | lia].
Qed.

(** ** The logistic recurrence *)

Section LogisticLoop.
Variables rate cap : float64.

Lemma logistic_fold (l : list Z) (p : float64) (acc : list float64) :
  fold_left (logistic_body rate cap) l (p, acc) =
  (Nat.iter (List.length l) (logistic_step rate cap) p,
   acc ++ map (fun i => Nat.iter (S i) (logistic_step rate cap) p)
              (seq 0 (List.length l))).
Proof.
  revert p acc. induction l as [|y l IH]; intros p acc.
  - simpl. now rewrite app_nil_r.
  - simpl fold_left. unfold logistic_body at 2. simpl fst. simpl snd.
    rewrite IH. simpl List.length. f_equal.
    + now rewrite Nat.iter_succ_r.
    + rewrite <- app_assoc. f_equal. simpl. f_equal.
      rewrite <- seq_shift, map_map. apply map_ext. intros i.
      now rewrite <- Nat.iter_succ_r.
Qed.

Lemma logistic_loop_iter (p : float64) (l : list Z) :
  logistic_loop rate cap p l =
  map (fun i => Nat.iter (S i) (logistic_step rate cap) p) (seq 0 (List.length l)).
Proof. unfold logistic_loop. now rewrite logistic_fold. Qed.

Lemma logistic_loop_length (p : float64) (l : list Z) :
  List.length (logistic_loop rate cap p l) = List.length l.
Proof. now rewrite logistic_loop_iter, length_map, length_seq. Qed.

Lemma logistic_loop_nth (p : float64) (l : list Z) (i : nat) :
  (i < List.length l)%nat ->
  nth_error (logistic_loop rate cap p l) i =
  Some (Nat.iter (S i) (logistic_step rate cap) p).
Proof.
  intros Hi. rewrite logistic_loop_iter, nth_error_map, nth_error_seq.
  destruct (Nat.ltb_spec i (List.length l)); [reflexivity | lia].
Qed.
End LogisticLoop.

(** On finite values with a non-zero capacity the step is the real map
    [p + r*p*(1 - p/k)]. *)
Lemma logistic_step_finite (rr kk p : R) :
  kk <> 0%R ->
  logistic_step (Finite rr) (Finite kk) (Finite p) = Finite (euler_step rr kk p).
Proof.
  intros Hk. unfold logistic_step, fsub, fdiv. simpl.
  destruct (Req_dec_T kk 0) as [E|_]; [contradiction|].
  reflexivity.
Qed.

Lemma euler_step_bounds (rr kk p : R) :
  (0 < rr <= 1)%R -> within_capacity kk p ->
  (p <= euler_step rr kk p)%R /\ within_capacity kk (euler_step rr kk p).
Proof.
  unfold within_capacity, euler_step. intros [Hr0 Hr1] [Hp0 Hpk].
  assert (Hk : (0 < kk)%R) by lra.
  set (q := (p / kk)%R).
  assert (Hq : (0 < q <= 1)%R).
  { unfold q. split.
    - apply Rdiv_lt_0_compat; lra.
    - apply Rmult_le_reg_r with kk; [lra|].
      unfold Rdiv. rewrite Rmult_assoc, Rinv_l; lra. }
  assert (Hp : p = (q * kk)%R) by (unfold q; field; lra).
  assert (Hgrow : (0 <= rr * p * (1 - q))%R).
  { apply Rmult_le_pos; [apply Rmult_le_pos|]; lra. }
  repeat split; try lra.
  (* k - p' = k (1 - q)(1 - r q) >= 0 *)
  assert (Hgap : (0 <= kk * ((1 - q) * (1 - rr * q)))%R).
  { apply Rmult_le_pos; [lra|]. apply Rmult_le_pos; [lra|].
    assert (rr * q <= 1 * 1)%R by (apply Rmult_le_compat; lra). lra. }
  rewrite Hp at 1 2. nra.
Qed.

(** ** Sums and the least-squares slope on finite data *)

Lemma fold_fadd_finite (l : list R) (a : R) :
  fold_left fadd (map Finite l) (Finite a) = Finite (a + Rsum l)%R.
Proof.
  revert a. induction l as [|x l IH]; intros a; simpl.
  - f_equal. lra.
  - rewrite IH. f_equal. lra.
Qed.

Lemma fsum_finite (l : list R) : fsum (map Finite l) = Finite (Rsum l).
Proof. unfold fsum. rewrite fold_fadd_finite. f_equal. lra. Qed.

Lemma zip_with_fmul_finite (xs ys : list R) :
  zip_with fmul (map Finite xs) (map Finite ys) = map Finite (zip_with Rmult xs ys).
Proof.
  unfold zip_with. revert ys.
  induction xs as [|x xs IH]; intros [|y ys]; simpl; try reflexivity.
  now rewrite IH.
Qed.

Lemma map_of_int (zs : list Z) : map of_int zs = map Finite (map IZR zs).
Proof. now rewrite map_map. Qed.

Lemma len_map {A B : Type} (f : A -> B) (l : list A) : len (map f l) = len l.
Proof. unfold len. now rewrite length_map. Qed.

Lemma polyfit_slope_finite (ts : list Z) (ys : list R) :
  ts <> [] -> List.length ys = List.length ts ->
  spread (map IZR ts) <> 0%R ->
  polyfit_slope ts (map Finite ys) = Ok (Finite (ols_slope (map IZR ts) ys)).
Proof.
  intros Hne Hlen Hspread. unfold polyfit_slope.
  destruct (len ts =? 0)%Z eqn:H0.
  { apply Z.eqb_eq in H0. unfold len in H0. destruct ts; [contradiction | simpl in H0; lia]. }
  rewrite len_map. replace (len ys) with (len ts) by (unfold len; now rewrite Hlen).
  rewrite Z.eqb_refl. cbv beta iota zeta. simpl negb. cbv iota.
  rewrite map_of_int, !zip_with_fmul_finite, !fsum_finite.
  unfold of_int, len. rewrite <- INR_IZR_INZ.
  unfold fsub, fneg, fmul, fadd, fdiv.
  unfold spread in Hspread. rewrite length_map in Hspread.
  destruct (Req_dec_T _ 0) as [E|_].
  { exfalso. apply Hspread. rewrite <- E. unfold Rminus. reflexivity. }
  unfold ols_slope, spread. rewrite length_map. reflexivity.
Qed.

(** The spread [n*Sxx - Sx^2] grows by the squared distances to each new
    point; it is positive as soon as two abscissas differ. *)
Lemma Rsum_sq_dist (x : R) (l : list R) :
  Rsum (map (fun t => (t - x) * (t - x))%R l) =
  (Rsum (zip_with Rmult l l) - 2 * x * Rsum l + INR (List.length l) * (x * x))%R.
Proof.
  induction l as [|a l IH].
  - simpl. lra.
  - change (zip_with Rmult (a :: l) (a :: l)) with ((a * a)%R :: zip_with Rmult l l).
    simpl map. simpl Rsum. rewrite IH.
    change (List.length (a :: l)) with (S (List.length l)). rewrite S_INR. lra.
Qed.

Lemma spread_cons (x : R) (l : list R) :
  spread (x :: l) = (spread l + Rsum (map (fun t => (t - x) * (t - x))%R l))%R.
Proof.
  rewrite Rsum_sq_dist. unfold spread.
  change (zip_with Rmult (x :: l) (x :: l)) with ((x * x)%R :: zip_with Rmult l l).
  change (List.length (x :: l)) with (S (List.length l)). rewrite S_INR.
  simpl Rsum. lra.
Qed.

Lemma Rsum_sq_nonneg (x : R) (l : list R) :
  (0 <= Rsum (map (fun t => (t - x) * (t - x))%R l))%R.
Proof.
  induction l as [|a l IH]; simpl; [lra|].
  pose proof (Rle_0_sqr (a - x)) as Hsq. unfold Rsqr in Hsq. lra.
Qed.

Lemma Rsum_sq_pos (x y : R) (l : list R) :
  In y l -> y <> x -> (0 < Rsum (map (fun t => (t - x) * (t - x))%R l))%R.
Proof.
  intros Hin Hxy. induction l as [|a l IH]; [contradiction|].
  simpl. pose proof (Rsum_sq_nonneg x l) as Hrest.
  pose proof (Rle_0_sqr (a - x)) as Hsq. unfold Rsqr in Hsq.
  destruct Hin as [->|Hin].
  - assert (0 < (y - x) * (y - x))%R by (apply Rsqr_pos_lt; lra). lra.
  - specialize (IH Hin). lra.
Qed.

Lemma spread_nonneg (l : list R) : (0 <= spread l)%R.
Proof.
  induction l as [|x l IH].
  - unfold spread. simpl. lra.
  - rewrite spread_cons. pose proof (Rsum_sq_nonneg x l). lra.
Qed.

Lemma spread_pos (l : list R) (a b : R) :
  In a l -> In b l -> a <> b -> (0 < spread l)%R.
Proof.
  induction l as [|x l IH]; [contradiction|].
  intros Ha Hb Hab. rewrite spread_cons.
  pose proof (spread_nonneg l) as Hs. pose proof (Rsum_sq_nonneg x l) as Hq.
  destruct Ha as [->|Ha], Hb as [->|Hb].
  - contradiction.
  - pose proof (Rsum_sq_pos a b l Hb (not_eq_sym Hab)). lra.
  - pose proof (Rsum_sq_pos b a l Ha Hab). lra.
  - specialize (IH Ha Hb Hab). lra.
Qed.

Lemma sse_expand (xs ys : list R) (a b : R) :
  List.length ys = List.length xs ->
  sse xs ys a b =
  (Rsum (zip_with Rmult ys ys) - 2 * a * Rsum (zip_with Rmult xs ys)
   - 2 * b * Rsum ys + a * a * Rsum (zip_with Rmult xs xs)
   + 2 * a * b * Rsum xs + INR (List.length xs) * (b * b))%R.
Proof.
  revert ys. induction xs as [|x xs IH]; intros [|y ys] Hlen; try discriminate.
  - unfold sse, zip_with. simpl. lra.
  - injection Hlen as Hlen. specialize (IH ys Hlen).
    unfold sse in *. unfold zip_with in *. simpl combine. simpl map. simpl Rsum.
    simpl fst. simpl snd. rewrite IH.
    change (List.length (x :: xs)) with (S (List.length xs)). rewrite S_INR. lra.
Qed.

Lemma spread_pos_length (xs : list R) : (0 < spread xs)%R -> (0 < INR (List.length xs))%R.
Proof.
  intros Hs. destruct xs as [|x xs].
  - unfold spread in Hs. simpl in Hs. lra.
  - apply lt_0_INR. simpl. lia.
Qed.

(** The normal equations solved by [ols_slope] and [ols_intercept]. *)
Lemma ols_normal_equations (xs ys : list R) :
  (0 < spread xs)%R ->
  (Rsum ys = INR (List.length xs) * ols_intercept xs ys + ols_slope xs ys * Rsum xs)%R /\
  (Rsum (zip_with Rmult xs ys) =
   ols_slope xs ys * Rsum (zip_with Rmult xs xs) + ols_intercept xs ys * Rsum xs)%R.
Proof.
  intros Hs. pose proof (spread_pos_length xs Hs) as Hn.
  assert (E1 : (INR (List.length xs) * ols_intercept xs ys =
                Rsum ys - ols_slope xs ys * Rsum xs)%R).
  { unfold ols_intercept. field. lra. }
  assert (E2 : (ols_slope xs ys * spread xs =
                INR (List.length xs) * Rsum (zip_with Rmult xs ys) - Rsum xs * Rsum ys)%R).
  { unfold ols_slope. field. lra. }
  split; [lra|].
  apply Rmult_eq_reg_l with (INR (List.length xs)); [|lra].
  unfold spread in E2.
  transitivity (ols_slope xs ys *
                  (INR (List.length xs) * Rsum (zip_with Rmult xs xs) - Rsum xs * Rsum xs)
                + Rsum xs * Rsum ys)%R; [lra|].
  transitivity (ols_slope xs ys * (INR (List.length xs) * Rsum (zip_with Rmult xs xs))
                + (INR (List.length xs) * ols_intercept xs ys) * Rsum xs)%R; [|ring].
  rewrite E1. ring.
Qed.

(** The line through [ols_slope] and [ols_intercept] minimises the sum of
    squared residuals: it is the ordinary-least-squares fit. *)
Lemma ols_minimises (xs ys : list R) :
  List.length ys = List.length xs -> (0 < spread xs)%R ->
  forall a b : R,
    (sse xs ys (ols_slope xs ys) (ols_intercept xs ys) <= sse xs ys a b)%R.
Proof.
  intros Hlen Hs a b.
  pose proof (spread_pos_length xs Hs) as Hn.
  destruct (ols_normal_equations xs ys Hs) as [E1 E2].
  rewrite !sse_expand by assumption. rewrite E1, E2.
  set (a0 := ols_slope xs ys). set (b0 := ols_intercept xs ys).
  set (n := INR (List.length xs)) in *.
  set (Sx := Rsum xs) in *. set (Sxx := Rsum (zip_with Rmult xs xs)) in *.
  unfold spread in Hs. fold n Sx Sxx in Hs.
  (* n * (sse a b - sse a0 b0) = (n (b-b0) + Sx (a-a0))^2 + spread (a-a0)^2 *)
  assert (Hkey : (0 <= (n * (b - b0) + Sx * (a - a0)) * (n * (b - b0) + Sx * (a - a0))
                      + (n * Sxx - Sx * Sx) * ((a - a0) * (a - a0)))%R).
  { pose proof (Rle_0_sqr (n * (b - b0) + Sx * (a - a0))) as H1.
    pose proof (Rle_0_sqr (a - a0)) as H2. unfold Rsqr in H1, H2.
    assert (0 <= (n * Sxx - Sx * Sx) * ((a - a0) * (a - a0)))%R
      by (apply Rmult_le_pos; lra).
    lra. }
  apply Rmult_le_reg_l with n; [exact Hn|].
  match goal with |- (n * ?u <= n * ?v)%R =>
    assert (Hid : (n * v - n * u =
                   (n * (b - b0) + Sx * (a - a0)) * (n * (b - b0) + Sx * (a - a0))
                   + (n * Sxx - Sx * Sx) * ((a - a0) * (a - a0)))%R) by ring
  end.
  lra.
Qed.

Lemma Rsum_affine (c r0 : R) (xs : list R) :
  Rsum (map (fun x => c + r0 * x)%R xs) = (INR (List.length xs) * c + r0 * Rsum xs)%R.
Proof.
  induction xs as [|x xs IH]; [simpl; lra|].
  simpl map. simpl Rsum. rewrite IH.
  change (List.length (x :: xs)) with (S (List.length xs)). rewrite S_INR. lra.
Qed.

Lemma Rsum_cross_affine (c r0 : R) (xs : list R) :
  Rsum (zip_with Rmult xs (map (fun x => c + r0 * x)%R xs)) =
  (c * Rsum xs + r0 * Rsum (zip_with Rmult xs xs))%R.
Proof.
  unfold zip_with. induction xs as [|x xs IH]; [simpl; lra|].
  simpl. simpl in IH. rewrite IH. lra.
Qed.

(** Points lying exactly on a line give back the slope of that line. *)
Lemma ols_slope_affine (c r0 : R) (xs : list R) :
  (0 < spread xs)%R -> ols_slope xs (map (fun x => c + r0 * x)%R xs) = r0.
Proof.
  intros Hs. unfold ols_slope. rewrite Rsum_affine, Rsum_cross_affine.
  unfold spread in *. field. lra.
Qed.

Lemma ln_exponential (a r0 x : R) :
  (0 < a)%R -> ln (a * exp (r0 * x)) = (ln a + r0 * x)%R.
Proof.
  intros Ha. rewrite ln_mult; [now rewrite ln_exp | exact Ha | apply exp_pos].
Qed.

(** ** Maxima *)

Lemma fold_fmax_finite (l : list R) (a : R) :
  fold_left fmax (map Finite l) (Finite a) = Finite (fold_left Rmax l a).
Proof. revert a. induction l as [|x l IH]; intros a; simpl; [reflexivity | apply IH]. Qed.

Lemma fold_Rmax_spec (l : list R) (a : R) :
  (a <= fold_left Rmax l a)%R /\
  Forall (fun x => (x <= fold_left Rmax l a)%R) l /\
  (fold_left Rmax l a = a \/ In (fold_left Rmax l a) l).
Proof.
  revert a. induction l as [|x l IH]; intros a; simpl.
  - repeat split; [lra | constructor | now left].
  - destruct (IH (Rmax a x)) as (Hge & Hall & Hin).
    pose proof (Rmax_l a x). pose proof (Rmax_r a x).
    repeat split; [lra | constructor; [lra | exact Hall] |].
    destruct Hin as [E|Hin]; [|now right; right].
    rewrite E. unfold Rmax. destruct (Rle_dec a x); [right; now left | now left].
Qed.

Lemma Rmax_list_spec (l : list R) :
  l <> [] -> In (Rmax_list l) l /\ Forall (fun x => (x <= Rmax_list l)%R) l.
Proof.
  destruct l as [|a l]; [contradiction|]. intros _. simpl Rmax_list.
  destruct (fold_Rmax_spec l a) as (Hge & Hall & Hin). split.
  - destruct Hin as [E|Hin]; [left; now rewrite E | now right].
  - constructor; assumption.
Qed.

Lemma np_max_finite (l : list R) :
  l <> [] -> np_max (map Finite l) = Ok (Finite (Rmax_list l)).
Proof.
  destruct l as [|a l]; [contradiction|]. intros _. simpl.
  now rewrite fold_fmax_finite.
Qed.

(** ** The growth models on positive finite data *)

Lemma np_log_positive (ps : list R) :
  Forall (fun p => (0 < p)%R) ps ->
  map np_log (map Finite ps) = map Finite (map ln ps).
Proof.
  induction 1 as [|p ps Hp _ IH]; [reflexivity|].
  simpl. rewrite IH. destruct (Rlt_dec 0 p); [reflexivity | contradiction].
Qed.

Lemma exp_curve_finite (a b : R) (ts : list Z) :
  exp_curve (Finite a) (Finite b) ts = map Finite (exp_series a b ts).
Proof. unfold exp_curve, exp_series. now rewrite map_map. Qed.

Lemma logistic_iter_finite (rr kk p : R) (n : nat) :
  kk <> 0%R ->
  Nat.iter n (logistic_step (Finite rr) (Finite kk)) (Finite p) =
  Finite (Nat.iter n (euler_step rr kk) p).
Proof.
  intros Hk. induction n as [|n IH]; [reflexivity|].
  simpl. rewrite IH. now apply logistic_step_finite.
Qed.

Lemma logistic_loop_finite (rr kk p : R) (l : list Z) :
  kk <> 0%R ->
  logistic_loop (Finite rr) (Finite kk) (Finite p) l =
  map Finite (euler_series rr kk p (List.length l)).
Proof.
  intros Hk. rewrite logistic_loop_iter. unfold euler_series. rewrite map_map.
  apply map_ext. intros i. now apply logistic_iter_finite.
Qed.

Lemma getitem_first_finite {c : container} (ps : list R) :
  ps <> [] -> getitem_of c (map Finite ps) 0 = Ok (Finite (hd 0%R ps)).
Proof. destruct ps; [contradiction | reflexivity]. Qed.

Lemma getitem_last_finite {c : container} (ps : list R) :
  ps <> [] -> getitem_of c (map Finite ps) (-1) = Ok (Finite (last ps 0%R)).
Proof.
  intros Hne. destruct (exists_last Hne) as (l & a & ->).
  rewrite map_app, last_last. apply getitem_last.
Qed.

Lemma getitem_last_Z {c : container} (l : list Z) :
  l <> [] -> getitem_of c l (-1) = Ok (last l 0%Z).
Proof.
  intros Hne. destruct (exists_last Hne) as (l1 & a & ->).
  rewrite last_last. apply getitem_last.
Qed.

Lemma periods_map_IZR (years : list Z) :
  periods years = map IZR (map (fun y => (y - hd 0 years)%Z) years).
Proof. unfold periods. now rewrite map_map. Qed.

Lemma Rmax_list_pos (ps : list R) :
  ps <> [] -> Forall (fun p => (0 < p)%R) ps -> (0 < Rmax_list ps)%R.
Proof.
  intros Hne Hpos. destruct (Rmax_list_spec ps Hne) as [Hin _].
  rewrite Forall_forall in Hpos. now apply Hpos.
Qed.

(** Lines 37-51 on a positive finite series: every local is finite and
    given by the real formulas. *)
Lemma growth_models_finite (years : list Z) (first_year stop_year : Z) (ps : list R) :
  List.length ps = List.length years ->
  (0 < spread (periods years))%R ->
  Forall (fun p => (0 < p)%R) ps ->
  let year0 := hd 0%Z years in
  let rr := ols_slope (periods years) (map ln ps) in
  let kk := (Rmax_list ps * 3)%R in
  let fy := arange first_year stop_year in
  growth_models years first_year stop_year (map Finite ps) =
  Ok {| t := map (fun y => (y - year0)%Z) years;
        p0 := Finite (hd 0%R ps);
        r := Finite rr;
        future_years := fy;
        t_future := map (fun y => (y - year0)%Z) fy;
        pop_future_exp :=
          map Finite (exp_series (hd 0%R ps) rr (map (fun y => (y - year0)%Z) fy));
        k := Finite kk;
        pop_log := map Finite (euler_series rr kk (last ps 0%R) (List.length fy)) |}.
Proof.
  intros Hlen Hs Hpos year0 rr kk fy.
  assert (Hyears : years <> []).
  { intros ->. unfold spread, periods in Hs. simpl in Hs. lra. }
  assert (Hps : ps <> []).
  { intros ->. destruct years; [contradiction | discriminate]. }
  destruct years as [|y0 ys]; [contradiction|].
  unfold growth_models. rewrite getitem_0. simpl bind.
  rewrite getitem_first_finite by assumption. simpl bind.
  rewrite np_log_positive by assumption.
  rewrite periods_map_IZR in Hs.
  rewrite polyfit_slope_finite.
  - simpl bind. rewrite np_max_finite by assumption. simpl bind.
    rewrite getitem_last_finite by assumption. simpl bind.
    assert (Hkk : kk <> 0%R).
    { unfold kk. pose proof (Rmax_list_pos ps Hps Hpos). lra. }
    rewrite exp_curve_finite, logistic_loop_finite by exact Hkk.
    unfold rr. rewrite periods_map_IZR. reflexivity.
  - discriminate.
  - simpl. rewrite !length_map. exact Hlen.
  - simpl in Hs |- *. lra.
Qed.


(** ** The forecast table on finite series *)

Lemma fmt_int_finite (x : R) : fmt_int (Finite x) = Ok (format_commas (Rtrunc x)).
Proof. reflexivity. Qed.

Lemma getitem_finite_nth {c : container} (es : list R) (i : Z) :
  (0 <= i < len es)%Z ->
  getitem_of c (map Finite es) i = Ok (Finite (nth (Z.to_nat i) es 0%R)).
Proof.
  intros [Hlo Hhi]. rewrite <- (Z2Nat.id i) at 1 by exact Hlo.
  apply getitem_nth. rewrite nth_error_map.
  unfold len in Hhi.
  rewrite (nth_error_nth' es 0%R) by lia. reflexivity.
Qed.

Lemma getitem_arange_0 {c : container} (first_year stop_year : Z) :
  (first_year < stop_year)%Z ->
  getitem_of c (arange first_year stop_year) 0 = Ok first_year.
Proof.
  intros Hlt. apply (getitem_nth _ 0%nat).
  rewrite arange_nth by lia. f_equal. simpl. lia.
Qed.

Lemma len_arange (first_year stop_year : Z) :
  (first_year <= stop_year)%Z -> len (arange first_year stop_year) = (stop_year - first_year)%Z.
Proof. intros Hle. unfold len. rewrite arange_length. lia. Qed.

Lemma arange_last (first_year stop_year : Z) :
  (first_year < stop_year)%Z -> last (arange first_year stop_year) 0%Z = (stop_year - 1)%Z.
Proof.
  intros Hlt. unfold arange.
  replace (Z.to_nat (stop_year - first_year))
    with (S (Z.to_nat (stop_year - first_year - 1))) by lia.
  rewrite seq_S, map_app. simpl (map _ [_]). rewrite last_last. lia.
Qed.

Section TableOnFiniteSeries.
Variables first_year stop_year : Z.
Variables es ls : list R.
Hypothesis horizon_nonempty : (first_year < stop_year)%Z.
Hypothesis es_length : len es = (stop_year - first_year)%Z.
Hypothesis ls_length : len ls = (stop_year - first_year)%Z.

Lemma table_body_finite (acc : list forecast_row) (y : Z) :
  table_body (arange first_year stop_year) (map Finite es) (map Finite ls) acc y =
  Ok (if in_horizon first_year stop_year y
      then acc ++ [checkpoint_row first_year es ls y]
      else acc).
Proof.
  unfold table_body. rewrite getitem_arange_0 by assumption. simpl bind.
  unfold in_horizon.
  destruct (Z.ltb_spec y first_year) as [Hbefore|Hfrom].
  { destruct (Z.leb_spec first_year y); [lia | reflexivity]. }
  destruct (Z.leb_spec first_year y) as [_|]; [|lia].
  rewrite len_arange by lia. rewrite Z.geb_leb.
  destruct (Z.leb_spec (stop_year - first_year) (y - first_year)) as [Hafter|Hin].
  { destruct (Z.ltb_spec y stop_year); [lia | reflexivity]. }
  destruct (Z.ltb_spec y stop_year) as [_|]; [|lia].
  rewrite !getitem_finite_nth by lia.
  reflexivity.
Qed.

Lemma build_table_fold (points : list Z) (acc : list forecast_row) :
  foldM (table_body (arange first_year stop_year) (map Finite es) (map Finite ls)) points acc =
  Ok (acc ++ map (checkpoint_row first_year es ls)
                 (filter (in_horizon first_year stop_year) points)).
Proof.
  revert acc. induction points as [|y points IH]; intros acc; simpl.
  - now rewrite app_nil_r.
  - rewrite table_body_finite. simpl bind.
    destruct (in_horizon first_year stop_year y); rewrite IH.
    + now rewrite <- app_assoc.
    + reflexivity.
Qed.

Lemma build_forecast_table_finite (points : list Z) :
  build_forecast_table points (arange first_year stop_year) (map Finite es) (map Finite ls) =
  Ok (map (checkpoint_row first_year es ls)
          (filter (in_horizon first_year stop_year) points)).
Proof. unfold build_forecast_table. now rewrite build_table_fold. Qed.

(** Lines 78-80 when the table is empty. *)
Lemma final_values_fallback :
  final_values [] (arange first_year stop_year) (map Finite es) (map Finite ls) =
  Ok {| final_year := (stop_year - 1)%Z;
        final_exp := format_commas (Rtrunc (last es 0%R));
        final_log := format_commas (Rtrunc (last ls 0%R)) |}.
Proof.
  assert (Hne : forall l : list R, len l = (stop_year - first_year)%Z -> l <> []).
  { intros l Hl ->. unfold len in Hl. simpl in Hl. lia. }
  unfold final_values.
  rewrite getitem_last_Z.
  2:{ intros E. apply (f_equal (@List.length Z)) in E.
      rewrite arange_length in E. simpl in E. lia. }
  simpl bind. rewrite !getitem_last_finite by auto. simpl bind.
  rewrite arange_last by assumption. reflexivity.
Qed.
End TableOnFiniteSeries.

(** Lines 78-80 when the table has a last row. *)
Lemma final_values_last_row (rows : list forecast_row) (row : forecast_row)
    (fy : list Z) (pexp plog : list float64) :
  final_values (rows ++ [row]) fy pexp plog =
  Ok {| final_year := row_year row; final_exp := row_exp row;
        final_log := row_log row |}.
Proof.
  unfold final_values. destruct (rows ++ [row]) eqn:E.
  - destruct rows; discriminate.
  - rewrite <- E. rewrite !getitem_last. reflexivity.
Qed.

(** ** How a non-positive population travels through the fit *)

Ltac float_cases :=
  repeat match goal with
         | a : float64 |- _ => destruct a
         | H : nan_or_ninf _ |- _ => destruct H as [H|H]; try discriminate H
         end;
  unfold below_pinf, nan_or_ninf in *; simpl; try congruence; auto.

Lemma np_log_below_pinf (x : R) : below_pinf (np_log (Finite x)).
Proof.
  unfold below_pinf. simpl.
  destruct (Rlt_dec 0 x); [discriminate|]. destruct (Rlt_dec x 0); discriminate.
Qed.

Lemma np_log_nonpositive (x : R) : (x <= 0)%R -> nan_or_ninf (np_log (Finite x)).
Proof.
  intros Hx. unfold nan_or_ninf. simpl.
  destruct (Rlt_dec 0 x); [lra|]. destruct (Rlt_dec x 0); auto.
Qed.

Lemma fadd_bad_l (a b : float64) :
  nan_or_ninf a -> below_pinf b -> nan_or_ninf (fadd a b).
Proof. intros Ha Hb. float_cases. Qed.

Lemma fadd_bad_r (a b : float64) :
  below_pinf a -> nan_or_ninf b -> nan_or_ninf (fadd a b).
Proof. intros Ha Hb. float_cases. Qed.

Lemma fadd_below_pinf (a b : float64) :
  below_pinf a -> below_pinf b -> below_pinf (fadd a b).
Proof. intros Ha Hb. float_cases. Qed.

Lemma fold_fadd_bad_acc (l : list float64) (acc : float64) :
  Forall below_pinf l -> nan_or_ninf acc -> nan_or_ninf (fold_left fadd l acc).
Proof.
  intros Hl. revert acc. induction Hl as [|x l Hx _ IH]; intros acc Hacc; simpl.
  - exact Hacc.
  - apply IH. now apply fadd_bad_l.
Qed.

Lemma fold_fadd_bad (l : list float64) (acc : float64) :
  Forall below_pinf l -> Exists nan_or_ninf l -> below_pinf acc ->
  nan_or_ninf (fold_left fadd l acc).
Proof.
  intros Hl Hex. revert acc.
  induction Hex as [x l Hx | x l _ IH]; intros acc Hacc;
    inversion Hl as [|? ? Hx' Hl']; subst; simpl.
  - apply fold_fadd_bad_acc; [assumption|]. now apply fadd_bad_r.
  - apply IH; [assumption|]. now apply fadd_below_pinf.
Qed.

Lemma fsum_bad (l : list float64) :
  Forall below_pinf l -> Exists nan_or_ninf l -> nan_or_ninf (fsum l).
Proof. intros Hl Hex. apply fold_fadd_bad; try assumption. discriminate. Qed.

Lemma scale_nonneg_bad (x : R) (b : float64) :
  (0 <= x)%R -> nan_or_ninf b -> nan_or_ninf (fmul (Finite x) b).
Proof.
  intros Hx [-> | ->]; unfold nan_or_ninf; simpl; [now left|].
  unfold scale_inf. destruct (Rlt_dec 0 x); [now right|].
  destruct (Rlt_dec x 0); [lra | now left].
Qed.

Lemma scale_nonneg_below_pinf (x : R) (b : float64) :
  (0 <= x)%R -> below_pinf b -> below_pinf (fmul (Finite x) b).
Proof.
  intros Hx Hb. unfold below_pinf in *. destruct b; simpl; try discriminate.
  - contradiction.
  - unfold scale_inf. destruct (Rlt_dec 0 x); [discriminate|].
    destruct (Rlt_dec x 0); [lra | discriminate].
Qed.

Lemma cross_terms_below_pinf (ts : list Z) (ys : list float64) :
  Forall (fun z => (0 <= z)%Z) ts -> Forall below_pinf ys ->
  Forall below_pinf (zip_with fmul (map of_int ts) ys).
Proof.
  unfold zip_with. intros Hts. revert ys.
  induction Hts as [|z ts Hz _ IH]; intros ys Hys; [constructor|].
  destruct Hys as [|y ys Hy Hys]; simpl; constructor.
  - apply scale_nonneg_below_pinf; [now apply IZR_le | assumption].
  - now apply IH.
Qed.

Lemma cross_terms_bad (ts : list Z) (ys : list float64) :
  List.length ts = List.length ys ->
  Forall (fun z => (0 <= z)%Z) ts -> Exists nan_or_ninf ys ->
  Exists nan_or_ninf (zip_with fmul (map of_int ts) ys).
Proof.
  unfold zip_with. intros Hlen Hts Hex. revert ts Hlen Hts.
  induction Hex as [y ys Hy | y ys _ IH]; intros [|z ts] Hlen Hts;
    try discriminate; inversion Hts; subst; simpl.
  - left. apply scale_nonneg_bad; [now apply IZR_le | assumption].
  - right. apply IH; [now injection Hlen | assumption].
Qed.

Lemma Rsum_IZR_nonneg (ts : list Z) :
  Forall (fun z => (0 <= z)%Z) ts -> (0 <= Rsum (map IZR ts))%R.
Proof.
  induction 1 as [|z ts Hz _ IH]; simpl; [lra|].
  apply IZR_le in Hz. lra.
Qed.

Lemma fsub_bad_bad (a b : float64) :
  nan_or_ninf a -> nan_or_ninf b -> fsub a b = NaN.
Proof. intros [-> | ->] [-> | ->]; reflexivity. Qed.

(** A NaN or [-inf] among the ordinates makes the fitted slope NaN. *)
Lemma polyfit_slope_nan (ts : list Z) (ys : list float64) :
  ts <> [] -> List.length ts = List.length ys ->
  Forall (fun z => (0 <= z)%Z) ts ->
  Forall below_pinf ys -> Exists nan_or_ninf ys ->
  polyfit_slope ts ys = Ok NaN.
Proof.
  intros Hne Hlen Hts Hys Hex. unfold polyfit_slope.
  destruct (len ts =? 0)%Z eqn:H0.
  { apply Z.eqb_eq in H0. unfold len in H0. destruct ts; [contradiction | simpl in H0; lia]. }
  replace (len ys) with (len ts) by (unfold len; now rewrite Hlen).
  rewrite Z.eqb_refl. cbv beta iota zeta. simpl negb. cbv iota.
  rewrite (map_of_int ts) at 2. rewrite fsum_finite.
  assert (Hsy : nan_or_ninf (fsum ys)) by (now apply fsum_bad).
  assert (Hsxy : nan_or_ninf (fsum (zip_with fmul (map of_int ts) ys))).
  { apply fsum_bad; [now apply cross_terms_below_pinf | now apply cross_terms_bad]. }
  rewrite fsub_bad_bad; [reflexivity | |].
  - apply scale_nonneg_bad; [|exact Hsxy]. apply IZR_le. apply len_nonneg.
  - apply scale_nonneg_bad; [|exact Hsy]. now apply Rsum_IZR_nonneg.
Qed.

Lemma exp_curve_nan (a : float64) (ts : list Z) :
  exp_curve a NaN ts = map (fun _ => NaN) ts.
Proof. unfold exp_curve. apply map_ext. intros tf. now destruct a. Qed.

Lemma log_series_classes (ps : list R) :
  Forall below_pinf (map np_log (map Finite ps)).
Proof.
  induction ps as [|p ps IH]; simpl map; constructor; [apply np_log_below_pinf | exact IH].
Qed.

Lemma log_series_bad (ps : list R) :
  Exists (fun p => (p <= 0)%R) ps -> Exists nan_or_ninf (map np_log (map Finite ps)).
Proof.
  induction 1 as [p ps Hp | p ps _ IH]; simpl map.
  - left. now apply np_log_nonpositive.
  - right. exact IH.
Qed.

(** Lines 37-39 of the source: with a non-positive population among the
    eight historical values the fitted rate is NaN. *)
Lemma growth_models_nan (first_year stop_year : Z) (ps : list R) :
  List.length ps = List.length years ->
  Exists (fun p => (p <= 0)%R) ps ->
  exists m, growth_models years first_year stop_year (map Finite ps) = Ok m /\
            r m = NaN /\
            future_years m = arange first_year stop_year /\
            pop_future_exp m =
              map (fun _ => NaN)
                  (map (fun y => (y - 1970)%Z) (arange first_year stop_year)).
Proof.
  intros Hlen Hex.
  assert (Hps : ps <> []) by (intros ->; discriminate).
  unfold growth_models. change (np_getitem years 0) with (Ok 1970%Z : result Z).
  cbv beta iota delta [bind].
  rewrite getitem_first_finite by assumption.
  rewrite polyfit_slope_nan.
  - rewrite np_max_finite, getitem_last_finite by assumption.
    eexists. split; [reflexivity|]. simpl. rewrite exp_curve_nan. auto.
  - discriminate.
  - rewrite !length_map. now rewrite Hlen.
  - unfold years. simpl. repeat constructor; lia.
  - apply log_series_classes.
  - now apply log_series_bad.
Qed.

Lemma build_forecast_table_nan (plog : list float64) :
  build_forecast_table forecast_points (arange 2022 2072)
    (map (fun _ => NaN) (map (fun y => (y - 1970)%Z) (arange 2022 2072))) plog =
  Err (Raise ValueError "cannot convert float NaN to integer").
Proof. reflexivity. Qed.

Lemma country_forecast_nan (name : string) (data : Row) (ps : list R) :
  pop_of data = map Finite ps ->
  Exists (fun p => (p <= 0)%R) ps ->
  country_forecast years 2022 2072 forecast_points name data =
  Err (Raise ValueError "cannot convert float NaN to integer").
Proof.
  intros Hpop Hex.
  assert (Hlen : List.length ps = List.length years).
  { apply (f_equal (@List.length float64)) in Hpop.
    unfold pop_of in Hpop. rewrite !length_map in Hpop. now rewrite <- Hpop. }
  destruct (growth_models_nan 2022 2072 ps Hlen Hex) as (m & Hm & _ & Hfy & Hexp).
  unfold country_forecast. rewrite Hpop, Hm.
  cbv beta iota delta [bind]. rewrite Hfy, Hexp, build_forecast_table_nan.
  reflexivity.
Qed.

(** ** Truncation toward zero *)

Lemma Rtrunc_nonneg (x : R) :
  (0 <= x)%R -> (IZR (Rtrunc x) <= x < IZR (Rtrunc x) + 1)%R.
Proof.
  intros Hx. unfold Rtrunc. destruct (Rlt_dec x 0); [lra|].
  destruct (base_Int_part x). lra.
Qed.

Lemma Rtrunc_neg (x : R) :
  (x < 0)%R -> (x <= IZR (Rtrunc x) < x + 1)%R.
Proof.
  intros Hx. unfold Rtrunc. destruct (Rlt_dec x 0); [|lra].
  rewrite opp_IZR. destruct (base_Int_part (- x)). lra.
Qed.

Lemma Rtrunc_toward_zero (x : R) :
  (Rabs (IZR (Rtrunc x)) <= Rabs x)%R /\ (Rabs (x - IZR (Rtrunc x)) < 1)%R.
Proof.
  destruct (Rlt_dec x 0) as [Hneg|Hpos].
  - pose proof (Rtrunc_neg x Hneg) as [Hlo Hhi].
    assert (Hz : (IZR (Rtrunc x) <= 0)%R).
    { assert (IZR (Rtrunc x) < IZR 1)%R by (simpl; lra).
      apply lt_IZR in H. apply (IZR_le _ 0). lia. }
    rewrite (Rabs_left1 (IZR _)), (Rabs_left x), Rabs_left1 by lra. lra.
  - pose proof (Rtrunc_nonneg x ltac:(lra)) as [Hlo Hhi].
    assert (Hz : (0 <= IZR (Rtrunc x))%R).
    { assert (IZR (-1) < IZR (Rtrunc x))%R by (simpl; lra).
      apply lt_IZR in H. apply (IZR_le 0). lia. }
    rewrite (Rabs_right (IZR _)), (Rabs_right x), Rabs_right by lra. lra.
Qed.

Lemma Rtrunc_between (x : R) (z : Z) :
  (0 <= IZR z <= x)%R -> (x < IZR z + 1)%R -> Rtrunc x = z.
Proof.
  intros [Hz Hlo] Hhi. unfold Rtrunc. destruct (Rlt_dec x 0); [lra|].
  symmetry. apply Int_part_spec. lra.
Qed.

Lemma Rtrunc_between_neg (x : R) (z : Z) :
  (x <= IZR z <= 0)%R -> (IZR z - 1 < x)%R -> (x < 0)%R -> Rtrunc x = z.
Proof.
  intros [Hlo Hz] Hhi Hneg. unfold Rtrunc. destruct (Rlt_dec x 0); [|lra].
  assert (E : Int_part (- x) = (- z)%Z).
  { symmetry. apply Int_part_spec. rewrite opp_IZR. lra. }
  rewrite E. lia.
Qed.

Example int_truncates_positive : int (Finite (27 / 10)) = Ok 2%Z.
Proof. simpl. f_equal. apply Rtrunc_between; lra. Qed.

Example int_truncates_negative : int (Finite (- 27 / 10)) = Ok (-2)%Z.
Proof. simpl. f_equal. apply Rtrunc_between_neg; lra. Qed.

(** ** The population history on finite data *)

Lemma mapM_history_finite (yps : list (Z * R)) :
  mapM history_entry (map (fun yp => (fst yp, Finite (snd yp))) yps) =
  Ok (map (fun yp => (fst yp, format_commas (Rtrunc (snd yp)))) yps).
Proof.
  induction yps as [|[y p] yps IH]; [reflexivity|].
  simpl. simpl in IH. rewrite IH. reflexivity.
Qed.

Lemma combine_map_finite (ys : list Z) (ps : list R) :
  combine ys (map Finite ps) = map (fun yp => (fst yp, Finite (snd yp))) (combine ys ps).
Proof.
  revert ps. induction ys as [|y ys IH]; intros [|p ps]; simpl; try reflexivity.
  now rewrite IH.
Qed.

Lemma make_population_history_finite (ys : list Z) (ps : list R) :
  make_population_history ys (map Finite ps) = Ok (history_of ys ps).
Proof.
  unfold make_population_history, history_of.
  rewrite <- map_rev, combine_map_finite. apply mapM_history_finite.
Qed.

(** ** The whole computation on positive finite data *)

Lemma spread_years : (0 < spread (periods years))%R.
Proof.
  apply (spread_pos _ (IZR 0) (IZR 10)).
  - left. reflexivity.
  - right. left. reflexivity.
  - intros E. apply eq_IZR in E. discriminate.
Qed.

Lemma pop_of_length (data : Row) (ps : list R) :
  pop_of data = map Finite ps -> List.length ps = List.length years.
Proof.
  intros Hpop. apply (f_equal (@List.length float64)) in Hpop.
  unfold pop_of in Hpop. rewrite !length_map in Hpop. now rewrite <- Hpop.
Qed.

Lemma growth_models_positive (first_year stop_year : Z) (ps : list R) :
  List.length ps = List.length years ->
  Forall (fun p => (0 < p)%R) ps ->
  growth_models years first_year stop_year (map Finite ps) =
  Ok {| t := map (fun y => (y - 1970)%Z) years;
        p0 := Finite (hd 0%R ps);
        r := Finite (fitted_rate ps);
        future_years := arange first_year stop_year;
        t_future := map (fun y => (y - 1970)%Z) (arange first_year stop_year);
        pop_future_exp := map Finite (exp_forecast first_year stop_year ps);
        k := Finite (capacity ps);
        pop_log := map Finite (log_forecast first_year stop_year ps) |}.
Proof.
  intros Hlen Hpos.
  exact (growth_models_finite years first_year stop_year ps Hlen spread_years Hpos).
Qed.

Lemma exp_forecast_len (first_year stop_year : Z) (ps : list R) :
  (first_year < stop_year)%Z ->
  len (exp_forecast first_year stop_year ps) = (stop_year - first_year)%Z.
Proof.
  intros Hlt. unfold len, exp_forecast, exp_series.
  rewrite !length_map, arange_length. lia.
Qed.

Lemma log_forecast_len (first_year stop_year : Z) (ps : list R) :
  (first_year < stop_year)%Z ->
  len (log_forecast first_year stop_year ps) = (stop_year - first_year)%Z.
Proof.
  intros Hlt. unfold len, log_forecast, euler_series.
  rewrite length_map, length_seq, arange_length. lia.
Qed.

Lemma final_values_total (first_year stop_year : Z) (es ls : list R)
    (table : list forecast_row) :
  (first_year < stop_year)%Z ->
  len es = (stop_year - first_year)%Z -> len ls = (stop_year - first_year)%Z ->
  exists final,
    final_values table (arange first_year stop_year) (map Finite es) (map Finite ls)
    = Ok final.
Proof.
  intros Hlt Hes Hls. destruct table as [|row0 rows] using rev_ind.
  - eexists. now apply final_values_fallback.
  - eexists. apply final_values_last_row.
Qed.

Lemma country_forecast_positive (first_year stop_year : Z) (points : list Z)
    (name : string) (data : Row) (ps : list R) (rank area : R) :
  (first_year < stop_year)%Z ->
  pop_of data = map Finite ps ->
  Forall (fun p => (0 < p)%R) ps ->
  Rank data = Finite rank -> Area data = Finite area ->
  exists final st,
    final_values (table_of first_year stop_year points ps)
      (arange first_year stop_year)
      (map Finite (exp_forecast first_year stop_year ps))
      (map Finite (log_forecast first_year stop_year ps)) = Ok final /\
    make_stats data = Ok st /\
    country_forecast years first_year stop_year points name data =
    Ok {| country := name;
          stats := st;
          growth_rate := format_fixed 4 (Finite (fitted_rate ps));
          chart := build_chart years (map Finite ps) (arange first_year stop_year)
                     (map Finite (exp_forecast first_year stop_year ps))
                     (map Finite (log_forecast first_year stop_year ps)) name;
          population_history := history_of years ps;
          forecast_table := table_of first_year stop_year points ps;
          forecast_summary := summary_text final |}.
Proof.
  intros Hlt Hpop Hpos Hrank Harea.
  pose proof (pop_of_length data ps Hpop) as Hlen.
  pose proof (exp_forecast_len first_year stop_year ps Hlt) as Hes.
  pose proof (log_forecast_len first_year stop_year ps Hlt) as Hls.
  destruct (final_values_total first_year stop_year _ _
              (table_of first_year stop_year points ps) Hlt Hes Hls) as [final Hfinal].
  assert (Hst : exists st, make_stats data = Ok st).
  { unfold make_stats. rewrite Hrank, Harea. simpl. eauto. }
  destruct Hst as [st Hst].
  exists final, st. split; [exact Hfinal|]. split; [exact Hst|].
  unfold country_forecast.
  rewrite Hpop, growth_models_positive by assumption.
  cbv beta iota delta [bind future_years pop_future_exp pop_log r].
  rewrite build_forecast_table_finite by assumption.
  fold (table_of first_year stop_year points ps).
  rewrite Hfinal, Hst, make_population_history_finite. reflexivity.
Qed.

(** ** The growth models always return on the eight-value series *)

Lemma polyfit_slope_total (x : list Z) (y : list float64) :
  x <> [] -> List.length y = List.length x ->
  exists slope, polyfit_slope x y = Ok slope.
Proof.
  intros Hne Hlen. unfold polyfit_slope.
  destruct (len x =? 0)%Z eqn:H0.
  { apply Z.eqb_eq in H0. unfold len in H0. destruct x; [contradiction | simpl in H0; lia]. }
  replace (len y) with (len x) by (unfold len; now rewrite Hlen).
  rewrite Z.eqb_refl. simpl negb. cbv iota. eauto.
Qed.

Lemma growth_models_total (first_year stop_year : Z) (data : Row) :
  exists rate,
    growth_models years first_year stop_year (pop_of data) =
    Ok {| t := map (fun y => (y - 1970)%Z) years;
          p0 := Population_1970 data;
          r := rate;
          future_years := arange first_year stop_year;
          t_future := map (fun y => (y - 1970)%Z) (arange first_year stop_year);
          pop_future_exp :=
            exp_curve (Population_1970 data) rate
              (map (fun y => (y - 1970)%Z) (arange first_year stop_year));
          k := fmul (fold_left fmax (tl (pop_of data)) (Population_1970 data)) (Finite 3);
          pop_log :=
            logistic_loop rate
              (fmul (fold_left fmax (tl (pop_of data)) (Population_1970 data)) (Finite 3))
              (Population_2022 data) (arange first_year stop_year) |}.
Proof.
  destruct (polyfit_slope_total (map (fun y => (y - 1970)%Z) years)
              (map np_log (pop_of data))) as [rate Hrate].
  - discriminate.
  - reflexivity.
  - exists rate. unfold growth_models.
    change (np_getitem years 0) with (Ok 1970%Z : result Z).
    change (np_getitem (pop_of data) 0) with (Ok (Population_1970 data)).
    change (np_getitem (pop_of data) (-1)) with (Ok (Population_2022 data)).
    change (np_max (pop_of data))
      with (Ok (fold_left fmax (tl (pop_of data)) (Population_1970 data))).
    cbv beta iota delta [bind]. rewrite Hrate. reflexivity.
Qed.

(** ** The Euler series *)

Lemma euler_series_S (rr kk p : R) (n : nat) :
  euler_series rr kk p (S n) =
  euler_step rr kk p :: euler_series rr kk (euler_step rr kk p) n.
Proof.
  unfold euler_series. simpl seq. simpl map. f_equal.
  rewrite <- seq_shift, map_map. apply map_ext. intros i.
  now rewrite <- Nat.iter_succ_r.
Qed.

Lemma euler_series_bounds (rr kk : R) (n : nat) (p : R) :
  (0 < rr <= 1)%R -> within_capacity kk p ->
  Forall (within_capacity kk) (euler_series rr kk p n) /\
  Sorted Rle (p :: euler_series rr kk p n).
Proof.
  intros Hr. revert p. induction n as [|n IH]; intros p Hp.
  - split; [constructor | repeat constructor].
  - rewrite euler_series_S.
    destruct (euler_step_bounds rr kk p Hr Hp) as [Hgrow Hnext].
    destruct (IH _ Hnext) as [Hall Hsorted].
    split; constructor; try assumption. now constructor.
Qed.

(** ** Facts on the example data *)

Lemma sample_series_positive : Forall (fun p => (0 < p)%R) sample_series.
Proof. unfold sample_series. repeat constructor; lra. Qed.

Lemma fractional_series_positive : Forall (fun p => (0 < p)%R) fractional_series.
Proof. unfold fractional_series. repeat constructor; lra. Qed.

Lemma capacity_pos (ps : list R) :
  ps <> [] -> Forall (fun p => (0 < p)%R) ps -> (0 < capacity ps)%R.
Proof.
  intros Hne Hpos. unfold capacity. pose proof (Rmax_list_pos ps Hne Hpos). lra.
Qed.

(* ===================================================================== *)
(** * Part III: main theorems                                             *)
(* ===================================================================== *)

(** ** C1: a non-positive population value *)

Lemma raises_class_unique {A : Type} (res : result A) (c : pyexc) (msg name : string) :
  res = Err (Raise c msg) -> raises res name -> class_name c = name.
Proof.
  intros Hres (e & He & Hname). rewrite Hres in He. injection He as <-. exact Hname.
Qed.

(** C1, as the code behaves.  When a historical population value of the
    selected row is [<= 0] (all eight values finite), nothing is validated:
    the fitted rate is NaN, and the computation stops with Python's
    [ValueError] raised by [int] on the first checkpoint value.  No context
    is returned; the exception is not a [DataError] and its message names
    neither country nor year. *)
Theorem nonpositive_population_raises_ValueError
    (df : list Row) (name : string) (data : Row) (ps : list R) :
  select_row df (resolve_country df name) = Ok data ->
  pop_of data = map Finite ps ->
  Exists (fun p => (p <= 0)%R) ps ->
  prepare_country_context df name =
    Err (Raise ValueError "cannot convert float NaN to integer") /\
  ~ raises (prepare_country_context df name) "DataError".
Proof.
  intros Hrow Hpop Hex.
  assert (Hres : prepare_country_context df name =
                 Err (Raise ValueError "cannot convert float NaN to integer")).
  { unfold prepare_country_context. cbv zeta. rewrite Hrow.
    cbv beta iota delta [bind]. now apply country_forecast_nan with ps. }
  split; [exact Hres|].
  intros Hraise. pose proof (raises_class_unique _ _ _ _ Hres Hraise) as E.
  discriminate E.
Qed.

Lemma faulty_series_has_nonpositive : Exists (fun p => (p <= 0)%R) series_with_negative.
Proof. unfold series_with_negative. right. right. left. lra. Qed.

Lemma nonpositive_population_raises_ValueError_witness :
  prepare_country_context faulty_df "Indonesia" =
    Err (Raise ValueError "cannot convert float NaN to integer") /\
  ~ raises (prepare_country_context faulty_df "Indonesia") "DataError".
Proof.
  apply (nonpositive_population_raises_ValueError faulty_df "Indonesia"
           (sample_row "Indonesia" series_with_negative) series_with_negative).
  - reflexivity.
  - reflexivity.
  - exact faulty_series_has_nonpositive.
Defined.

(** C1 as stated fails: on a data set whose 1990 figure for Indonesia is
    [-1] the computation does not raise a [DataError]. *)
Lemma nonpositive_population_no_DataError :
  Exists (fun p => (p <= 0)%R) series_with_negative /\
  pop_of (sample_row "Indonesia" series_with_negative) = map Finite series_with_negative /\
  ~ raises (prepare_country_context faulty_df "Indonesia") "DataError".
Proof.
  split; [exact faulty_series_has_nonpositive|]. split; [reflexivity|].
  intros Hraise.
  assert (Hres : prepare_country_context faulty_df "Indonesia" =
                 Err (Raise ValueError "cannot convert float NaN to integer")).
  { unfold prepare_country_context. cbv zeta.
    change (select_row faulty_df (resolve_country faulty_df "Indonesia"))
      with (Ok (sample_row "Indonesia" series_with_negative)).
    cbv beta iota delta [bind].
    apply country_forecast_nan with series_with_negative;
      [reflexivity | exact faulty_series_has_nonpositive]. }
  pose proof (raises_class_unique _ _ _ _ Hres Hraise) as E. discriminate E.
Qed.

(** ** C2: the fitted growth rate *)

Lemma spread_two_years (years : list Z) (y1 y2 : Z) :
  In y1 years -> In y2 years -> y1 <> y2 -> (0 < spread (periods years))%R.
Proof.
  intros H1 H2 Hneq.
  apply (spread_pos _ (IZR (y1 - hd 0%Z years)) (IZR (y2 - hd 0%Z years))).
  - unfold periods. now apply (in_map (fun y => IZR (y - hd 0%Z years))).
  - unfold periods. now apply (in_map (fun y => IZR (y - hd 0%Z years))).
  - intros E. apply eq_IZR in E. lia.
Qed.

(** C2.  On a positive series observed at years of which two differ, the
    rate [r] is the slope of the least-squares line through the points
    [(year_i - year_0, ln population_i)]: the line with that slope and the
    matching intercept has the least sum of squared residuals among all
    lines.  Hence, when the series is exactly [a * exp (r0 * t_i)] with
    [a > 0], the fitted rate is [r0]. *)
Theorem growth_rate_is_least_squares_slope
    (years : list Z) (first_year stop_year : Z) (ps : list R) (y1 y2 : Z) :
  List.length ps = List.length years ->
  In y1 years -> In y2 years -> y1 <> y2 ->
  Forall (fun p => (0 < p)%R) ps ->
  exists m,
    growth_models years first_year stop_year (map Finite ps) = Ok m /\
    t m = map (fun y => (y - hd 0%Z years)%Z) years /\
    r m = Finite (ols_slope (periods years) (map ln ps)) /\
    (forall a b : R,
        (sse (periods years) (map ln ps)
             (ols_slope (periods years) (map ln ps))
             (ols_intercept (periods years) (map ln ps))
         <= sse (periods years) (map ln ps) a b)%R) /\
    (forall a r0 : R,
        (0 < a)%R ->
        ps = map (fun x => (a * exp (r0 * x))%R) (periods years) ->
        r m = Finite r0).
Proof.
  intros Hlen H1 H2 Hneq Hpos.
  pose proof (spread_two_years years y1 y2 H1 H2 Hneq) as Hs.
  eexists. split; [now apply growth_models_finite|].
  cbv beta iota delta [t r]. split; [reflexivity|]. split; [reflexivity|]. split.
  - apply ols_minimises; [|exact Hs].
    unfold periods. now rewrite !length_map.
  - intros a r0 Ha Hps. f_equal. rewrite Hps, map_map.
    rewrite (map_ext _ (fun x => (ln a + r0 * x)%R))
      by (intros x; now apply ln_exponential).
    now apply ols_slope_affine.
Qed.

Lemma exp_ln2_times (n : nat) : exp (INR n * ln 2) = (2 ^ n)%R.
Proof.
  induction n as [|n IH].
  - simpl. rewrite Rmult_0_l. apply exp_0.
  - rewrite S_INR, Rmult_plus_distr_r, Rmult_1_l, exp_plus, IH, exp_ln by lra.
    simpl. lra.
Qed.

Lemma doubling_series_exponential :
  doubling_series =
  map (fun x => (100 * exp (ln 2 / 10 * x))%R) (periods doubling_years).
Proof.
  unfold doubling_series, doubling_years, periods. simpl map.
  replace (ln 2 / 10 * 0)%R with (INR 0 * ln 2)%R by (simpl; lra).
  replace (ln 2 / 10 * 10)%R with (INR 1 * ln 2)%R by (simpl; lra).
  replace (ln 2 / 10 * 20)%R with (INR 2 * ln 2)%R by (simpl; lra).
  replace (ln 2 / 10 * 30)%R with (INR 3 * ln 2)%R by (simpl; lra).
  rewrite !exp_ln2_times. repeat f_equal; simpl; lra.
Qed.

Lemma doubling_series_positive : Forall (fun p => (0 < p)%R) doubling_series.
Proof. unfold doubling_series. repeat constructor; lra. Qed.

(** The end-to-end example: populations 100, 200, 400, 800 at years 0, 10,
    20, 30 give the rate [ln 2 / 10]. *)
Lemma growth_rate_is_least_squares_slope_witness :
  exists m,
    growth_models doubling_years 30 80 (map Finite doubling_series) = Ok m /\
    r m = Finite (ln 2 / 10).
Proof.
  destruct (growth_rate_is_least_squares_slope doubling_years 30 80 doubling_series 0 10)
    as (m & Hm & _ & _ & _ & Hexact).
  - reflexivity.
  - simpl. auto.
  - simpl. auto.
  - lia.
  - exact doubling_series_positive.
  - exists m. split; [exact Hm|].
    apply (Hexact 100%R (ln 2 / 10)%R); [lra | exact doubling_series_exponential].
Defined.

(** ** C3: the logistic series *)

(** C3.  For every row the logistic series has the 50 values obtained by
    iterating the Euler step [p <- p + r*p*(1 - p/k)] from the last
    historical value (the 2022 population): the value at index [i] is the
    result of [i + 1] steps, so the first value, which stands at the first
    forecast year 2022, is one step ahead of the last historical value.  The
    step is [p + (r*p) * (1 - p/k)] in float operations, which on finite
    values with [k <> 0] is the real number [p + r*p*(1 - p/k)]. *)
Theorem logistic_series_is_euler_iteration (data : Row) :
  exists m,
    growth_models years 2022 2072 (pop_of data) = Ok m /\
    np_getitem (pop_of data) (-1) = Ok (Population_2022 data) /\
    List.length (future_years m) = 50%nat /\
    List.length (pop_log m) = 50%nat /\
    pop_log m =
      map (fun i => Nat.iter (S i) (logistic_step (r m) (k m)) (Population_2022 data))
          (seq 0 50) /\
    nth_error (future_years m) 0 = Some 2022%Z /\
    nth_error (pop_log m) 0 =
      Some (logistic_step (r m) (k m) (Population_2022 data)) /\
    (forall rate cap p : float64,
        logistic_step rate cap p =
        fadd p (fmul (fmul rate p) (fsub (Finite 1) (fdiv p cap)))) /\
    (forall rr kk p : R,
        kk <> 0%R ->
        logistic_step (Finite rr) (Finite kk) (Finite p) =
        Finite (p + rr * p * (1 - p / kk))).
Proof.
  destruct (growth_models_total 2022 2072 data) as [rate Hm].
  eexists. split; [exact Hm|].
  cbv beta iota delta [future_years pop_log r k].
  split; [reflexivity|]. split; [reflexivity|].
  rewrite logistic_loop_iter.
  change (List.length (arange 2022 2072)) with 50%nat.
  split; [now rewrite length_map, length_seq|].
  split; [reflexivity|]. split; [reflexivity|]. split; [reflexivity|].
  split; [reflexivity|].
  intros rr kk p Hk. now rewrite logistic_step_finite.
Qed.

(** On the sample row the first logistic value is one real Euler step from
    the 2022 figure 275. *)
Lemma logistic_series_is_euler_iteration_witness :
  exists m rr kk,
    growth_models years 2022 2072 (pop_of (sample_row "Indonesia" sample_series)) = Ok m /\
    r m = Finite rr /\ k m = Finite kk /\
    nth_error (pop_log m) 0 = Some (Finite (275 + rr * 275 * (1 - 275 / kk))).
Proof.
  destruct (logistic_series_is_euler_iteration (sample_row "Indonesia" sample_series))
    as (m & Hm & _ & _ & _ & _ & _ & Hfirst & _ & Hreal).
  pose proof (growth_models_positive 2022 2072 sample_series eq_refl
                sample_series_positive) as Hpos.
  change (map Finite sample_series)
    with (pop_of (sample_row "Indonesia" sample_series)) in Hpos.
  rewrite Hpos in Hm. apply Ok_inj in Hm. subst m.
  cbn [r k pop_log] in Hfirst.
  eexists. exists (fitted_rate sample_series), (capacity sample_series).
  split; [exact Hpos|]. cbn [r k pop_log].
  split; [reflexivity|]. split; [reflexivity|].
  rewrite Hfirst.
  change (Population_2022 (sample_row "Indonesia" sample_series)) with (Finite 275).
  rewrite Hreal; [reflexivity|].
  pose proof (capacity_pos sample_series ltac:(discriminate) sample_series_positive). lra.
Defined.

(** ** C4: the exponential series *)

(** C4.  For every row the exponential series has one value for each of the
    50 years 2022..2071, and the value for a year is
    [p0 * exp (r * (year - 1970))], with [p0] the 1970 population: the time
    is counted from the first historical year.  On finite [p0] and [r] the
    float expression is the real number [p0 * exp (r * (year - 1970))]. *)
Theorem exponential_series_is_curve_from_1970 (data : Row) :
  exists m,
    growth_models years 2022 2072 (pop_of data) = Ok m /\
    future_years m = map (fun h => (2022 + Z.of_nat h)%Z) (seq 0 50) /\
    last (future_years m) 0%Z = 2071%Z /\
    p0 m = Population_1970 data /\
    np_getitem years 0 = Ok 1970%Z /\
    pop_future_exp m =
      map (fun year => fmul (p0 m) (np_exp (fmul (r m) (of_int (year - 1970)))))
          (future_years m) /\
    List.length (pop_future_exp m) = 50%nat /\
    (forall (a b : R) (year : Z),
        fmul (Finite a) (np_exp (fmul (Finite b) (of_int (year - 1970)))) =
        Finite (a * exp (b * IZR (year - 1970)))).
Proof.
  destruct (growth_models_total 2022 2072 data) as [rate Hm].
  eexists. split; [exact Hm|].
  cbv beta iota delta [future_years pop_future_exp p0 r].
  split; [reflexivity|]. split; [reflexivity|]. split; [reflexivity|].
  split; [reflexivity|]. split.
  - unfold exp_curve. now rewrite map_map.
  - split; [|reflexivity]. unfold exp_curve. now rewrite !length_map.
Qed.

(** ** C7: the carrying capacity *)

Lemma growth_models_capacity (years : list Z) (first_year stop_year : Z) (ps : list R) :
  ps <> [] -> List.length ps = List.length years ->
  exists m,
    growth_models years first_year stop_year (map Finite ps) = Ok m /\
    k m = Finite (Rmax_list ps * 3) /\
    pop_log m = logistic_loop (r m) (k m) (Finite (last ps 0%R)) (future_years m).
Proof.
  intros Hps Hlen.
  destruct years as [|y0 ys]; [destruct ps; [contradiction | discriminate]|].
  destruct (polyfit_slope_total (map (fun y => (y - y0)%Z) (y0 :: ys))
              (map np_log (map Finite ps))) as [rate Hrate].
  - discriminate.
  - now rewrite !length_map.
  - unfold growth_models. rewrite getitem_0. cbv beta iota delta [bind].
    rewrite getitem_first_finite, Hrate by assumption.
    rewrite np_max_finite, getitem_last_finite by assumption.
    eexists. split; [reflexivity|]. split; reflexivity.
Qed.

(** C7.  On a non-empty finite series the capacity [k] is three times the
    largest historical value: the maximum is one of the values and no value
    exceeds it.  It is computed once, and the logistic loop uses that same
    [k] at every step. *)
Theorem capacity_is_three_times_maximum
    (years : list Z) (first_year stop_year : Z) (ps : list R) :
  ps <> [] -> List.length ps = List.length years ->
  exists (m : models) (biggest : R),
    growth_models years first_year stop_year (map Finite ps) = Ok m /\
    In biggest ps /\
    Forall (fun p => (p <= biggest)%R) ps /\
    k m = Finite (biggest * 3) /\
    pop_log m = logistic_loop (r m) (k m) (Finite (last ps 0%R)) (future_years m).
Proof.
  intros Hps Hlen.
  destruct (growth_models_capacity years first_year stop_year ps Hps Hlen)
    as (m & Hm & Hk & Hloop).
  destruct (Rmax_list_spec ps Hps) as [Hin Hall].
  exists m, (Rmax_list ps). auto.
Qed.

(** The end-to-end example: the populations 100, 200, 400, 800 give
    [k = 2400]. *)
Lemma capacity_is_three_times_maximum_witness :
  exists m,
    growth_models doubling_years 30 80 (map Finite doubling_series) = Ok m /\
    k m = Finite 2400.
Proof.
  destruct (capacity_is_three_times_maximum doubling_years 30 80 doubling_series)
    as (m & biggest & Hm & Hin & Hall & Hk & _).
  - discriminate.
  - reflexivity.
  - exists m. split; [exact Hm|]. rewrite Hk. f_equal.
    unfold doubling_series in Hin, Hall.
    assert (Htop : (800 <= biggest)%R).
    { rewrite Forall_forall in Hall. apply Hall. simpl. auto. }
    simpl in Hin. destruct Hin as [E|[E|[E|[E|[]]]]]; lra.
Defined.

(** ** C8: the logistic invariant *)

(** C8.  For a rate [0 < r <= 1] and a start [0 < p <= k], one Euler step
    does not decrease [p] and keeps it in [(0, k]]; hence every element of
    the logistic series lies in [(0, k]] and the series, preceded by its
    start value, is non-decreasing. *)
Theorem logistic_series_monotone_within_capacity
    (rr kk p : R) (future_years : list Z) :
  (0 < rr <= 1)%R -> within_capacity kk p ->
  logistic_step (Finite rr) (Finite kk) (Finite p) = Finite (euler_step rr kk p) /\
  (p <= euler_step rr kk p)%R /\
  within_capacity kk (euler_step rr kk p) /\
  logistic_loop (Finite rr) (Finite kk) (Finite p) future_years =
    map Finite (euler_series rr kk p (List.length future_years)) /\
  Forall (within_capacity kk) (euler_series rr kk p (List.length future_years)) /\
  Sorted Rle (p :: euler_series rr kk p (List.length future_years)).
Proof.
  intros Hr Hp.
  assert (Hk : kk <> 0%R) by (unfold within_capacity in Hp; lra).
  destruct (euler_step_bounds rr kk p Hr Hp) as [Hgrow Hnext].
  destruct (euler_series_bounds rr kk (List.length future_years) p Hr Hp)
    as [Hall Hsorted].
  split; [now apply logistic_step_finite|].
  split; [exact Hgrow|]. split; [exact Hnext|].
  split; [now apply logistic_loop_finite|]. split; assumption.
Qed.

(** The bound on the rate matters: with [r = 3] a step from the middle of
    the range passes the capacity. *)
Example euler_step_overshoots : (4 < euler_step 3 4 2)%R.
Proof. unfold euler_step. lra. Qed.

(** The logistic step of the end-to-end example, from [p = 800] with
    [k = 2400]: the increment is [r * 800 * (2/3)]. *)
Example euler_step_doubling (rr : R) :
  euler_step rr 2400 800 = (800 + rr * 800 * (2 / 3))%R.
Proof. unfold euler_step. field. Qed.

(** From [p = 800] with [k = 2400] and the rate [1/2] the fifty values of
    the series stay within the capacity and never decrease. *)
Lemma logistic_series_monotone_within_capacity_witness :
  (800 <= euler_step (1 / 2) 2400 800)%R /\
  within_capacity 2400 (euler_step (1 / 2) 2400 800) /\
  Forall (within_capacity 2400) (euler_series (1 / 2) 2400 800 50) /\
  Sorted Rle (800%R :: euler_series (1 / 2) 2400 800 50).
Proof.
  destruct (logistic_series_monotone_within_capacity (1 / 2) 2400 800 (arange 2022 2072))
    as (_ & Hgrow & Hnext & _ & Hall & Hsorted).
  - lra.
  - unfold within_capacity. lra.
  - change (List.length (arange 2022 2072)) with 50%nat in Hall, Hsorted. auto.
Defined.

(** ** C5: the checkpoint table *)

Lemma StronglySorted_filter {A : Type} (lt : A -> A -> Prop) (f : A -> bool) (l : list A) :
  StronglySorted lt l -> StronglySorted lt (filter f l).
Proof.
  induction 1 as [|a l Hl IH Ha]; simpl; [constructor|].
  destruct (f a); [|exact IH]. constructor; [exact IH|].
  rewrite Forall_forall in *. intros x Hx. apply Ha.
  apply filter_In in Hx. tauto.
Qed.

Lemma forecast_points_sorted : StronglySorted Z.lt forecast_points.
Proof. unfold forecast_points. repeat constructor; lia. Qed.

Lemma in_horizon_spec (first_year stop_year y : Z) :
  in_horizon first_year stop_year y = true <-> (first_year <= y <= stop_year - 1)%Z.
Proof. unfold in_horizon. rewrite andb_true_iff, Z.leb_le, Z.ltb_lt. lia. Qed.

Lemma table_of_years (first_year stop_year : Z) (points : list Z) (ps : list R) :
  map row_year (table_of first_year stop_year points ps) =
  filter (in_horizon first_year stop_year) points.
Proof.
  unfold table_of. rewrite map_map. simpl. apply map_id.
Qed.

(** Every row of the table holds the two model values at the offset of its
    year, truncated and formatted. *)
Lemma table_of_values (first_year stop_year : Z) (points : list Z) (ps : list R) :
  (first_year < stop_year)%Z ->
  Forall (fun row =>
            exists e l : R,
              np_getitem (map Finite (exp_forecast first_year stop_year ps))
                      (row_year row - first_year) = Ok (Finite e) /\
              getitem (map Finite (log_forecast first_year stop_year ps))
                      (row_year row - first_year) = Ok (Finite l) /\
              row_exp row = format_commas (Rtrunc e) /\
              row_log row = format_commas (Rtrunc l))
         (table_of first_year stop_year points ps).
Proof.
  intros Hlt. unfold table_of. rewrite Forall_map, Forall_forall.
  intros y Hy. apply filter_In in Hy. destruct Hy as [_ Hy].
  apply in_horizon_spec in Hy.
  eexists. eexists. simpl row_year.
  rewrite !getitem_finite_nth
    by (rewrite ?exp_forecast_len, ?log_forecast_len by assumption; lia).
  repeat split; reflexivity.
Qed.

(** C5.  On a positive series and a horizon [first_year .. stop_year - 1]
    the table is built without error and holds exactly the checkpoint years
    of [2030, 2040, 2050, 2060, 2071] that lie in the horizon, in ascending
    order, each with the two model values at the offset of that year; the
    other checkpoint years are skipped.  For the horizon 2022..2071 all five
    appear. *)
Theorem forecast_table_keeps_checkpoints_in_horizon
    (first_year stop_year : Z) (data : Row) (ps : list R) :
  (first_year < stop_year)%Z ->
  pop_of data = map Finite ps ->
  Forall (fun p => (0 < p)%R) ps ->
  exists (m : models) (table : list forecast_row),
    growth_models years first_year stop_year (pop_of data) = Ok m /\
    build_forecast_table forecast_points (future_years m) (pop_future_exp m) (pop_log m)
      = Ok table /\
    map row_year table = filter (in_horizon first_year stop_year) forecast_points /\
    (forall y : Z,
        In y (map row_year table) <->
        In y forecast_points /\ (first_year <= y <= first_year + len (future_years m) - 1)%Z) /\
    StronglySorted Z.lt (map row_year table) /\
    Forall (fun row =>
              exists e l : R,
                np_getitem (pop_future_exp m) (row_year row - first_year) = Ok (Finite e) /\
                getitem (pop_log m) (row_year row - first_year) = Ok (Finite l) /\
                row_exp row = format_commas (Rtrunc e) /\
                row_log row = format_commas (Rtrunc l)) table /\
    filter (in_horizon 2022 2072) forecast_points = [2030; 2040; 2050; 2060; 2071]%Z.
Proof.
  intros Hlt Hpop Hpos.
  pose proof (pop_of_length data ps Hpop) as Hlen.
  exists {| t := map (fun y => (y - 1970)%Z) years;
            p0 := Finite (hd 0%R ps);
            r := Finite (fitted_rate ps);
            future_years := arange first_year stop_year;
            t_future := map (fun y => (y - 1970)%Z) (arange first_year stop_year);
            pop_future_exp := map Finite (exp_forecast first_year stop_year ps);
            k := Finite (capacity ps);
            pop_log := map Finite (log_forecast first_year stop_year ps) |},
         (table_of first_year stop_year forecast_points ps).
  cbv beta iota delta [future_years pop_future_exp pop_log].
  split; [rewrite Hpop; now apply growth_models_positive|].
  split.
  { apply build_forecast_table_finite;
      [assumption | now apply exp_forecast_len | now apply log_forecast_len]. }
  rewrite table_of_years. split; [reflexivity|]. split.
  { intros y. rewrite filter_In, in_horizon_spec, len_arange by lia.
    split; intros [H1 H2]; split; try assumption; lia. }
  split; [apply StronglySorted_filter, forecast_points_sorted|].
  split; [now apply table_of_values | reflexivity].
Qed.

(** With the horizon of the source, 2022..2071, all five checkpoint years
    are in the table. *)
Lemma forecast_table_keeps_checkpoints_in_horizon_witness :
  exists (m : models) (table : list forecast_row),
    growth_models years 2022 2072 (pop_of (sample_row "Indonesia" sample_series)) = Ok m /\
    build_forecast_table forecast_points (future_years m) (pop_future_exp m) (pop_log m)
      = Ok table /\
    map row_year table = [2030; 2040; 2050; 2060; 2071]%Z.
Proof.
  destruct (forecast_table_keeps_checkpoints_in_horizon 2022 2072
              (sample_row "Indonesia" sample_series) sample_series)
    as (m & table & Hm & Htable & Hyears & _).
  - lia.
  - reflexivity.
  - exact sample_series_positive.
  - exists m, table. repeat split; assumption.
Defined.

(** ** C9: the summary *)

(** Whatever the row, the models that are returned cover the horizon: one
    value of each series for every year of [first_year .. stop_year - 1]. *)
Lemma growth_models_horizon (first_year stop_year : Z) (data : Row) (m : models) :
  growth_models years first_year stop_year (pop_of data) = Ok m ->
  future_years m = arange first_year stop_year /\
  List.length (pop_future_exp m) = Z.to_nat (stop_year - first_year) /\
  List.length (pop_log m) = Z.to_nat (stop_year - first_year).
Proof.
  intros Hm. destruct (growth_models_total first_year stop_year data) as [rate Hrate].
  rewrite Hrate in Hm. apply Ok_inj in Hm. subst m.
  cbn [future_years pop_future_exp pop_log].
  split; [reflexivity|]. split.
  - unfold exp_curve. now rewrite !length_map, arange_length.
  - now rewrite logistic_loop_length, arange_length.
Qed.

(** Lines 78-80 when the table is empty, on any two series whose last
    values are finite. *)
Lemma final_values_last_point (first_year stop_year : Z) (pexp plog : list float64)
    (e l : R) :
  (first_year < stop_year)%Z ->
  np_getitem pexp (-1) = Ok (Finite e) ->
  getitem plog (-1) = Ok (Finite l) ->
  final_values [] (arange first_year stop_year) pexp plog =
  Ok {| final_year := (stop_year - 1)%Z;
        final_exp := format_commas (Rtrunc e);
        final_log := format_commas (Rtrunc l) |}.
Proof.
  intros Hlt He Hl. unfold final_values.
  rewrite getitem_last_Z.
  2:{ intros E. apply (f_equal (@List.length Z)) in E.
      rewrite arange_length in E. simpl in E. lia. }
  rewrite arange_last by assumption.
  cbv beta iota delta [bind]. rewrite He.
  cbv beta iota delta [bind]. rewrite fmt_int_finite.
  cbv beta iota delta [bind]. rewrite Hl.
  cbv beta iota delta [bind]. rewrite fmt_int_finite.
  reflexivity.
Qed.

(** C9.  Let the models, the table, the statistics and the history of a row
    be computed on a non-empty horizon.  If the table is empty and the last
    values of the two computed series are finite, the summary does not fail:
    the final point is the last year of the horizon with the last value of
    each series, truncated by [int] and written with separators.  Otherwise
    the final point is the last row of the table: its year and its two
    texts.  In both cases the computation returns a context whose summary is
    the sentence of lines 82-87 around the year and the two figures of that
    final point.  The figures are those of the series the program computed,
    whatever their values. *)
Theorem summary_cites_last_row_or_last_point
    (first_year stop_year : Z) (name : string) (data : Row) (m : models)
    (table : list forecast_row) (st : stats_t) (history : list (Z * string)) :
  (first_year < stop_year)%Z ->
  growth_models years first_year stop_year (pop_of data) = Ok m ->
  build_forecast_table forecast_points (future_years m) (pop_future_exp m) (pop_log m)
    = Ok table ->
  make_stats data = Ok st ->
  make_population_history years (pop_of data) = Ok history ->
  (table = [] ->
   exists e l : R,
     np_getitem (pop_future_exp m) (-1) = Ok (Finite e) /\
     getitem (pop_log m) (-1) = Ok (Finite l)) ->
  exists (ctx : context) (final : final_point),
    country_forecast years first_year stop_year forecast_points name data = Ok ctx /\
    forecast_table ctx = table /\
    final_values table (future_years m) (pop_future_exp m) (pop_log m) = Ok final /\
    forecast_summary ctx =
      ("Dalam horizon 50 tahun hingga " ++ str (final_year final)
       ++ ", model eksponensial memproyeksikan populasi mencapai sekitar "
       ++ final_exp final
       ++ " jiwa, sedangkan model logistic yang mempertimbangkan kapasitas lingkungan memperkirakan sekitar "
       ++ final_log final
       ++ " jiwa. Perbedaan ini membantu membaca skenario optimistis versus realistis untuk setiap negara.")%string /\
    ((table = [] /\
      np_getitem (future_years m) (-1) = Ok (stop_year - 1)%Z /\
      final_year final = (stop_year - 1)%Z /\
      exists e l : R,
        np_getitem (pop_future_exp m) (-1) = Ok (Finite e) /\
        getitem (pop_log m) (-1) = Ok (Finite l) /\
        final_exp final = format_commas (Rtrunc e) /\
        final_log final = format_commas (Rtrunc l))
     \/
     (exists rows row,
         table = rows ++ [row] /\
         final = {| final_year := row_year row; final_exp := row_exp row;
                    final_log := row_log row |})).
Proof.
  intros Hlt Hm Htable Hst Hhistory Hfinite.
  destruct (growth_models_horizon first_year stop_year data m Hm) as (Hfy & _ & _).
  assert (Hfinal : exists final,
             final_values table (future_years m) (pop_future_exp m) (pop_log m) = Ok final /\
             ((table = [] /\
               np_getitem (future_years m) (-1) = Ok (stop_year - 1)%Z /\
               final_year final = (stop_year - 1)%Z /\
               exists e l : R,
                 np_getitem (pop_future_exp m) (-1) = Ok (Finite e) /\
                 getitem (pop_log m) (-1) = Ok (Finite l) /\
                 final_exp final = format_commas (Rtrunc e) /\
                 final_log final = format_commas (Rtrunc l))
              \/
              (exists rows row,
                  table = rows ++ [row] /\
                  final = {| final_year := row_year row; final_exp := row_exp row;
                             final_log := row_log row |}))).
  { destruct table as [|row0 rows _] using rev_ind.
    - destruct (Hfinite eq_refl) as (e & l & He & Hl).
      eexists. split.
      + rewrite Hfy. apply (final_values_last_point _ _ _ _ e l); assumption.
      + left. split; [reflexivity|]. split.
        { rewrite Hfy, getitem_last_Z.
          - now rewrite arange_last.
          - intros E. apply (f_equal (@List.length Z)) in E.
            rewrite arange_length in E. simpl in E. lia. }
        split; [reflexivity|]. exists e, l. repeat split; assumption.
    - eexists. split; [apply final_values_last_row|].
      right. exists rows, row0. split; reflexivity. }
  destruct Hfinal as (final & Hfinal & Hcases).
  eexists. exists final. split.
  { unfold country_forecast. cbv zeta. rewrite Hm.
    cbv beta iota delta [bind]. rewrite Htable.
    cbv beta iota delta [bind]. rewrite Hfinal.
    cbv beta iota delta [bind]. rewrite Hst.
    cbv beta iota delta [bind]. rewrite Hhistory.
    reflexivity. }
  cbn [forecast_table forecast_summary].
  split; [reflexivity|]. split; [exact Hfinal|]. split; [reflexivity|].
  exact Hcases.
Qed.

(** The degenerate horizon 2022..2025 of the specification: no checkpoint
    year falls in it, the computation returns, and the summary cites 2025
    with the last values of the two series. *)
Lemma summary_cites_last_row_or_last_point_witness :
  exists (ctx : context) (e l : R),
    country_forecast years 2022 2026 forecast_points "Indonesia"
      (sample_row "Indonesia" sample_series) = Ok ctx /\
    forecast_table ctx = [] /\
    e = last (exp_forecast 2022 2026 sample_series) 0%R /\
    l = last (log_forecast 2022 2026 sample_series) 0%R /\
    forecast_summary ctx =
      ("Dalam horizon 50 tahun hingga 2025"
       ++ ", model eksponensial memproyeksikan populasi mencapai sekitar "
       ++ format_commas (Rtrunc e)
       ++ " jiwa, sedangkan model logistic yang mempertimbangkan kapasitas lingkungan memperkirakan sekitar "
       ++ format_commas (Rtrunc l)
       ++ " jiwa. Perbedaan ini membantu membaca skenario optimistis versus realistis untuk setiap negara.")%string.
Proof.
  pose (data := sample_row "Indonesia" sample_series).
  pose (m := {| t := map (fun y => (y - 1970)%Z) years;
                p0 := Finite (hd 0%R sample_series);
                r := Finite (fitted_rate sample_series);
                future_years := arange 2022 2026;
                t_future := map (fun y => (y - 1970)%Z) (arange 2022 2026);
                pop_future_exp := map Finite (exp_forecast 2022 2026 sample_series);
                k := Finite (capacity sample_series);
                pop_log := map Finite (log_forecast 2022 2026 sample_series) |}).
  assert (Hm : growth_models years 2022 2026 (pop_of data) = Ok m).
  { apply (growth_models_positive 2022 2026 sample_series);
      [reflexivity | exact sample_series_positive]. }
  assert (Hne : forall ps : list R, len ps = (2026 - 2022)%Z -> ps <> []).
  { intros ps Hlen ->. discriminate Hlen. }
  assert (He : np_getitem (pop_future_exp m) (-1) =
               Ok (Finite (last (exp_forecast 2022 2026 sample_series) 0%R))).
  { apply getitem_last_finite, Hne, exp_forecast_len. lia. }
  assert (Hl : getitem (pop_log m) (-1) =
               Ok (Finite (last (log_forecast 2022 2026 sample_series) 0%R))).
  { apply getitem_last_finite, Hne, log_forecast_len. lia. }
  destruct (summary_cites_last_row_or_last_point 2022 2026 "Indonesia" data m []
              {| stat_Rank := Rtrunc 4;
                 stat_Capital := "Jakarta";
                 stat_Continent := "Asia";
                 stat_Area := (format_commas (Rtrunc 1904569) ++ " km²")%string;
                 stat_Density := (format_fixed 2 (Finite (1447 / 10)) ++ " people/km²")%string;
                 stat_Growth_Rate := format_fixed 4 (Finite (10064 / 10000));
                 stat_World_Share := (format_fixed 2 (Finite (345 / 100)) ++ "%")%string |}
              (history_of years sample_series))
    as (ctx & final & Hctx & Htable & _ & Hsummary & Hcases).
  - lia.
  - exact Hm.
  - apply (build_forecast_table_finite 2022 2026);
      [lia | now apply exp_forecast_len | now apply log_forecast_len].
  - reflexivity.
  - apply (make_population_history_finite years sample_series).
  - intros _. eexists. eexists. split; [exact He | exact Hl].
  - exists ctx. eexists. eexists. split; [exact Hctx|]. split; [exact Htable|].
    split; [reflexivity|]. split; [reflexivity|].
    rewrite Hsummary.
    destruct Hcases as [(_ & _ & Hyear & e & l & He' & Hl' & Hexp & Hlog)
                       | (rows & row & Hrows & _)].
    + rewrite He in He'. rewrite Hl in Hl'.
      apply Ok_inj in He'. apply Ok_inj in Hl'.
      injection He' as <-. injection Hl' as <-.
      rewrite Hyear, Hexp, Hlog. reflexivity.
    + destruct rows; discriminate Hrows.
Defined.

(** ** C6: an unknown country *)

Lemma resolve_default (df : list Row) : resolve_country df DEFAULT_COUNTRY = DEFAULT_COUNTRY.
Proof. unfold resolve_country. now destruct (known_country df DEFAULT_COUNTRY). Qed.

Lemma resolve_unknown (df : list Row) (name : string) :
  known_country df name = false -> resolve_country df name = DEFAULT_COUNTRY.
Proof. intros Hunknown. unfold resolve_country. now rewrite Hunknown. Qed.

Lemma select_row_known (df : list Row) (name : string) :
  known_country df name = true ->
  exists data, select_row df name = Ok data /\ Country_Territory data = name.
Proof.
  intros Hknown. unfold known_country, countries in Hknown.
  apply existsb_exists in Hknown. destruct Hknown as (c & Hin & Heq).
  apply String.eqb_eq in Heq. subst c.
  apply in_map_iff in Hin. destruct Hin as (row & Hname & Hrow).
  assert (Hfound : In row (filter (fun row => String.eqb (Country_Territory row) name) df)).
  { apply filter_In. split; [exact Hrow|]. now apply String.eqb_eq. }
  unfold select_row.
  destruct (filter _ df) as [|first rest] eqn:Ef; [contradiction|].
  exists first. split; [reflexivity|].
  assert (Hfirst : In first (filter (fun row => String.eqb (Country_Territory row) name) df))
    by (rewrite Ef; now left).
  apply filter_In in Hfirst. now apply String.eqb_eq.
Qed.

Lemma country_forecast_country (ys : list Z) (first_year stop_year : Z) (points : list Z)
    (name : string) (data : Row) (ctx : context) :
  country_forecast ys first_year stop_year points name data = Ok ctx -> country ctx = name.
Proof.
  unfold country_forecast. intros H.
  repeat (apply bind_Ok in H; destruct H as (? & _ & H)).
  injection H as <-. reflexivity.
Qed.

(** The request for the default country returns on the sample data. *)
Lemma sample_default_returns :
  exists ctx, prepare_country_context sample_df DEFAULT_COUNTRY = Ok ctx.
Proof.
  destruct (country_forecast_positive 2022 2072 forecast_points "Indonesia"
              (sample_row "Indonesia" sample_series) sample_series 4 1904569)
    as (final & st & _ & _ & Hctx);
    [lia | reflexivity | exact sample_series_positive | reflexivity | reflexivity |].
  eexists. exact Hctx.
Qed.

(** C6.  A name that is not in the country column is replaced by the
    default country: the result is the result of the request for the default
    country, in every field, so whenever the request for the default country
    returns a context, the request for the unknown name returns that same
    context, and it reports the default name.  No lookup error arises from
    the unknown name: when the default country is in the data, its row is
    selected. *)
Theorem unknown_country_gives_default_output (df : list Row) (name : string) :
  known_country df name = false ->
  prepare_country_context df name = prepare_country_context df DEFAULT_COUNTRY /\
  (forall ctx, prepare_country_context df name = Ok ctx -> country ctx = DEFAULT_COUNTRY) /\
  (known_country df DEFAULT_COUNTRY = true ->
   exists data,
     select_row df (resolve_country df name) = Ok data /\
     Country_Territory data = DEFAULT_COUNTRY) /\
  (forall ctx,
      prepare_country_context df DEFAULT_COUNTRY = Ok ctx ->
      prepare_country_context df name = Ok ctx /\ country ctx = DEFAULT_COUNTRY).
Proof.
  intros Hunknown. pose proof (resolve_unknown df name Hunknown) as Hres.
  assert (Hsame : prepare_country_context df name =
                  prepare_country_context df DEFAULT_COUNTRY).
  { unfold prepare_country_context. cbv zeta. now rewrite Hres, resolve_default. }
  assert (Hcountry : forall ctx,
             prepare_country_context df name = Ok ctx -> country ctx = DEFAULT_COUNTRY).
  { intros ctx. unfold prepare_country_context. cbv zeta. rewrite Hres. intros H.
    apply bind_Ok in H. destruct H as (data & _ & H).
    now apply country_forecast_country in H. }
  split; [exact Hsame|]. split; [exact Hcountry|]. split.
  - intros Hdefault. rewrite Hres. now apply select_row_known.
  - intros ctx Hctx. rewrite <- Hsame in Hctx. split; [exact Hctx | now apply Hcountry].
Qed.

(** The example of the specification: the request for "Nonexistent"
    returns, and what it returns is the context of the request for the
    default country, reported under the name Indonesia. *)
Lemma unknown_country_gives_default_output_witness :
  exists ctx,
    prepare_country_context sample_df "Nonexistent" = Ok ctx /\
    prepare_country_context sample_df DEFAULT_COUNTRY = Ok ctx /\
    country ctx = "Indonesia"%string /\
    exists data,
      select_row sample_df (resolve_country sample_df "Nonexistent") = Ok data /\
      Country_Territory data = "Indonesia"%string.
Proof.
  destruct (unknown_country_gives_default_output sample_df "Nonexistent")
    as (_ & _ & Hrow & Hreturns).
  - reflexivity.
  - destruct sample_default_returns as [ctx Hctx].
    destruct (Hreturns ctx Hctx) as [Hunknown Hcountry].
    exists ctx. split; [exact Hunknown|]. split; [exact Hctx|].
    split; [exact Hcountry|]. apply Hrow. reflexivity.
Defined.

(* ===================================================================== *)
(** * Part IV: further properties of the code                             *)
(* ===================================================================== *)

(** ** The unit of the population figures *)

Lemma Rsum_shift (c : R) (ys : list R) :
  Rsum (map (fun y => c + y)%R ys) = (INR (List.length ys) * c + Rsum ys)%R.
Proof.
  induction ys as [|y ys IH]; [simpl; lra|].
  simpl map. simpl Rsum. rewrite IH.
  change (List.length (y :: ys)) with (S (List.length ys)). rewrite S_INR. lra.
Qed.

Lemma Rsum_cross_shift (c : R) (xs ys : list R) :
  List.length ys = List.length xs ->
  Rsum (zip_with Rmult xs (map (fun y => c + y)%R ys)) =
  (c * Rsum xs + Rsum (zip_with Rmult xs ys))%R.
Proof.
  unfold zip_with. revert ys.
  induction xs as [|x xs IH]; intros [|y ys] Hlen; try discriminate; [simpl; lra|].
  injection Hlen as Hlen. simpl. specialize (IH ys Hlen). simpl in IH.
  rewrite IH. lra.
Qed.

(** Adding a constant to every ordinate leaves the slope unchanged. *)
Lemma ols_slope_shift (c : R) (xs ys : list R) :
  List.length ys = List.length xs ->
  ols_slope xs (map (fun y => c + y)%R ys) = ols_slope xs ys.
Proof.
  intros Hlen. unfold ols_slope.
  rewrite Rsum_shift, Rsum_cross_shift, Hlen by assumption.
  f_equal. ring.
Qed.

Lemma map_ln_scaled (c : R) (ps : list R) :
  (0 < c)%R -> Forall (fun p => (0 < p)%R) ps ->
  map ln (map (Rmult c) ps) = map (fun y => (ln c + y)%R) (map ln ps).
Proof.
  intros Hc. induction 1 as [|p ps Hp _ IH]; [reflexivity|].
  simpl. rewrite IH, ln_mult by assumption. reflexivity.
Qed.

Lemma fitted_rate_scaled (c : R) (ps : list R) :
  (0 < c)%R -> List.length ps = List.length years ->
  Forall (fun p => (0 < p)%R) ps ->
  fitted_rate (map (Rmult c) ps) = fitted_rate ps.
Proof.
  intros Hc Hlen Hpos. unfold fitted_rate.
  rewrite map_ln_scaled by assumption. apply ols_slope_shift.
  unfold periods. now rewrite !length_map.
Qed.

Lemma fold_Rmax_scaled (c : R) (l : list R) (a : R) :
  (0 <= c)%R -> fold_left Rmax (map (Rmult c) l) (c * a)%R = (c * fold_left Rmax l a)%R.
Proof.
  intros Hc. revert a. induction l as [|x l IH]; intros a; [reflexivity|].
  simpl. rewrite RmaxRmult by assumption. apply IH.
Qed.

Lemma capacity_scaled (c : R) (ps : list R) :
  (0 <= c)%R -> capacity (map (Rmult c) ps) = (c * capacity ps)%R.
Proof.
  intros Hc. unfold capacity. destruct ps as [|p ps]; simpl; [lra|].
  rewrite fold_Rmax_scaled by assumption. lra.
Qed.

Lemma hd_scaled (c : R) (ps : list R) : hd 0%R (map (Rmult c) ps) = (c * hd 0 ps)%R.
Proof. destruct ps; simpl; lra. Qed.

Lemma last_scaled (c : R) (ps : list R) : last (map (Rmult c) ps) 0%R = (c * last ps 0)%R.
Proof.
  induction ps as [|p ps IH]; [simpl; lra|].
  destruct ps as [|q ps]; [reflexivity|]. exact IH.
Qed.

Lemma exp_series_scaled (c a b : R) (ts : list Z) :
  exp_series (c * a) b ts = map (Rmult c) (exp_series a b ts).
Proof.
  unfold exp_series. rewrite map_map. apply map_ext. intros tf. ring.
Qed.

Lemma euler_step_scaled (c rr kk p : R) :
  c <> 0%R -> kk <> 0%R ->
  euler_step rr (c * kk) (c * p) = (c * euler_step rr kk p)%R.
Proof. intros Hc Hk. unfold euler_step. field. split; assumption. Qed.

Lemma euler_iter_scaled (c rr kk p : R) (n : nat) :
  c <> 0%R -> kk <> 0%R ->
  Nat.iter n (euler_step rr (c * kk)) (c * p)%R = (c * Nat.iter n (euler_step rr kk) p)%R.
Proof.
  intros Hc Hk. induction n as [|n IH]; [reflexivity|].
  simpl. rewrite IH. now apply euler_step_scaled.
Qed.

Lemma euler_series_scaled (c rr kk p : R) (n : nat) :
  c <> 0%R -> kk <> 0%R ->
  euler_series rr (c * kk) (c * p) n = map (Rmult c) (euler_series rr kk p n).
Proof.
  intros Hc Hk. unfold euler_series. rewrite map_map. apply map_ext.
  intros i. now apply euler_iter_scaled.
Qed.

Lemma scaled_positive (c : R) (ps : list R) :
  (0 < c)%R -> Forall (fun p => (0 < p)%R) ps ->
  Forall (fun p => (0 < p)%R) (map (Rmult c) ps).
Proof.
  intros Hc Hpos. rewrite Forall_map. eapply Forall_impl; [|exact Hpos].
  intros p Hp. simpl. now apply Rmult_lt_0_compat.
Qed.

Lemma map_fmul_finite (c : R) (l : list R) :
  map (fmul (Finite c)) (map Finite l) = map Finite (map (Rmult c) l).
Proof. now rewrite !map_map. Qed.

Lemma eight_values_nonempty (ps : list R) :
  List.length ps = List.length years -> ps <> [].
Proof. intros Hlen ->. discriminate. Qed.

(** X1.  Changing the unit of the population figures by a factor [c > 0]
    (persons to thousands, say) leaves the fitted rate unchanged and
    multiplies the capacity and both forecast series by [c]. *)
Theorem forecast_scales_with_population_unit
    (first_year stop_year : Z) (c : R) (ps : list R) :
  (0 < c)%R -> List.length ps = List.length years ->
  Forall (fun p => (0 < p)%R) ps ->
  exists m m',
    growth_models years first_year stop_year (map Finite ps) = Ok m /\
    growth_models years first_year stop_year (map Finite (map (Rmult c) ps)) = Ok m' /\
    r m' = r m /\
    k m' = fmul (Finite c) (k m) /\
    pop_future_exp m' = map (fmul (Finite c)) (pop_future_exp m) /\
    pop_log m' = map (fmul (Finite c)) (pop_log m).
Proof.
  intros Hc Hlen Hpos.
  pose proof (eight_values_nonempty ps Hlen) as Hne.
  assert (Hk : capacity ps <> 0%R) by (pose proof (capacity_pos ps Hne Hpos); lra).
  eexists. eexists.
  split; [now apply growth_models_positive|].
  split.
  { apply growth_models_positive; [now rewrite length_map | now apply scaled_positive]. }
  cbv beta iota delta [r k pop_future_exp pop_log].
  rewrite !map_fmul_finite.
  split; [now rewrite fitted_rate_scaled|].
  split; [simpl; now rewrite capacity_scaled by lra|].
  split.
  - unfold exp_forecast. now rewrite hd_scaled, fitted_rate_scaled, exp_series_scaled.
  - unfold log_forecast.
    rewrite last_scaled, fitted_rate_scaled, capacity_scaled by (assumption || lra).
    rewrite euler_series_scaled by (assumption || lra). reflexivity.
Qed.

Lemma forecast_scales_with_population_unit_witness :
  exists m m',
    growth_models years 2022 2072 (map Finite sample_series) = Ok m /\
    growth_models years 2022 2072 (map Finite (map (Rmult 1000) sample_series)) = Ok m' /\
    r m' = r m /\
    pop_log m' = map (fmul (Finite 1000)) (pop_log m).
Proof.
  destruct (forecast_scales_with_population_unit 2022 2072 1000 sample_series)
    as (m & m' & Hm & Hm' & Hr & _ & _ & Hlog).
  - lra.
  - reflexivity.
  - exact sample_series_positive.
  - exists m, m'. auto.
Defined.

(** ** The sign of the fitted rate *)

Lemma cross_cons (x y : R) (xs ys : list R) :
  List.length ys = List.length xs ->
  cross (x :: xs) (y :: ys) =
  (cross xs ys + Rsum (zip_with (fun xi yi => (xi - x) * (yi - y))%R xs ys))%R.
Proof.
  intros Hlen.
  assert (Hsum : Rsum (zip_with (fun xi yi => (xi - x) * (yi - y))%R xs ys) =
                 (Rsum (zip_with Rmult xs ys) - x * Rsum ys - y * Rsum xs
                  + INR (List.length xs) * (x * y))%R).
  { clear - Hlen. unfold zip_with. revert ys Hlen.
    induction xs as [|a xs IH]; intros [|b ys] Hlen; try discriminate; [simpl; lra|].
    injection Hlen as Hlen. specialize (IH ys Hlen).
    change (List.length (a :: xs)) with (S (List.length xs)). rewrite S_INR.
    simpl. simpl in IH. rewrite IH. lra. }
  rewrite Hsum. unfold cross.
  change (zip_with Rmult (x :: xs) (y :: ys)) with ((x * y)%R :: zip_with Rmult xs ys).
  change (List.length (x :: xs)) with (S (List.length xs)). rewrite S_INR.
  simpl Rsum. lra.
Qed.

Lemma pair_terms_nonneg (x y : R) (xs ys : list R) :
  Forall (Rle x) xs -> Forall (Rle y) ys ->
  (0 <= Rsum (zip_with (fun xi yi => (xi - x) * (yi - y))%R xs ys))%R.
Proof.
  unfold zip_with. intros Hxs. revert ys.
  induction Hxs as [|a xs Ha _ IH]; intros ys Hys; [simpl; lra|].
  destruct Hys as [|b ys Hb Hys]; [simpl; lra|].
  simpl. specialize (IH ys Hys). simpl in IH.
  assert (0 <= (a - x) * (b - y))%R by (apply Rmult_le_pos; lra). lra.
Qed.

Lemma pair_terms_nonpos (x y : R) (xs ys : list R) :
  Forall (Rle x) xs -> Forall (Rge y) ys ->
  (Rsum (zip_with (fun xi yi => (xi - x) * (yi - y))%R xs ys) <= 0)%R.
Proof.
  unfold zip_with. intros Hxs. revert ys.
  induction Hxs as [|a xs Ha _ IH]; intros ys Hys; [simpl; lra|].
  destruct Hys as [|b ys Hb Hys]; [simpl; lra|].
  simpl. specialize (IH ys Hys). simpl in IH.
  assert (0 <= (a - x) * (y - b))%R by (apply Rmult_le_pos; lra). lra.
Qed.

Lemma cross_nonneg (xs ys : list R) :
  List.length ys = List.length xs ->
  StronglySorted Rle xs -> StronglySorted Rle ys -> (0 <= cross xs ys)%R.
Proof.
  intros Hlen Hxs. revert ys Hlen.
  induction Hxs as [|x xs _ IH Hx]; intros ys Hlen Hys.
  - unfold cross. simpl. lra.
  - destruct Hys as [|y ys Hys Hy]; [discriminate|]. injection Hlen as Hlen.
    rewrite cross_cons by assumption.
    pose proof (IH ys Hlen Hys). pose proof (pair_terms_nonneg x y xs ys Hx Hy). lra.
Qed.

Lemma cross_nonpos (xs ys : list R) :
  List.length ys = List.length xs ->
  StronglySorted Rle xs -> StronglySorted Rge ys -> (cross xs ys <= 0)%R.
Proof.
  intros Hlen Hxs. revert ys Hlen.
  induction Hxs as [|x xs _ IH Hx]; intros ys Hlen Hys.
  - unfold cross. simpl. lra.
  - destruct Hys as [|y ys Hys Hy]; [discriminate|]. injection Hlen as Hlen.
    rewrite cross_cons by assumption.
    pose proof (IH ys Hlen Hys). pose proof (pair_terms_nonpos x y xs ys Hx Hy). lra.
Qed.

Lemma ols_slope_cross (xs ys : list R) : ols_slope xs ys = (cross xs ys / spread xs)%R.
Proof. reflexivity. Qed.

Lemma periods_years_sorted : StronglySorted Rle (periods years).
Proof.
  apply Sorted_StronglySorted; [intros a b c; apply Rle_trans|].
  unfold periods, years. simpl map.
  repeat (apply Sorted_cons;
          [|first [apply HdRel_nil | apply HdRel_cons; apply IZR_le; lia]]).
  apply Sorted_nil.
Qed.

Lemma ln_monotone (x y : R) : (0 < x)%R -> (x <= y)%R -> (ln x <= ln y)%R.
Proof.
  intros Hx [Hlt | ->]; [|lra]. left. now apply ln_increasing.
Qed.

Lemma map_ln_sorted (ps : list R) :
  Forall (fun p => (0 < p)%R) ps ->
  StronglySorted Rle ps -> StronglySorted Rle (map ln ps).
Proof.
  intros Hpos Hs. induction Hs as [|p ps _ IH Hp]; [constructor|].
  inversion Hpos as [|? ? Hp0 Hpos']; subst.
  simpl. constructor; [now apply IH|].
  rewrite Forall_map. eapply Forall_impl; [|exact Hp].
  intros q Hq. now apply ln_monotone.
Qed.

Lemma map_ln_sorted_down (ps : list R) :
  Forall (fun p => (0 < p)%R) ps ->
  StronglySorted Rge ps -> StronglySorted Rge (map ln ps).
Proof.
  intros Hpos Hs. induction Hs as [|p ps _ IH Hp]; [constructor|].
  inversion Hpos as [|? ? Hp0 Hpos']; subst.
  simpl. constructor; [now apply IH|].
  rewrite Forall_map. rewrite Forall_forall in *. intros q Hq.
  apply Rle_ge, ln_monotone; [now apply Hpos' | apply Rge_le; now apply Hp].
Qed.

Lemma fitted_rate_nonneg (ps : list R) :
  List.length ps = List.length years ->
  Forall (fun p => (0 < p)%R) ps ->
  StronglySorted Rle ps -> (0 <= fitted_rate ps)%R.
Proof.
  intros Hlen Hpos Hs. unfold fitted_rate. rewrite ols_slope_cross.
  apply Rmult_le_pos.
  - apply cross_nonneg;
      [unfold periods; now rewrite !length_map
      | exact periods_years_sorted | now apply map_ln_sorted].
  - left. apply Rinv_0_lt_compat, spread_years.
Qed.

Lemma fitted_rate_nonpos (ps : list R) :
  List.length ps = List.length years ->
  Forall (fun p => (0 < p)%R) ps ->
  StronglySorted Rge ps -> (fitted_rate ps <= 0)%R.
Proof.
  intros Hlen Hpos Hs. unfold fitted_rate. rewrite ols_slope_cross.
  assert (Hc : (cross (periods years) (map ln ps) <= 0)%R).
  { apply cross_nonpos;
      [unfold periods; now rewrite !length_map
      | exact periods_years_sorted | now apply map_ln_sorted_down]. }
  pose proof (Rinv_0_lt_compat _ spread_years) as Hinv.
  unfold Rdiv.
  assert (0 <= (- cross (periods years) (map ln ps)) * / spread (periods years))%R
    by (apply Rmult_le_pos; lra).
  lra.
Qed.

(** ** The exponential series along the horizon *)

Lemma Sorted_map_monotone {A B : Type} (RA : A -> A -> Prop) (RB : B -> B -> Prop)
    (f : A -> B) (l : list A) :
  (forall a b, RA a b -> RB (f a) (f b)) -> Sorted RA l -> Sorted RB (map f l).
Proof.
  intros Hf. induction 1 as [|a l _ IH Hhd]; simpl; constructor; [exact IH|].
  destruct Hhd; simpl; constructor. now apply Hf.
Qed.

Lemma seq_consecutive (n s : nat) : Sorted (fun a b => b = S a) (seq s n).
Proof.
  revert s. induction n as [|n IH]; intros s; simpl; constructor; [apply IH|].
  destruct n; simpl; constructor. reflexivity.
Qed.

(** The years of [np.arange] go up one by one. *)
Lemma arange_consecutive (first_year stop_year : Z) :
  Sorted (fun a b => b = (a + 1)%Z) (arange first_year stop_year).
Proof.
  unfold arange.
  apply Sorted_map_monotone with (RA := fun a b => b = S a);
    [|apply seq_consecutive].
  intros a b ->. lia.
Qed.

(** From one year to the next the exponential value is multiplied by
    [exp b]. *)
Lemma exp_forecast_geometric (first_year stop_year : Z) (ps : list R) :
  Sorted (fun u v => v = (u * exp (fitted_rate ps))%R)
         (exp_forecast first_year stop_year ps).
Proof.
  unfold exp_forecast, exp_series. rewrite map_map.
  apply Sorted_map_monotone with (RA := fun a b => b = (a + 1)%Z);
    [|apply arange_consecutive].
  intros a b ->.
  replace (IZR (a + 1 - 1970)) with (IZR (a - 1970) + 1)%R
    by (rewrite <- plus_IZR; f_equal; lia).
  rewrite Rmult_plus_distr_l, exp_plus, Rmult_1_r. ring.
Qed.

Lemma exp_forecast_positive (first_year stop_year : Z) (ps : list R) :
  (0 < hd 0%R ps)%R ->
  Forall (fun v => (0 < v)%R) (exp_forecast first_year stop_year ps).
Proof.
  intros Hp. unfold exp_forecast, exp_series. rewrite Forall_map, Forall_forall.
  intros tf _. apply Rmult_lt_0_compat; [exact Hp | apply exp_pos].
Qed.

Lemma Sorted_weaken {A : Type} (R1 R2 : A -> A -> Prop) (P : A -> Prop) (l : list A) :
  (forall a b, P a -> R1 a b -> R2 a b) -> Forall P l -> Sorted R1 l -> Sorted R2 l.
Proof.
  intros Himp HP Hs. induction Hs as [|a l _ IH Hhd]; constructor.
  - apply IH. now inversion HP.
  - inversion HP; subst. destruct Hhd; constructor. now apply Himp.
Qed.

Lemma hd_positive (ps : list R) :
  ps <> [] -> Forall (fun p => (0 < p)%R) ps -> (0 < hd 0%R ps)%R.
Proof. intros Hne Hpos. destruct ps; [contradiction|]. now inversion Hpos. Qed.

(** ** A bound on the fitted rate *)

Lemma pair_terms_bound (B x y : R) (xs ys : list R) :
  (0 <= B)%R -> List.length ys = List.length xs ->
  Forall (fun xi => (x + 2 <= xi)%R) xs ->
  Forall (fun yi => (- (2 * B) <= yi - y <= 2 * B)%R) ys ->
  (Rabs (Rsum (zip_with (fun xi yi => (xi - x) * (yi - y))%R xs ys))
   <= B * Rsum (map (fun t => (t - x) * (t - x))%R xs))%R.
Proof.
  intros HB Hlen Hxs. revert ys Hlen. unfold zip_with.
  induction Hxs as [|a xs Ha _ IH]; intros [|b ys] Hlen Hys; try discriminate.
  - simpl. rewrite Rabs_R0. lra.
  - injection Hlen as Hlen. inversion Hys as [|? ? Hb Hys']; subst.
    specialize (IH ys Hlen Hys'). simpl. simpl in IH.
    eapply Rle_trans; [apply Rabs_triang|].
    assert (Hterm : (Rabs ((a - x) * (b - y)) <= B * ((a - x) * (a - x)))%R).
    { rewrite Rabs_mult, (Rabs_right (a - x)) by lra.
      assert (Hby : (Rabs (b - y) <= 2 * B)%R) by (apply Rabs_le; lra).
      assert (Hstep : ((a - x) * Rabs (b - y) <= (a - x) * (2 * B))%R)
        by (apply Rmult_le_compat_l; lra).
      assert (0 <= B * (a - x) * (a - x - 2))%R
        by (apply Rmult_le_pos; [apply Rmult_le_pos|]; lra).
      lra. }
    lra.
Qed.

(** When the abscissas are at least 2 apart and the ordinates differ by at
    most [2*B], the cross moment is at most [B] times the spread. *)
Lemma cross_bound (B : R) (xs ys : list R) :
  (0 <= B)%R -> List.length ys = List.length xs ->
  StronglySorted (fun a b => (a + 2 <= b)%R) xs ->
  (forall u v, In u ys -> In v ys -> (u - v <= 2 * B)%R) ->
  (Rabs (cross xs ys) <= B * spread xs)%R.
Proof.
  intros HB Hlen Hxs. revert ys Hlen.
  induction Hxs as [|x xs _ IH Hx]; intros ys Hlen Hband.
  - assert (E : cross [] ys = 0%R) by (unfold cross; simpl; ring).
    rewrite E, Rabs_R0. unfold spread. simpl. lra.
  - destruct ys as [|y ys]; [discriminate|]. injection Hlen as Hlen.
    rewrite cross_cons, spread_cons by assumption.
    assert (Htail : (Rabs (cross xs ys) <= B * spread xs)%R).
    { apply IH; [exact Hlen|]. intros u v Hu Hv. apply Hband; now right. }
    assert (Hhead : (Rabs (Rsum (zip_with (fun xi yi => (xi - x) * (yi - y))%R xs ys))
                     <= B * Rsum (map (fun t => (t - x) * (t - x))%R xs))%R).
    { apply pair_terms_bound; try assumption.
      rewrite Forall_forall. intros v Hv. split.
      - assert (y - v <= 2 * B)%R by (apply Hband; [now left | now right]). lra.
      - apply Hband; [now right | now left]. }
    eapply Rle_trans; [apply Rabs_triang|]. lra.
Qed.

Lemma periods_years_spaced :
  StronglySorted (fun a b => (a + 2 <= b)%R) (periods years).
Proof.
  apply Sorted_StronglySorted; [intros a b c Hab Hbc; lra|].
  unfold periods, years. simpl map.
  repeat (apply Sorted_cons;
          [|first [apply HdRel_nil
                  | apply HdRel_cons; rewrite <- (plus_IZR _ 2); apply IZR_le; lia]]).
  apply Sorted_nil.
Qed.

(** A series whose values are within a factor [exp (2*B)] of each other
    has a fitted rate between [-B] and [B]. *)
Lemma fitted_rate_bound (B : R) (ps : list R) :
  (0 <= B)%R -> List.length ps = List.length years ->
  Forall (fun p => (0 < p)%R) ps ->
  (forall p q, In p ps -> In q ps -> (p <= q * exp (2 * B))%R) ->
  (- B <= fitted_rate ps <= B)%R.
Proof.
  intros HB Hlen Hpos Hband.
  assert (Hc : (Rabs (cross (periods years) (map ln ps))
                <= B * spread (periods years))%R).
  { apply cross_bound; try assumption.
    - unfold periods. now rewrite !length_map.
    - exact periods_years_spaced.
    - intros u v Hu Hv. apply in_map_iff in Hu, Hv.
      destruct Hu as (p & <- & Hp), Hv as (q & <- & Hq).
      rewrite Forall_forall in Hpos.
      pose proof (Hpos p Hp) as Hp0. pose proof (Hpos q Hq) as Hq0.
      assert (Hle : (ln p <= ln (q * exp (2 * B)))%R)
        by (apply ln_monotone; [exact Hp0 | now apply Hband]).
      rewrite ln_mult, ln_exp in Hle by (assumption || apply exp_pos). lra. }
  pose proof spread_years as Hs.
  unfold fitted_rate. rewrite ols_slope_cross.
  set (c := cross (periods years) (map ln ps)) in *.
  set (s := spread (periods years)) in *.
  assert (Hc' : (- (B * s) <= c <= B * s)%R).
  { unfold Rabs in Hc. destruct (Rcase_abs c); lra. }
  assert (Hq : (c = c / s * s)%R) by (field; lra).
  split.
  - apply Rmult_le_reg_r with s; [exact Hs|]. lra.
  - apply Rmult_le_reg_r with s; [exact Hs|]. lra.
Qed.

Lemma exp_ge_1 (x : R) : (0 <= x)%R -> (1 <= exp x)%R.
Proof.
  intros [Hx | <-]; [|rewrite exp_0; lra].
  left. rewrite <- exp_0. now apply exp_increasing.
Qed.

Lemma exp_le_1 (x : R) : (x <= 0)%R -> (exp x <= 1)%R.
Proof.
  intros [Hx | ->]; [|rewrite exp_0; lra].
  left. rewrite <- exp_0. now apply exp_increasing.
Qed.

Lemma sample_series_growing : StronglySorted Rle sample_series.
Proof.
  apply Sorted_StronglySorted; [intros a b c; apply Rle_trans|].
  unfold sample_series.
  repeat (apply Sorted_cons; [|first [apply HdRel_nil | apply HdRel_cons; lra]]).
  apply Sorted_nil.
Qed.

Lemma declining_series_declining : StronglySorted Rge declining_series.
Proof.
  apply Sorted_StronglySorted; [intros a b c; apply Rge_trans|].
  unfold declining_series.
  repeat (apply Sorted_cons; [|first [apply HdRel_nil | apply HdRel_cons; lra]]).
  apply Sorted_nil.
Qed.

Lemma declining_series_positive : Forall (fun p => (0 < p)%R) declining_series.
Proof. unfold declining_series. repeat constructor; lra. Qed.

(** X2.  In exact arithmetic (finite floats as real numbers, operations
    without rounding, overflow or underflow): when the eight historical
    values are positive and never decrease over time, the fitted rate is not
    negative and the exponential forecast never decreases from one year to
    the next. *)
Theorem growing_history_gives_growing_exponential
    (first_year stop_year : Z) (ps : list R) :
  List.length ps = List.length years ->
  Forall (fun p => (0 < p)%R) ps ->
  StronglySorted Rle ps ->
  exists m rr es,
    growth_models years first_year stop_year (map Finite ps) = Ok m /\
    r m = Finite rr /\ (0 <= rr)%R /\
    pop_future_exp m = map Finite es /\
    Sorted Rle es.
Proof.
  intros Hlen Hpos Hgrow.
  pose proof (fitted_rate_nonneg ps Hlen Hpos Hgrow) as Hr.
  eexists. exists (fitted_rate ps), (exp_forecast first_year stop_year ps).
  split; [now apply growth_models_positive|].
  cbv beta iota delta [r pop_future_exp].
  split; [reflexivity|]. split; [exact Hr|]. split; [reflexivity|].
  apply Sorted_weaken with (R1 := fun u v => v = (u * exp (fitted_rate ps))%R)
                           (P := fun v => (0 < v)%R).
  - intros u v Hu ->. pose proof (exp_ge_1 _ Hr). nra.
  - apply exp_forecast_positive, hd_positive;
      [now apply eight_values_nonempty | exact Hpos].
  - apply exp_forecast_geometric.
Qed.

Lemma growing_history_gives_growing_exponential_witness :
  exists m rr es,
    growth_models years 2022 2072 (map Finite sample_series) = Ok m /\
    r m = Finite rr /\ (0 <= rr)%R /\
    pop_future_exp m = map Finite es /\
    Sorted Rle es.
Proof.
  apply (growing_history_gives_growing_exponential 2022 2072 sample_series).
  - reflexivity.
  - exact sample_series_positive.
  - exact sample_series_growing.
Defined.

(** X3.  In exact arithmetic (finite floats as real numbers, operations
    without rounding, overflow or underflow): when the eight historical
    values are positive and never increase over time, the fitted rate is not
    positive and the exponential forecast never increases from one year to
    the next. *)
Theorem declining_history_gives_declining_exponential
    (first_year stop_year : Z) (ps : list R) :
  List.length ps = List.length years ->
  Forall (fun p => (0 < p)%R) ps ->
  StronglySorted Rge ps ->
  exists m rr es,
    growth_models years first_year stop_year (map Finite ps) = Ok m /\
    r m = Finite rr /\ (rr <= 0)%R /\
    pop_future_exp m = map Finite es /\
    Sorted Rge es.
Proof.
  intros Hlen Hpos Hdown.
  pose proof (fitted_rate_nonpos ps Hlen Hpos Hdown) as Hr.
  eexists. exists (fitted_rate ps), (exp_forecast first_year stop_year ps).
  split; [now apply growth_models_positive|].
  cbv beta iota delta [r pop_future_exp].
  split; [reflexivity|]. split; [exact Hr|]. split; [reflexivity|].
  apply Sorted_weaken with (R1 := fun u v => v = (u * exp (fitted_rate ps))%R)
                           (P := fun v => (0 < v)%R).
  - intros u v Hu ->. pose proof (exp_le_1 _ Hr). pose proof (exp_pos (fitted_rate ps)).
    nra.
  - apply exp_forecast_positive, hd_positive;
      [now apply eight_values_nonempty | exact Hpos].
  - apply exp_forecast_geometric.
Qed.

Lemma declining_history_gives_declining_exponential_witness :
  exists m rr es,
    growth_models years 2022 2072 (map Finite declining_series) = Ok m /\
    r m = Finite rr /\ (rr <= 0)%R /\
    pop_future_exp m = map Finite es /\
    Sorted Rge es.
Proof.
  apply (declining_history_gives_declining_exponential 2022 2072 declining_series).
  - reflexivity.
  - exact declining_series_positive.
  - exact declining_series_declining.
Defined.

(** X4.  In exact arithmetic (finite floats as real numbers, operations
    without rounding, overflow or underflow): on a positive series the
    exponential forecast is positive, and each value is the previous one
    times the constant factor [exp r]. *)
Theorem exponential_forecast_is_geometric
    (first_year stop_year : Z) (ps : list R) :
  List.length ps = List.length years ->
  Forall (fun p => (0 < p)%R) ps ->
  exists m rr es,
    growth_models years first_year stop_year (map Finite ps) = Ok m /\
    r m = Finite rr /\
    pop_future_exp m = map Finite es /\
    Forall (fun v => (0 < v)%R) es /\
    Sorted (fun u v => v = (u * exp rr)%R) es.
Proof.
  intros Hlen Hpos.
  eexists. exists (fitted_rate ps), (exp_forecast first_year stop_year ps).
  split; [now apply growth_models_positive|].
  cbv beta iota delta [r pop_future_exp].
  split; [reflexivity|]. split; [reflexivity|]. split.
  - apply exp_forecast_positive, hd_positive;
      [now apply eight_values_nonempty | exact Hpos].
  - apply exp_forecast_geometric.
Qed.

Lemma exponential_forecast_is_geometric_witness :
  exists m rr es,
    growth_models years 2022 2072 (map Finite sample_series) = Ok m /\
    r m = Finite rr /\
    pop_future_exp m = map Finite es /\
    Forall (fun v => (0 < v)%R) es /\
    Sorted (fun u v => v = (u * exp rr)%R) es.
Proof.
  apply (exponential_forecast_is_geometric 2022 2072 sample_series).
  - reflexivity.
  - exact sample_series_positive.
Defined.

(** X5.  In exact arithmetic (finite floats as real numbers, operations
    without rounding, overflow or underflow): when the positive historical
    values are within a factor [exp (2*B)] of each other, the fitted rate
    lies between [-B] and [B] (the observation years are at least two years
    apart). *)
Theorem fitted_rate_is_bounded_by_spread_of_history
    (first_year stop_year : Z) (B : R) (ps : list R) :
  (0 <= B)%R -> List.length ps = List.length years ->
  Forall (fun p => (0 < p)%R) ps ->
  (forall p q, In p ps -> In q ps -> (p <= q * exp (2 * B))%R) ->
  exists m rr,
    growth_models years first_year stop_year (map Finite ps) = Ok m /\
    r m = Finite rr /\ (- B <= rr <= B)%R.
Proof.
  intros HB Hlen Hpos Hband.
  eexists. exists (fitted_rate ps).
  split; [now apply growth_models_positive|].
  split; [reflexivity | now apply fitted_rate_bound].
Qed.

Lemma sample_series_band (p q : R) :
  In p sample_series -> In q sample_series -> (p <= q * exp (2 * 1))%R.
Proof.
  intros Hp Hq.
  assert (H3 : (3 < exp (2 * 1))%R).
  { pose proof (exp_ineq1 (2 * 1) ltac:(lra)). lra. }
  assert (Hrange : forall v, In v sample_series -> (115 <= v <= 275)%R).
  { intros v Hv. unfold sample_series in Hv. simpl in Hv.
    repeat (destruct Hv as [<- | Hv]; [lra|]). contradiction. }
  pose proof (Hrange p Hp). pose proof (Hrange q Hq). nra.
Qed.

Lemma fitted_rate_is_bounded_by_spread_of_history_witness :
  exists m rr,
    growth_models years 2022 2072 (map Finite sample_series) = Ok m /\
    r m = Finite rr /\ (- 1 <= rr <= 1)%R.
Proof.
  apply (fitted_rate_is_bounded_by_spread_of_history 2022 2072 1 sample_series).
  - lra.
  - reflexivity.
  - exact sample_series_positive.
  - exact sample_series_band.
Defined.

(** ** The logistic series on the data of a row *)

Lemma capacity_share (kk p : R) :
  within_capacity kk p -> (0 < p / kk <= 1)%R /\ p = (p / kk * kk)%R.
Proof.
  unfold within_capacity. intros [Hp0 Hpk].
  assert (Hk : (0 < kk)%R) by lra.
  repeat split.
  - apply Rdiv_lt_0_compat; lra.
  - apply Rmult_le_reg_r with kk; [lra|].
    unfold Rdiv. rewrite Rmult_assoc, Rinv_l; lra.
  - field. lra.
Qed.

Lemma euler_step_up (rr kk p : R) :
  (0 <= rr <= 1)%R -> within_capacity kk p ->
  (p <= euler_step rr kk p)%R /\ within_capacity kk (euler_step rr kk p).
Proof.
  intros [Hr0 Hr1] Hp. destruct (capacity_share kk p Hp) as [Hq Hpq].
  unfold within_capacity in *. unfold euler_step.
  set (q := (p / kk)%R) in *.
  assert (Hk : (0 < kk)%R) by lra.
  assert (Hgrow : (0 <= rr * p * (1 - q))%R).
  { apply Rmult_le_pos; [apply Rmult_le_pos|]; lra. }
  assert (Hgap : (0 <= kk * ((1 - q) * (1 - rr * q)))%R).
  { apply Rmult_le_pos; [lra|]. apply Rmult_le_pos; [lra|].
    assert (rr * q <= 1 * 1)%R by (apply Rmult_le_compat; lra). lra. }
  repeat split; try lra.
  rewrite Hpq at 1 2. nra.
Qed.

Lemma euler_step_down (rr kk p : R) :
  (- 1 <= rr <= 0)%R -> within_capacity kk p ->
  (euler_step rr kk p <= p)%R /\ within_capacity kk (euler_step rr kk p).
Proof.
  intros [Hr0 Hr1] Hp. destruct (capacity_share kk p Hp) as [Hq Hpq].
  unfold within_capacity in *. unfold euler_step.
  set (q := (p / kk)%R) in *.
  assert (Hshrink : (0 <= (- rr) * p * (1 - q))%R).
  { apply Rmult_le_pos; [apply Rmult_le_pos|]; lra. }
  (* p' = p (1 + r (1 - q)) >= p q > 0 *)
  assert (Hfloor : (0 <= p * ((1 + rr) * (1 - q)))%R).
  { apply Rmult_le_pos; [lra|]. apply Rmult_le_pos; lra. }
  assert (Hpq0 : (0 < p * q)%R) by (apply Rmult_lt_0_compat; lra).
  repeat split; lra.
Qed.

Lemma euler_series_up (rr kk : R) (n : nat) (p : R) :
  (0 <= rr <= 1)%R -> within_capacity kk p ->
  Forall (within_capacity kk) (euler_series rr kk p n) /\
  Sorted Rle (p :: euler_series rr kk p n).
Proof.
  intros Hr. revert p. induction n as [|n IH]; intros p Hp.
  - split; [constructor | repeat constructor].
  - rewrite euler_series_S.
    destruct (euler_step_up rr kk p Hr Hp) as [Hgrow Hnext].
    destruct (IH _ Hnext) as [Hall Hsorted].
    split; constructor; try assumption. now constructor.
Qed.

Lemma euler_series_down (rr kk : R) (n : nat) (p : R) :
  (- 1 <= rr <= 0)%R -> within_capacity kk p ->
  Forall (within_capacity kk) (euler_series rr kk p n) /\
  Sorted Rge (p :: euler_series rr kk p n).
Proof.
  intros Hr. revert p. induction n as [|n IH]; intros p Hp.
  - split; [constructor | repeat constructor].
  - rewrite euler_series_S.
    destruct (euler_step_down rr kk p Hr Hp) as [Hshrink Hnext].
    destruct (IH _ Hnext) as [Hall Hsorted].
    split; constructor; try assumption. constructor. now apply Rle_ge.
Qed.

Lemma last_in (ps : list R) : ps <> [] -> In (last ps 0%R) ps.
Proof.
  intros Hne. destruct (exists_last Hne) as (l & a & ->).
  rewrite last_last. apply in_or_app. right. now left.
Qed.

(** The loop starts at most a third of the way up to the capacity. *)
Lemma start_within_capacity (ps : list R) :
  ps <> [] -> Forall (fun p => (0 < p)%R) ps ->
  (0 < last ps 0 /\ last ps 0 * 3 <= capacity ps)%R.
Proof.
  intros Hne Hpos. pose proof (last_in ps Hne) as Hin.
  destruct (Rmax_list_spec ps Hne) as [_ Hall].
  rewrite Forall_forall in Hpos, Hall.
  pose proof (Hpos _ Hin). pose proof (Hall _ Hin). unfold capacity. lra.
Qed.

(** X6.  In exact arithmetic (finite floats as real numbers, operations
    without rounding, overflow or underflow): on a positive series whose
    fitted rate lies in [[-1, 1]] the logistic loop starts at no more than a
    third of the capacity, every value of the logistic series lies in
    [(0, k]], and the series moves in one direction only: it never decreases
    when [r >= 0] and never increases when [r <= 0]. *)
Theorem logistic_forecast_is_bounded_and_monotone
    (first_year stop_year : Z) (ps : list R) :
  List.length ps = List.length years ->
  Forall (fun p => (0 < p)%R) ps ->
  (- 1 <= fitted_rate ps <= 1)%R ->
  exists m rr kk ls,
    growth_models years first_year stop_year (map Finite ps) = Ok m /\
    r m = Finite rr /\ k m = Finite kk /\ pop_log m = map Finite ls /\
    (0 < last ps 0 /\ last ps 0 * 3 <= kk)%R /\
    Forall (within_capacity kk) ls /\
    (((0 <= rr)%R /\ Sorted Rle (last ps 0%R :: ls)) \/
     ((rr <= 0)%R /\ Sorted Rge (last ps 0%R :: ls))).
Proof.
  intros Hlen Hpos [Hlo Hhi].
  pose proof (eight_values_nonempty ps Hlen) as Hne.
  pose proof (start_within_capacity ps Hne Hpos) as Hstart.
  assert (Hp : within_capacity (capacity ps) (last ps 0%R)).
  { unfold within_capacity. lra. }
  eexists. exists (fitted_rate ps), (capacity ps), (log_forecast first_year stop_year ps).
  split; [now apply growth_models_positive|].
  cbv beta iota delta [r k pop_log].
  split; [reflexivity|]. split; [reflexivity|]. split; [reflexivity|].
  split; [exact Hstart|].
  unfold log_forecast.
  destruct (Rle_dec 0 (fitted_rate ps)) as [Hsign|Hsign].
  - destruct (euler_series_up (fitted_rate ps) (capacity ps)
                (List.length (arange first_year stop_year)) _ (conj Hsign Hhi) Hp)
      as [Hall Hsorted].
    split; [exact Hall|]. left. split; assumption.
  - assert (Hneg : (fitted_rate ps <= 0)%R) by lra.
    destruct (euler_series_down (fitted_rate ps) (capacity ps)
                (List.length (arange first_year stop_year)) _ (conj Hlo Hneg) Hp)
      as [Hall Hsorted].
    split; [exact Hall|]. right. split; assumption.
Qed.

Lemma logistic_forecast_is_bounded_and_monotone_witness :
  exists m rr kk ls,
    growth_models years 2022 2072 (map Finite sample_series) = Ok m /\
    r m = Finite rr /\ k m = Finite kk /\ pop_log m = map Finite ls /\
    Forall (within_capacity kk) ls.
Proof.
  destruct (logistic_forecast_is_bounded_and_monotone 2022 2072 sample_series)
    as (m & rr & kk & ls & Hm & Hr & Hk & Hlog & _ & Hall & _).
  - reflexivity.
  - exact sample_series_positive.
  - apply fitted_rate_bound;
      [lra | reflexivity | exact sample_series_positive | exact sample_series_band].
  - exists m, rr, kk, ls. auto.
Defined.

(** ** A constant history *)

Lemma constant_is_affine (c : R) (xs : list R) :
  map ln (map (fun _ => c) xs) = map (fun x => (ln c + 0 * x)%R) xs.
Proof. rewrite map_map. apply map_ext. intros x. ring. Qed.

Lemma euler_step_zero_rate (kk p : R) : euler_step 0 kk p = p.
Proof. unfold euler_step. unfold Rdiv. ring. Qed.

Lemma euler_iter_zero_rate (kk p : R) (n : nat) : Nat.iter n (euler_step 0 kk) p = p.
Proof.
  induction n as [|n IH]; [reflexivity|]. simpl. rewrite IH. apply euler_step_zero_rate.
Qed.

Lemma Rmax_list_constant (c : R) (n : nat) : Rmax_list (repeat c (S n)) = c.
Proof.
  simpl. induction n as [|n IH]; [reflexivity|].
  simpl. rewrite Rmax_left by lra. exact IH.
Qed.

(** X7.  In exact arithmetic (finite floats as real numbers, operations
    without rounding, overflow or underflow): when the eight historical
    values are all the same positive number [c], the fitted rate is 0, the
    capacity is [3*c], and both forecast series are constantly [c] over the
    whole horizon. *)
Theorem constant_history_gives_constant_forecasts
    (first_year stop_year : Z) (c : R) :
  (0 < c)%R ->
  exists m,
    growth_models years first_year stop_year (map Finite (repeat c 8)) = Ok m /\
    r m = Finite 0 /\
    k m = Finite (c * 3) /\
    pop_future_exp m = map (fun _ => Finite c) (future_years m) /\
    pop_log m = map (fun _ => Finite c) (future_years m).
Proof.
  intros Hc.
  assert (Hpos : Forall (fun p => (0 < p)%R) (repeat c 8)).
  { apply Forall_forall. intros p Hp. apply repeat_spec in Hp. now subst. }
  assert (Hrate : fitted_rate (repeat c 8) = 0%R).
  { unfold fitted_rate.
    replace (repeat c 8) with (map (fun _ : R => c) (periods years)) by reflexivity.
    rewrite constant_is_affine. apply ols_slope_affine, spread_years. }
  eexists. split; [apply growth_models_positive; [reflexivity | exact Hpos]|].
  cbv beta iota delta [r k pop_future_exp pop_log future_years].
  split; [now rewrite Hrate|].
  split; [unfold capacity; now rewrite (Rmax_list_constant c 7)|].
  split.
  - unfold exp_forecast, exp_series. rewrite Hrate, !map_map.
    apply map_ext. intros y. f_equal. simpl hd. rewrite Rmult_0_l, exp_0. ring.
  - unfold log_forecast, euler_series. rewrite Hrate, map_map.
    rewrite (map_ext _ (fun _ : nat => Finite c)).
    + rewrite !map_const. now rewrite length_seq.
    + intros i. f_equal. apply (euler_iter_zero_rate _ _ (S i)).
Qed.

Lemma constant_history_gives_constant_forecasts_witness :
  exists m,
    growth_models years 2022 2072 (map Finite constant_series) = Ok m /\
    r m = Finite 0 /\
    k m = Finite (50 * 3).
Proof.
  destruct (constant_history_gives_constant_forecasts 2022 2072 50)
    as (m & Hm & Hr & Hk & _).
  - lra.
  - exists m. auto.
Defined.

(** ** Missing cells and other failures *)

(** Lines 37-51 on any row, with the fit left as the one step that is not
    evaluated. *)
Lemma growth_models_unfold (first_year stop_year : Z) (data : Row) :
  growth_models years first_year stop_year (pop_of data) =
  bind (polyfit_slope (map (fun y => (y - 1970)%Z) years) (map np_log (pop_of data)))
       (fun rate =>
          Ok {| t := map (fun y => (y - 1970)%Z) years;
                p0 := Population_1970 data;
                r := rate;
                future_years := arange first_year stop_year;
                t_future := map (fun y => (y - 1970)%Z) (arange first_year stop_year);
                pop_future_exp :=
                  exp_curve (Population_1970 data) rate
                    (map (fun y => (y - 1970)%Z) (arange first_year stop_year));
                k := fmul (fold_left fmax (tl (pop_of data)) (Population_1970 data))
                          (Finite 3);
                pop_log :=
                  logistic_loop rate
                    (fmul (fold_left fmax (tl (pop_of data)) (Population_1970 data))
                          (Finite 3))
                    (Population_2022 data) (arange first_year stop_year) |}).
Proof.
  unfold growth_models.
  change (np_getitem years 0) with (Ok 1970%Z : result Z).
  change (np_getitem (pop_of data) 0) with (Ok (Population_1970 data)).
  change (np_getitem (pop_of data) (-1)) with (Ok (Population_2022 data)).
  change (np_max (pop_of data))
    with (Ok (fold_left fmax (tl (pop_of data)) (Population_1970 data))).
  cbv beta iota delta [bind].
  destruct (polyfit_slope _ _); reflexivity.
Qed.

Lemma np_log_keeps_below_pinf (pop : list float64) :
  Forall below_pinf pop -> Forall below_pinf (map np_log pop).
Proof.
  induction 1 as [|a pop Ha _ IH]; simpl; constructor; [|exact IH].
  destruct a; try discriminate; [apply np_log_below_pinf | now elim Ha].
Qed.

Lemma np_log_of_nan (pop : list float64) :
  In NaN pop -> Exists nan_or_ninf (map np_log pop).
Proof.
  intros Hin. apply Exists_exists. exists NaN. split; [|now left].
  change NaN with (np_log NaN). now apply in_map.
Qed.

(** X8.  A missing population cell, which pandas reads as NaN, has the
    effect of a non-positive value: when no value of the row is [+inf] and
    one is NaN, the fitted rate is NaN and the request ends with the
    [ValueError] of [int] on NaN. *)
Theorem missing_population_raises_ValueError (name : string) (data : Row) :
  Forall below_pinf (pop_of data) ->
  In NaN (pop_of data) ->
  (exists m, growth_models years 2022 2072 (pop_of data) = Ok m /\ r m = NaN) /\
  country_forecast years 2022 2072 forecast_points name data =
    Err (Raise ValueError "cannot convert float NaN to integer").
Proof.
  intros Hbelow Hnan.
  assert (Hfit : polyfit_slope (map (fun y => (y - 1970)%Z) years)
                   (map np_log (pop_of data)) = Ok NaN).
  { apply polyfit_slope_nan.
    - discriminate.
    - reflexivity.
    - unfold years. simpl. repeat constructor; lia.
    - now apply np_log_keeps_below_pinf.
    - now apply np_log_of_nan. }
  pose proof (growth_models_unfold 2022 2072 data) as Hm.
  rewrite Hfit in Hm. cbv beta iota delta [bind] in Hm.
  split; [eexists; split; [exact Hm | reflexivity]|].
  unfold country_forecast. rewrite Hm. cbv beta iota delta [bind].
  cbv beta iota delta [future_years pop_future_exp pop_log].
  rewrite exp_curve_nan, build_forecast_table_nan. reflexivity.
Qed.

Lemma missing_population_raises_ValueError_witness :
  country_forecast years 2022 2072 forecast_points "Indonesia"
    (row_of_floats "Indonesia"
       [Finite 115; Finite 148; NaN; Finite 214; Finite 244; Finite 259;
        Finite 271; Finite 275]) =
  Err (Raise ValueError "cannot convert float NaN to integer").
Proof.
  apply (missing_population_raises_ValueError "Indonesia").
  - unfold pop_of, row_of_floats. simpl. repeat constructor; discriminate.
  - unfold pop_of, row_of_floats. simpl. auto.
Defined.

(** X9.  The forecasts do not save a request from a bad attribute cell: on
    a positive series and a non-empty horizon, a NaN in the rank, or a
    finite rank with a NaN area, ends the request with [ValueError], raised
    by [int] while the statistics are built. *)
Theorem missing_rank_or_area_raises_ValueError
    (first_year stop_year : Z) (name : string) (data : Row) (ps : list R) :
  (first_year < stop_year)%Z ->
  pop_of data = map Finite ps ->
  Forall (fun p => (0 < p)%R) ps ->
  Rank data = NaN \/ ((exists x, Rank data = Finite x) /\ Area data = NaN) ->
  make_stats data = Err (Raise ValueError "cannot convert float NaN to integer") /\
  country_forecast years first_year stop_year forecast_points name data =
    Err (Raise ValueError "cannot convert float NaN to integer").
Proof.
  intros Hlt Hpop Hpos Hbad.
  assert (Hstats : make_stats data =
                   Err (Raise ValueError "cannot convert float NaN to integer")).
  { unfold make_stats. destruct Hbad as [-> | [[x ->] ->]]; reflexivity. }
  split; [exact Hstats|].
  pose proof (pop_of_length data ps Hpop) as Hlen.
  destruct (final_values_total first_year stop_year
              (exp_forecast first_year stop_year ps)
              (log_forecast first_year stop_year ps)
              (table_of first_year stop_year forecast_points ps) Hlt
              (exp_forecast_len _ _ _ Hlt) (log_forecast_len _ _ _ Hlt))
    as [final Hfinal].
  unfold country_forecast.
  rewrite Hpop, growth_models_positive by assumption.
  cbv beta iota delta [bind future_years pop_future_exp pop_log r].
  rewrite build_forecast_table_finite
    by (assumption || now apply exp_forecast_len || now apply log_forecast_len).
  fold (table_of first_year stop_year forecast_points ps).
  rewrite Hfinal, Hstats. reflexivity.
Qed.

Lemma missing_rank_or_area_raises_ValueError_witness :
  country_forecast years 2022 2072 forecast_points "Indonesia"
    {| Country_Territory := "Indonesia"; Rank := Finite 4; Capital := "Jakarta";
       Continent := "Asia"; Area := NaN; Density := Finite 144;
       Growth_Rate := Finite 1; World_Population_Percentage := Finite 3;
       Population_1970 := Finite 115; Population_1980 := Finite 148;
       Population_1990 := Finite 182; Population_2000 := Finite 214;
       Population_2010 := Finite 244; Population_2015 := Finite 259;
       Population_2020 := Finite 271; Population_2022 := Finite 275 |} =
  Err (Raise ValueError "cannot convert float NaN to integer").
Proof.
  apply (missing_rank_or_area_raises_ValueError 2022 2072 "Indonesia" _ sample_series).
  - lia.
  - reflexivity.
  - exact sample_series_positive.
  - right. split; [now exists 4%R | reflexivity].
Defined.

(** ** Looking the country up *)

Lemma select_row_unknown (df : list Row) (name : string) :
  known_country df name = false ->
  select_row df name = Err (Raise IndexError "single positional indexer is out-of-bounds").
Proof.
  intros Hunknown. unfold select_row.
  assert (Hempty : filter (fun row => String.eqb (Country_Territory row) name) df = []).
  { unfold known_country, countries in Hunknown.
    induction df as [|row df IH]; [reflexivity|].
    simpl in Hunknown. apply orb_false_iff in Hunknown. destruct Hunknown as [Hrow Hrest].
    simpl. rewrite String.eqb_sym, Hrow. now apply IH. }
  now rewrite Hempty.
Qed.

(** X10.  When the default country itself is not in the data, every request
    for a name that is not in the data ends with pandas' [IndexError]: the
    substitution of the default does not protect the lookup. *)
Theorem missing_default_country_raises_IndexError (df : list Row) (name : string) :
  known_country df DEFAULT_COUNTRY = false ->
  known_country df name = false ->
  prepare_country_context df name =
    Err (Raise IndexError "single positional indexer is out-of-bounds").
Proof.
  intros Hdefault Hunknown. unfold prepare_country_context. cbv zeta.
  rewrite (resolve_unknown df name Hunknown).
  now rewrite (select_row_unknown df DEFAULT_COUNTRY Hdefault).
Qed.

Lemma missing_default_country_raises_IndexError_witness :
  prepare_country_context [sample_row "Malaysia" sample_series] "Atlantis" =
    Err (Raise IndexError "single positional indexer is out-of-bounds") /\
  prepare_country_context [] DEFAULT_COUNTRY =
    Err (Raise IndexError "single positional indexer is out-of-bounds").
Proof.
  split; apply missing_default_country_raises_IndexError; reflexivity.
Defined.

Lemma select_row_split (before after : list Row) (data : Row) (name : string) :
  Forall (fun row => Country_Territory row <> name) before ->
  Country_Territory data = name ->
  select_row (before ++ data :: after) name = Ok data.
Proof.
  intros Hbefore Hname. unfold select_row.
  induction Hbefore as [|row before Hrow _ IH]; simpl.
  - rewrite Hname, String.eqb_refl. reflexivity.
  - apply String.eqb_neq in Hrow. rewrite Hrow. exact IH.
Qed.

Lemma known_country_split (before after : list Row) (data : Row) :
  known_country (before ++ data :: after) (Country_Territory data) = true.
Proof.
  unfold known_country, countries. apply existsb_exists.
  exists (Country_Territory data). split; [|apply String.eqb_refl].
  apply in_map, in_or_app. right. now left.
Qed.

Lemma resolve_known (df : list Row) (name : string) :
  known_country df name = true -> resolve_country df name = name.
Proof. intros Hknown. unfold resolve_country. now rewrite Hknown. Qed.

(** X11.  A name that is in the data is served under its own name from the
    first row that carries it: rows further down, with the same name or
    not, are never read, and a returned context reports the requested
    name. *)
Theorem known_country_uses_its_first_row
    (before after : list Row) (data : Row) (name : string) :
  Forall (fun row => Country_Territory row <> name) before ->
  Country_Territory data = name ->
  prepare_country_context (before ++ data :: after) name =
    country_forecast years 2022 2072 forecast_points name data /\
  (forall ctx,
      prepare_country_context (before ++ data :: after) name = Ok ctx ->
      country ctx = name).
Proof.
  intros Hbefore Hname.
  assert (Hrun : prepare_country_context (before ++ data :: after) name =
                 country_forecast years 2022 2072 forecast_points name data).
  { unfold prepare_country_context. cbv zeta.
    rewrite resolve_known by (subst name; apply known_country_split).
    now rewrite select_row_split. }
  split; [exact Hrun|].
  intros ctx Hctx. rewrite Hrun in Hctx. now apply country_forecast_country in Hctx.
Qed.

Lemma known_country_uses_its_first_row_witness :
  prepare_country_context
    [sample_row "Malaysia" sample_series; sample_row "Indonesia" sample_series;
     sample_row "Indonesia" declining_series] "Indonesia" =
  country_forecast years 2022 2072 forecast_points "Indonesia"
    (sample_row "Indonesia" sample_series).
Proof.
  apply (known_country_uses_its_first_row
           [sample_row "Malaysia" sample_series]
           [sample_row "Indonesia" declining_series]
           (sample_row "Indonesia" sample_series) "Indonesia").
  - constructor; [discriminate | constructor].
  - reflexivity.
Defined.

(** ** The shape of a returned context *)

Lemma table_body_inv (first_year stop_year : Z) (pexp plog : list float64)
    (acc acc' : list forecast_row) (y : Z) :
  (first_year < stop_year)%Z ->
  table_body (arange first_year stop_year) pexp plog acc y = Ok acc' ->
  (in_horizon first_year stop_year y = false /\ acc' = acc) \/
  (in_horizon first_year stop_year y = true /\
   exists row, acc' = acc ++ [row] /\ row_year row = y).
Proof.
  intros Hlt. unfold table_body. rewrite getitem_arange_0 by assumption.
  cbv beta iota delta [bind]. unfold in_horizon.
  destruct (Z.ltb_spec y first_year) as [Hbefore|Hfrom].
  { intros H. injection H as <-. left. split; [|reflexivity].
    destruct (Z.leb_spec first_year y); [lia | reflexivity]. }
  destruct (Z.leb_spec first_year y) as [_|]; [|lia].
  rewrite len_arange by lia. rewrite Z.geb_leb.
  destruct (Z.leb_spec (stop_year - first_year) (y - first_year)) as [Hafter|Hin].
  { intros H. injection H as <-. left. split; [|reflexivity].
    destruct (Z.ltb_spec y stop_year); [lia | reflexivity]. }
  destruct (Z.ltb_spec y stop_year) as [_|]; [|lia].
  intros H. right. split; [reflexivity|].
  destruct (np_getitem pexp (y - first_year)) as [e|]; [|discriminate].
  destruct (fmt_int e) as [exp_text|]; [|discriminate].
  destruct (getitem plog (y - first_year)) as [l|]; [|discriminate].
  destruct (fmt_int l) as [log_text|]; [|discriminate].
  injection H as <-. eexists. split; reflexivity.
Qed.

Lemma build_table_years (first_year stop_year : Z) (pexp plog : list float64)
    (points : list Z) (acc table : list forecast_row) :
  (first_year < stop_year)%Z ->
  foldM (table_body (arange first_year stop_year) pexp plog) points acc = Ok table ->
  map row_year table =
  map row_year acc ++ filter (in_horizon first_year stop_year) points.
Proof.
  intros Hlt. revert acc. induction points as [|y points IH]; intros acc; simpl.
  - intros H. injection H as <-. now rewrite app_nil_r.
  - intros H. apply bind_Ok in H. destruct H as (acc' & Hbody & Hrest).
    apply IH in Hrest. rewrite Hrest.
    destruct (table_body_inv _ _ _ _ _ _ _ Hlt Hbody)
      as [[-> ->] | [-> (row & -> & Hrow)]]; [reflexivity|].
    rewrite map_app, <- app_assoc. simpl. now rewrite Hrow.
Qed.

Lemma mapM_history_years (l : list (Z * float64)) (h : list (Z * string)) :
  mapM history_entry l = Ok h -> map fst h = map fst l.
Proof.
  revert h. induction l as [|[y v] l IH]; intros h; simpl.
  - intros H. now injection H as <-.
  - unfold history_entry at 1. simpl.
    destruct (fmt_int v) as [text|]; [|discriminate]. simpl.
    destruct (mapM history_entry l) as [h'|]; [|discriminate]. simpl.
    intros H. injection H as <-. simpl. f_equal. now apply IH.
Qed.

Lemma combine_first {A B : Type} (l1 : list A) (l2 : list B) :
  List.length l1 = List.length l2 -> map fst (combine l1 l2) = l1.
Proof.
  revert l2. induction l1 as [|a l1 IH]; intros [|b l2] Hlen; try discriminate;
    [reflexivity|].
  simpl. f_equal. apply IH. now injection Hlen.
Qed.

Lemma history_years (pop : list float64) :
  List.length pop = List.length years ->
  map fst (combine (rev years) (rev pop)) = rev years.
Proof.
  intros Hlen. apply combine_first. now rewrite !length_rev.
Qed.

Lemma growth_models_shape (data : Row) (m : models) :
  growth_models years 2022 2072 (pop_of data) = Ok m ->
  future_years m = arange 2022 2072 /\
  List.length (pop_future_exp m) = 50%nat /\
  List.length (pop_log m) = 50%nat.
Proof.
  intros Hm. destruct (growth_models_total 2022 2072 data) as [rate Hrate].
  rewrite Hrate in Hm. apply Ok_inj in Hm. subst m.
  cbn [future_years pop_future_exp pop_log].
  split; [reflexivity|]. split.
  - unfold exp_curve. now rewrite !length_map.
  - now rewrite logistic_loop_length.
Qed.

(** X12.  Whatever the data, a context that is returned has the five
    checkpoint years 2030, 2040, 2050, 2060, 2071 in its table, the eight
    observation years from 2022 down to 1970 in its history, and a summary
    filled from the last table row, the one of 2071: with the horizon of the
    source the fallback of lines 78-80 is never taken.  The chart is given
    lines whose two coordinate lists have equal lengths. *)
Theorem returned_context_has_fixed_shape (df : list Row) (name : string) (ctx : context) :
  prepare_country_context df name = Ok ctx ->
  country ctx = resolve_country df name /\
  map row_year (forecast_table ctx) = [2030; 2040; 2050; 2060; 2071]%Z /\
  map fst (population_history ctx) =
    [2022; 2020; 2015; 2010; 2000; 1990; 1980; 1970]%Z /\
  (exists rows row,
      forecast_table ctx = rows ++ [row] /\ row_year row = 2071%Z /\
      forecast_summary ctx =
        summary_text {| final_year := 2071; final_exp := row_exp row;
                        final_log := row_log row |}) /\
  List.length (fst (data_historis (chart ctx))) = 8%nat /\
  List.length (snd (data_historis (chart ctx))) = 8%nat /\
  List.length (fst (model_eksponensial (chart ctx))) = 50%nat /\
  List.length (snd (model_eksponensial (chart ctx))) = 50%nat /\
  List.length (fst (model_logistic (chart ctx))) = 50%nat /\
  List.length (snd (model_logistic (chart ctx))) = 50%nat.
Proof.
  unfold prepare_country_context. cbv zeta. intros H.
  apply bind_Ok in H. destruct H as (data & _ & H).
  unfold country_forecast in H. cbv zeta in H.
  apply bind_Ok in H. destruct H as (m & Hm & H).
  apply bind_Ok in H. destruct H as (table & Htable & H).
  apply bind_Ok in H. destruct H as (final & Hfinal & H).
  apply bind_Ok in H. destruct H as (st & _ & H).
  apply bind_Ok in H. destruct H as (history & Hhistory & H).
  destruct (growth_models_shape data m Hm) as (Hfy & Hexp_len & Hlog_len).
  rewrite Hfy in Htable, Hfinal.
  assert (Hyears : map row_year table = [2030; 2040; 2050; 2060; 2071]%Z).
  { unfold build_forecast_table in Htable.
    apply build_table_years in Htable; [exact Htable | lia]. }
  assert (Hlast : exists rows row,
             table = rows ++ [row] /\ row_year row = 2071%Z /\
             final = {| final_year := 2071; final_exp := row_exp row;
                        final_log := row_log row |}).
  { destruct table as [|row0 rows] using rev_ind; [discriminate|].
    exists rows, row0.
    assert (Hrow : row_year row0 = 2071%Z).
    { rewrite map_app in Hyears. simpl in Hyears.
      apply (f_equal (fun l => last l 0%Z)) in Hyears.
      rewrite last_last in Hyears. exact Hyears. }
    rewrite final_values_last_row in Hfinal. apply Ok_inj in Hfinal. subst final.
    rewrite Hrow. repeat split. }
  assert (Hhist : map fst history = [2022; 2020; 2015; 2010; 2000; 1990; 1980; 1970]%Z).
  { apply mapM_history_years in Hhistory. rewrite Hhistory.
    now rewrite history_years. }
  apply Ok_inj in H. subst ctx.
  cbn [country forecast_table population_history forecast_summary chart].
  split; [reflexivity|]. split; [exact Hyears|]. split; [exact Hhist|].
  split.
  { destruct Hlast as (rows & row & -> & Hrow & ->). exists rows, row. auto. }
  unfold build_chart. cbn [data_historis model_eksponensial model_logistic fst snd].
  rewrite Hfy, Hexp_len, Hlog_len. repeat split.
Qed.

Lemma sample_request_context :
  exists ctx, prepare_country_context sample_df "Indonesia" = Ok ctx.
Proof.
  destruct (country_forecast_positive 2022 2072 forecast_points "Indonesia"
              (sample_row "Indonesia" sample_series) sample_series 4 1904569)
    as (final & st & _ & _ & Hctx);
    [lia | reflexivity | exact sample_series_positive | reflexivity | reflexivity |].
  eexists. exact Hctx.
Qed.

Lemma returned_context_has_fixed_shape_witness :
  exists ctx,
    prepare_country_context sample_df "Indonesia" = Ok ctx /\
    map row_year (forecast_table ctx) = [2030; 2040; 2050; 2060; 2071]%Z /\
    map fst (population_history ctx) =
      [2022; 2020; 2015; 2010; 2000; 1990; 1980; 1970]%Z.
Proof.
  destruct sample_request_context as [ctx Hctx].
  destruct (returned_context_has_fixed_shape sample_df "Indonesia" ctx Hctx)
    as (_ & Htable & Hhistory & _).
  exists ctx. auto.
Defined.

(** ** The population history *)

Lemma Rtrunc_IZR (z : Z) : Rtrunc (IZR z) = z.
Proof.
  destruct (Z_lt_le_dec z 0) as [Hneg|Hpos].
  - apply Rtrunc_between_neg.
    + split; [lra | apply (IZR_le z 0); lia].
    + lra.
    + apply (IZR_lt z 0). exact Hneg.
  - apply Rtrunc_between; [split; [apply (IZR_le 0 z); exact Hpos | lra] | lra].
Qed.

Lemma combine_rev {A B : Type} (l1 : list A) (l2 : list B) :
  List.length l1 = List.length l2 ->
  combine (rev l1) (rev l2) = rev (combine l1 l2).
Proof.
  revert l2. induction l1 as [|a l1 IH]; intros [|b l2] Hlen; try discriminate;
    [reflexivity|].
  injection Hlen as Hlen. simpl.
  rewrite <- IH by assumption.
  assert (Hrev : List.length (rev l1) = List.length (rev l2))
    by now rewrite !length_rev.
  clear IH. revert Hrev. generalize (rev l1) (rev l2). clear.
  intros l1. induction l1 as [|x l1 IH]; intros [|y l2] Hlen; try discriminate;
    [reflexivity|].
  simpl. f_equal. apply IH. now injection Hlen.
Qed.

(** X13.  On eight whole-number population figures of absolute value at
    most 2^53 (the integers a float64 holds exactly) the history is the list
    of the eight observation years with their own figures, written with
    thousands separators and unchanged in value, newest year first: each
    year stays paired with the figure of that year when both lists are
    reversed. *)
Theorem history_pairs_each_year_with_its_figure (zs : list Z) :
  List.length zs = List.length years ->
  Forall (fun z => (Z.abs z <= 2 ^ 53)%Z) zs ->
  make_population_history years (map of_int zs) =
  Ok (rev (map (fun yz => (fst yz, format_commas (snd yz))) (combine years zs))).
Proof.
  intros Hlen _. unfold of_int. rewrite <- (map_map IZR Finite).
  rewrite make_population_history_finite. f_equal. unfold history_of.
  rewrite combine_rev by now rewrite length_map.
  rewrite map_rev. f_equal.
  clear Hlen. generalize years. intros ys. revert zs.
  induction ys as [|y ys IH]; intros [|z zs]; simpl; try reflexivity.
  now rewrite Rtrunc_IZR, IH.
Qed.

Lemma history_pairs_each_year_with_its_figure_witness :
  make_population_history years
    (map of_int [115228394; 148177096; 182159874; 214072421; 244016173;
                 259091970; 271857970; 275501339]%Z) =
  Ok [(2022, "275,501,339"); (2020, "271,857,970"); (2015, "259,091,970");
      (2010, "244,016,173"); (2000, "214,072,421"); (1990, "182,159,874");
      (1980, "148,177,096"); (1970, "115,228,394")]%Z%string.
Proof.
  apply (history_pairs_each_year_with_its_figure
           [115228394; 148177096; 182159874; 214072421; 244016173;
            259091970; 271857970; 275501339]%Z).
  - reflexivity.
  - repeat constructor; discriminate.
Defined.

(** ** The page route *)

Lemma unique_In (l : list string) (x : string) : In x (unique l) <-> In x l.
Proof.
  induction l as [|a l IH]; simpl; [tauto|].
  rewrite filter_In, IH. split.
  - intros [-> | [Hin _]]; auto.
  - intros [-> | Hin]; [now left|].
    destruct (String.eqb_spec a x) as [-> | Hneq]; [now left|].
    right. split; [exact Hin | reflexivity].
Qed.

Lemma unique_NoDup (l : list string) : NoDup (unique l).
Proof.
  induction l as [|a l IH]; simpl; constructor.
  - rewrite filter_In. intros [_ Hneq]. now rewrite String.eqb_refl in Hneq.
  - now apply NoDup_filter.
Qed.

Lemma insert_sorted_In (x y : string) (l : list string) :
  In y (insert_sorted x l) <-> y = x \/ In y l.
Proof.
  induction l as [|a l IH]; simpl; [intuition congruence|].
  destruct (String.leb x a); simpl; [intuition congruence|].
  rewrite IH. intuition congruence.
Qed.

Lemma sorted_In (l : list string) (y : string) : In y (sorted l) <-> In y l.
Proof.
  unfold sorted. induction l as [|a l IH]; simpl; [tauto|].
  rewrite insert_sorted_In, IH. intuition congruence.
Qed.

Lemma leb_distinct_ltb (x y : string) :
  String.leb x y = true -> x <> y -> String.ltb x y = true.
Proof.
  unfold String.leb, String.ltb. intros Hle Hneq.
  destruct (String.compare x y) eqn:Hc; try reflexivity; try discriminate.
  apply String.compare_eq_iff in Hc. contradiction.
Qed.

Lemma not_leb_ltb (x y : string) :
  String.leb x y = false -> String.ltb y x = true.
Proof.
  unfold String.leb, String.ltb. intros Hle.
  rewrite String.compare_antisym.
  destruct (String.compare x y); try discriminate. reflexivity.
Qed.

Lemma insert_sorted_ascending (x : string) (l : list string) :
  ~ In x l ->
  Sorted (fun a b => String.ltb a b = true) l ->
  Sorted (fun a b => String.ltb a b = true) (insert_sorted x l).
Proof.
  intros Hnew Hs. induction Hs as [|a l Hs IH Hhd]; simpl.
  - repeat constructor.
  - destruct (String.leb x a) eqn:Hle.
    + constructor; [now constructor|]. constructor.
      apply leb_distinct_ltb; [exact Hle|]. intros ->. apply Hnew. now left.
    + constructor.
      * apply IH. intros Hin. apply Hnew. now right.
      * apply not_leb_ltb in Hle.
        destruct l as [|b l]; simpl; [now constructor|].
        destruct (String.leb x b); constructor; [exact Hle|].
        now inversion Hhd.
Qed.

Lemma sorted_ascending (l : list string) :
  NoDup l -> Sorted (fun a b => String.ltb a b = true) (sorted l).
Proof.
  unfold sorted. induction 1 as [|a l Hnew _ IH]; simpl; [constructor|].
  apply insert_sorted_ascending; [|exact IH].
  fold (sorted l). now rewrite sorted_In.
Qed.

Lemma insert_sorted_NoDup (x : string) (l : list string) :
  ~ In x l -> NoDup l -> NoDup (insert_sorted x l).
Proof.
  intros Hnew Hl. induction Hl as [|a l Ha Hl IH]; simpl.
  - repeat constructor. auto.
  - destruct (String.leb x a).
    + constructor; [exact Hnew | now constructor].
    + constructor.
      * rewrite insert_sorted_In. intros [-> | Hin]; [apply Hnew; now left | contradiction].
      * apply IH. intros Hin. apply Hnew. now right.
Qed.

Lemma sorted_NoDup (l : list string) : NoDup l -> NoDup (sorted l).
Proof.
  unfold sorted. induction 1 as [|a l Hnew _ IH]; simpl; [constructor|].
  apply insert_sorted_NoDup; [|exact IH]. fold (sorted l). now rewrite sorted_In.
Qed.

Lemma known_country_In (df : list Row) (c : string) :
  known_country df c = true <-> In c (countries df).
Proof.
  unfold known_country. rewrite existsb_exists. split.
  - intros (x & Hin & Heq). apply String.eqb_eq in Heq. now subst.
  - intros Hin. exists c. split; [exact Hin | apply String.eqb_refl].
Qed.

Lemma index_inv (df : list Row) (form : list (string * string)) (pg : page) :
  index df form = Ok pg ->
  page_countries pg = sorted (unique (countries df)) /\
  page_selected pg = form_get form "country" DEFAULT_COUNTRY /\
  prepare_country_context df (form_get form "country" DEFAULT_COUNTRY) =
    Ok (page_context pg).
Proof.
  unfold index. cbv zeta. intros H.
  apply bind_Ok in H. destruct H as (ctx & Hctx & H).
  apply Ok_inj in H. subst pg. auto.
Qed.

(** X14.  A page that is served offers the countries of the data in
    strictly ascending order, each once, and exactly those for which a
    request is answered under their own name; it marks as selected the
    posted name (the default when nothing is posted) and carries the context
    computed for that name. *)
Theorem served_page_lists_countries_in_order
    (df : list Row) (form : list (string * string)) (pg : page) :
  index df form = Ok pg ->
  Sorted (fun a b => String.ltb a b = true) (page_countries pg) /\
  NoDup (page_countries pg) /\
  (forall c, In c (page_countries pg) <-> known_country df c = true) /\
  page_selected pg = form_get form "country" DEFAULT_COUNTRY /\
  prepare_country_context df (page_selected pg) = Ok (page_context pg).
Proof.
  intros H. destruct (index_inv df form pg H) as (Hlist & Hsel & Hctx).
  rewrite Hlist, Hsel.
  split; [apply sorted_ascending, unique_NoDup|].
  split; [apply sorted_NoDup, unique_NoDup|].
  split; [|split; [reflexivity | exact Hctx]].
  intros c. now rewrite sorted_In, unique_In, known_country_In.
Qed.

Lemma sample_page :
  exists pg, index (sample_df ++ sample_df) [] = Ok pg.
Proof.
  destruct (country_forecast_positive 2022 2072 forecast_points "Indonesia"
              (sample_row "Indonesia" sample_series) sample_series 4 1904569)
    as (final & st & _ & _ & Hctx);
    [lia | reflexivity | exact sample_series_positive | reflexivity | reflexivity |].
  unfold index. cbv zeta.
  change (form_get [] "country" DEFAULT_COUNTRY) with "Indonesia"%string.
  unfold prepare_country_context. cbv zeta.
  change (resolve_country (sample_df ++ sample_df) "Indonesia")
    with "Indonesia"%string.
  change (select_row (sample_df ++ sample_df) "Indonesia")
    with (Ok (sample_row "Indonesia" sample_series)).
  cbv beta iota delta [bind]. rewrite Hctx. eexists. reflexivity.
Qed.

Lemma served_page_lists_countries_in_order_witness :
  exists pg,
    index (sample_df ++ sample_df) [] = Ok pg /\
    page_countries pg = ["Indonesia"; "Malaysia"]%string /\
    page_selected pg = "Indonesia"%string.
Proof.
  destruct sample_page as [pg Hpg].
  destruct (served_page_lists_countries_in_order (sample_df ++ sample_df) [] pg Hpg)
    as (_ & _ & _ & Hsel & _).
  exists pg. split; [exact Hpg|]. split; [|exact Hsel].
  now destruct (index_inv _ _ _ Hpg) as (-> & _).
Defined.

(** X15.  When the posted name is not in the data and differs from the
    default, the served page marks a name as selected that is not among the
    countries it offers, while the context it shows is the one of the
    default country. *)
Theorem unknown_selection_is_echoed
    (df : list Row) (form : list (string * string)) (pg : page) :
  index df form = Ok pg ->
  known_country df (form_get form "country" DEFAULT_COUNTRY) = false ->
  form_get form "country" DEFAULT_COUNTRY <> DEFAULT_COUNTRY ->
  ~ In (page_selected pg) (page_countries pg) /\
  country (page_context pg) = DEFAULT_COUNTRY /\
  page_selected pg <> country (page_context pg) /\
  index df [] = Ok {| page_countries := page_countries pg;
                      page_selected := DEFAULT_COUNTRY;
                      page_context := page_context pg |}.
Proof.
  intros H Hunknown Hother.
  destruct (index_inv df form pg H) as (Hlist & Hsel & Hctx).
  assert (Hcountry : country (page_context pg) = DEFAULT_COUNTRY).
  { revert Hctx. unfold prepare_country_context. cbv zeta.
    rewrite (resolve_unknown df _ Hunknown). intros Hctx.
    apply bind_Ok in Hctx. destruct Hctx as (data & _ & Hctx).
    now apply country_forecast_country in Hctx. }
  split.
  { rewrite Hlist, Hsel, sorted_In, unique_In, <- known_country_In.
    now rewrite Hunknown. }
  split; [exact Hcountry|]. split; [now rewrite Hcountry, Hsel|].
  unfold index. cbv zeta.
  change (form_get [] "country" DEFAULT_COUNTRY) with DEFAULT_COUNTRY.
  assert (Hdefault : prepare_country_context df DEFAULT_COUNTRY = Ok (page_context pg)).
  { rewrite <- Hctx. unfold prepare_country_context. cbv zeta.
    now rewrite (resolve_unknown df _ Hunknown), resolve_default. }
  rewrite Hdefault. cbv beta iota delta [bind]. now rewrite Hlist.
Qed.

Lemma sample_page_unknown :
  exists pg, index sample_df [("country", "Atlantis")]%string = Ok pg.
Proof.
  destruct (country_forecast_positive 2022 2072 forecast_points "Indonesia"
              (sample_row "Indonesia" sample_series) sample_series 4 1904569)
    as (final & st & _ & _ & Hctx);
    [lia | reflexivity | exact sample_series_positive | reflexivity | reflexivity |].
  unfold index. cbv zeta.
  change (form_get [("country", "Atlantis")]%string "country" DEFAULT_COUNTRY)
    with "Atlantis"%string.
  unfold prepare_country_context. cbv zeta.
  change (resolve_country sample_df "Atlantis") with "Indonesia"%string.
  change (select_row sample_df "Indonesia")
    with (Ok (sample_row "Indonesia" sample_series)).
  cbv beta iota delta [bind]. rewrite Hctx. eexists. reflexivity.
Qed.

Lemma unknown_selection_is_echoed_witness :
  exists pg,
    index sample_df [("country", "Atlantis")]%string = Ok pg /\
    page_selected pg = "Atlantis"%string /\
    ~ In (page_selected pg) (page_countries pg) /\
    country (page_context pg) = "Indonesia"%string.
Proof.
  destruct sample_page_unknown as [pg Hpg].
  destruct (unknown_selection_is_echoed sample_df [("country", "Atlantis")]%string pg Hpg)
    as (Hnot & Hcountry & _ & _).
  - reflexivity.
  - discriminate.
  - exists pg. split; [exact Hpg|]. split; [|split; assumption].
    now destruct (index_inv _ _ _ Hpg) as (_ & -> & _).
Defined.

(** ** Python indexing *)

(** X16.  Indexing a list or an array, an index is accepted exactly when it
    lies in [-len, len): then the element at position [i], or at [i + len]
    for a negative [i], is returned; any other index raises an exception of
    class [IndexError], so nothing outside the sequence is ever read. *)
Theorem getitem_in_range_only {A : Type} (c : container) (l : list A) (i : Z) :
  ((- len l <= i < len l)%Z ->
   exists a, getitem_of c l i = Ok a /\
             nth_error l (Z.to_nat (if (i <? 0)%Z then i + len l else i)%Z) = Some a) /\
  (~ (- len l <= i < len l)%Z ->
   exists e, getitem_of c l i = Err e /\ exc_class e = IndexError).
Proof.
  assert (Hclass : exc_class (index_error c i (len l)) = IndexError)
    by (destruct c; reflexivity).
  unfold getitem_of. split.
  - intros [Hlo Hhi]. set (j := (if (i <? 0)%Z then (i + len l)%Z else i)).
    assert (Hj : (0 <= j < len l)%Z).
    { unfold j. destruct (Z.ltb_spec i 0); lia. }
    cbv zeta.
    destruct (Z.ltb_spec j 0) as [|_]; [lia|].
    destruct (nth_error l (Z.to_nat j)) as [a|] eqn:Ha.
    + exists a. split; reflexivity.
    + apply nth_error_None in Ha. unfold len in Hj. lia.
  - intros Hout. cbv zeta.
    set (j := (if (i <? 0)%Z then (i + len l)%Z else i)).
    destruct (Z.ltb_spec j 0) as [|Hj]; [eexists; split; [reflexivity | exact Hclass]|].
    destruct (nth_error l (Z.to_nat j)) as [a|] eqn:Ha;
      [|eexists; split; [reflexivity | exact Hclass]].
    exfalso. apply Hout.
    assert (Hlt : (Z.to_nat j < List.length l)%nat)
      by (apply nth_error_Some; now rewrite Ha).
    unfold len. unfold j in Hj, Hlt. destruct (Z.ltb_spec i 0); lia.
Qed.

Lemma getitem_in_range_only_witness :
  getitem [10; 20; 30]%Z (-1) = Ok 30%Z /\
  (exists e, np_getitem [10; 20; 30]%Z 3 = Err e /\ exc_class e = IndexError) /\
  (exists e, getitem [10; 20; 30]%Z (-4) = Err e /\ exc_class e = IndexError).
Proof.
  destruct (getitem_in_range_only PyList [10; 20; 30]%Z (-1)) as [Hin _].
  destruct (getitem_in_range_only NdArray [10; 20; 30]%Z 3) as [_ Hhigh].
  destruct (getitem_in_range_only PyList [10; 20; 30]%Z (-4)) as [_ Hlow].
  split; [|split].
  - destruct Hin as (a & Ha & Hnth); [unfold len; simpl; lia|].
    simpl in Hnth. injection Hnth as <-. exact Ha.
  - apply Hhigh. unfold len. simpl. lia.
  - apply Hlow. unfold len. simpl. lia.
Defined.

Example list_index_error_text :
  getitem [10; 20; 30]%Z 3 = Err (Raise IndexError "list index out of range").
Proof. reflexivity. Qed.

Example array_index_error_text :
  np_getitem [10; 20; 30]%Z (-4) =
  Err (Raise IndexError "index -4 is out of bounds for axis 0 with size 3").
Proof. reflexivity. Qed.

(** ** Formatted integers read back *)

Lemma digit_value_char (d : N) : (d < 10)%N -> digit_value (digit_char d) = Some d.
Proof.
  intros Hd. unfold digit_value, digit_char.
  rewrite N_ascii_embedding by lia. cbv zeta.
  replace (48 + d - 48)%N with d by lia.
  destruct (N.leb_spec 48 (48 + d)); [|lia].
  destruct (N.leb_spec (48 + d) 57); [|lia].
  reflexivity.
Qed.

Lemma parse_digits_app (l1 l2 : list ascii) (a : N) :
  parse_digits (l1 ++ l2) a =
  match parse_digits l1 a with
  | Some b => parse_digits l2 b
  | None => None
  end.
Proof.
  revert a. induction l1 as [|c l1 IH]; intros a; simpl; [reflexivity|].
  destruct (digit_value c); [apply IH | reflexivity].
Qed.

(** With enough fuel the digit loop puts before [acc] a non-empty run of
    digit characters that reads back as [n]. *)
Lemma digits_fuel_spec (fuel : nat) (n : N) (acc : list ascii) :
  (n < 10 ^ N.of_nat (S fuel))%N ->
  exists ds,
    digits_fuel (S fuel) n acc = ds ++ acc /\
    ds <> [] /\
    parse_digits ds 0 = Some n /\
    Forall (fun c => exists d, digit_value c = Some d) ds.
Proof.
  revert n acc. induction fuel as [|fuel IH]; intros n acc Hn.
  - assert (Hsmall : (n < 10)%N) by (simpl in Hn; lia).
    exists [digit_char n]. simpl.
    rewrite N.div_small, N.mod_small by exact Hsmall. simpl.
    rewrite digit_value_char by exact Hsmall.
    repeat split; try discriminate. constructor; [|constructor].
    exists n. now apply digit_value_char.
  - change (digits_fuel (S (S fuel)) n acc)
      with (if (n / 10 =? 0)%N then digit_char (n mod 10) :: acc
            else digits_fuel (S fuel) (n / 10) (digit_char (n mod 10) :: acc)).
    assert (Hmod : (n mod 10 < 10)%N) by (apply N.mod_lt; lia).
    destruct (N.eqb_spec (n / 10) 0) as [Hq|Hq].
    + assert (Hsmall : (n < 10)%N).
      { pose proof (N.div_mod n 10 ltac:(lia)). lia. }
      rewrite N.mod_small by exact Hsmall.
      exists [digit_char n]. simpl.
      rewrite digit_value_char by exact Hsmall.
      repeat split; try discriminate. constructor; [|constructor].
      exists n. now apply digit_value_char.
    + destruct (IH (n / 10)%N (digit_char (n mod 10) :: acc)) as (ds & Hds & Hne & Hparse & Hall).
      { apply N.Div0.div_lt_upper_bound.
        replace (N.of_nat (S (S fuel))) with (N.succ (N.of_nat (S fuel))) in Hn by lia.
        rewrite N.pow_succ_r' in Hn. exact Hn. }
      exists (ds ++ [digit_char (n mod 10)]).
      split; [rewrite Hds, <- app_assoc; reflexivity|].
      split; [destruct ds; discriminate|].
      split.
      * rewrite parse_digits_app, Hparse. cbn [parse_digits].
        rewrite digit_value_char by exact Hmod. f_equal.
        pose proof (N.div_mod n 10 ltac:(lia)). lia.
      * apply Forall_app. split; [exact Hall|]. constructor; [|constructor].
        exists (n mod 10)%N. now apply digit_value_char.
Qed.

Lemma digits_spec (n : N) :
  digits n <> [] /\
  parse_digits (digits n) 0 = Some n /\
  Forall (fun c => exists d, digit_value c = Some d) (digits n).
Proof.
  unfold digits.
  destruct (digits_fuel_spec (N.to_nat (N.log2 n)) n []) as (ds & Hds & Hne & Hparse & Hall).
  - replace (N.of_nat (S (N.to_nat (N.log2 n)))) with (N.succ (N.log2 n)) by lia.
    destruct (N.eq_dec n 0) as [-> | Hn]; [reflexivity|].
    destruct (N.log2_spec n ltac:(lia)) as [_ Hup].
    eapply N.lt_le_trans; [exact Hup|].
    apply N.pow_le_mono_l. lia.
  - rewrite Hds, app_nil_r. auto.
Qed.

Lemma digit_is_not_sign (c : ascii) (d : N) :
  digit_value c = Some d -> Ascii.eqb c "-"%char = false /\ Ascii.eqb c ","%char = false.
Proof.
  intros Hd. split.
  - destruct (Ascii.eqb_spec c "-"%char) as [-> | _]; [discriminate | reflexivity].
  - destruct (Ascii.eqb_spec c ","%char) as [-> | _]; [discriminate | reflexivity].
Qed.

Lemma parse_int_signed (z : Z) (body : list ascii) :
  body <> [] ->
  parse_digits body 0 = Some (Z.abs_N z) ->
  Forall (fun c => exists d, digit_value c = Some d) body ->
  parse_int (with_sign z body) = Some z.
Proof.
  intros Hne Hparse Hall. unfold parse_int, with_sign.
  rewrite list_ascii_of_string_of_list_ascii.
  destruct (Z.ltb_spec z 0) as [Hneg|Hpos].
  - change (Ascii.eqb "-"%char "-"%char) with true. cbv iota.
    destruct body as [|c body]; [contradiction|].
    rewrite Hparse. simpl. f_equal. lia.
  - destruct body as [|c body]; [contradiction|].
    inversion Hall as [|? ? [d Hd] _]; subst.
    destruct (digit_is_not_sign c d Hd) as [-> _].
    rewrite Hparse. simpl. f_equal. lia.
Qed.

(** Grouping only inserts commas. *)
Lemma group3_rev_filter (n : nat) (l : list ascii) :
  (List.length l <= n)%nat ->
  Forall (fun c => Ascii.eqb c ","%char = false) l ->
  filter (fun c => negb (Ascii.eqb c ","%char)) (group3_rev l) = l.
Proof.
  revert l. induction n as [n IH] using lt_wf_ind. intros l Hlen Hall.
  assert (Hkeep : filter (fun c => negb (Ascii.eqb c ","%char)) l = l).
  { clear - Hall. induction Hall as [|c l Hc _ IHl]; simpl; [reflexivity|].
    now rewrite Hc, IHl. }
  destruct l as [|a [|b [|c [|d rest]]]]; try exact Hkeep.
  change (group3_rev (a :: b :: c :: d :: rest))
    with (a :: b :: c :: ","%char :: group3_rev (d :: rest)).
  inversion Hall as [|? ? Ha Hall1]; subst.
  inversion Hall1 as [|? ? Hb Hall2]; subst.
  inversion Hall2 as [|? ? Hc Hall3]; subst.
  cbn [filter]. rewrite Ha, Hb, Hc.
  change (Ascii.eqb ","%char ","%char) with true. cbn [negb].
  do 3 f_equal.
  apply (IH (List.length (d :: rest))); [simpl in *; lia | lia | exact Hall3].
Qed.

Lemma filter_rev {A : Type} (f : A -> bool) (l : list A) :
  filter f (rev l) = rev (filter f l).
Proof.
  induction l as [|a l IH]; [reflexivity|].
  simpl. rewrite filter_app, IH. simpl. destruct (f a); [reflexivity|].
  now rewrite app_nil_r.
Qed.

Lemma strip_commas_format (z : Z) : strip_commas (format_commas z) = str z.
Proof.
  destruct (digits_spec (Z.abs_N z)) as (_ & _ & Hall).
  assert (Hnocomma : Forall (fun c => Ascii.eqb c ","%char = false) (digits (Z.abs_N z))).
  { eapply Forall_impl; [|exact Hall]. intros c [d Hd].
    now destruct (digit_is_not_sign c d Hd). }
  unfold strip_commas, format_commas, str, with_sign.
  rewrite list_ascii_of_string_of_list_ascii. f_equal.
  assert (Hbody : filter (fun c => negb (Ascii.eqb c ","%char))
                    (rev (group3_rev (rev (digits (Z.abs_N z))))) = digits (Z.abs_N z)).
  { rewrite filter_rev, (group3_rev_filter (List.length (rev (digits (Z.abs_N z))))).
    - apply rev_involutive.
    - lia.
    - now apply Forall_rev. }
  destruct (z <? 0)%Z; simpl; now rewrite Hbody.
Qed.

(** X17.  A formatted integer reads back as itself: [int(str(z))] is [z],
    the separator format differs from [str(z)] by its commas only, and
    reading the separator format without its commas gives [z] again. *)
Theorem formatted_integer_reads_back (z : Z) :
  parse_int (str z) = Some z /\
  strip_commas (format_commas z) = str z /\
  parse_int (strip_commas (format_commas z)) = Some z.
Proof.
  destruct (digits_spec (Z.abs_N z)) as (Hne & Hparse & Hall).
  assert (Hstr : parse_int (str z) = Some z) by (now apply parse_int_signed).
  split; [exact Hstr|]. split; [apply strip_commas_format|].
  now rewrite strip_commas_format.
Qed.

Example format_commas_width : format_commas 275501339 = "275,501,339"%string.
Proof. reflexivity. Qed.

(** Counted from the right, the separator format has its commas at the
    positions 3, 7, 11, ... and nowhere else. *)
Lemma group3_rev_positions (n : nat) (l : list ascii) :
  (List.length l <= n)%nat ->
  Forall (fun c => Ascii.eqb c ","%char = false) l ->
  forall i, (i < List.length (group3_rev l))%nat ->
    (Ascii.eqb (nth i (group3_rev l) "0"%char) ","%char = true <-> (i mod 4 = 3)%nat).
Proof.
  revert l. induction n as [n IH] using lt_wf_ind. intros l Hlen Hall.
  assert (Hshort : (List.length l <= 3)%nat -> group3_rev l = l ->
                   forall i, (i < List.length (group3_rev l))%nat ->
                     (Ascii.eqb (nth i (group3_rev l) "0"%char) ","%char = true
                      <-> (i mod 4 = 3)%nat)).
  { intros Hl3 -> i Hi.
    assert (Hc : Ascii.eqb (nth i l "0"%char) ","%char = false).
    { rewrite Forall_forall in Hall. apply Hall. now apply nth_In. }
    rewrite Hc. rewrite Nat.mod_small by lia. split; [discriminate | lia]. }
  destruct l as [|a [|b [|c [|d rest]]]];
    try (apply Hshort; [simpl; lia | reflexivity]).
  change (group3_rev (a :: b :: c :: d :: rest))
    with (a :: b :: c :: ","%char :: group3_rev (d :: rest)).
  inversion Hall as [|? ? Ha Hall1]; subst.
  inversion Hall1 as [|? ? Hb Hall2]; subst.
  inversion Hall2 as [|? ? Hc Hall3]; subst.
  intros i Hi.
  destruct i as [|[|[|[|j]]]].
  - cbn [nth]. rewrite Ha. split; [discriminate | intros H; discriminate H].
  - cbn [nth]. rewrite Hb. split; [discriminate | intros H; discriminate H].
  - cbn [nth]. rewrite Hc. split; [discriminate | intros H; discriminate H].
  - cbn [nth]. split; reflexivity.
  - cbn [nth].
    replace (S (S (S (S j))) mod 4)%nat with (j mod 4)%nat.
    + apply (IH (List.length (d :: rest))); [simpl in *; lia | lia | exact Hall3|].
      cbn [List.length] in Hi. lia.
    + replace (S (S (S (S j)))) with (j + 1 * 4)%nat by lia.
      now rewrite Nat.Div0.mod_add.
Qed.

Lemma group3_rev_last (n : nat) (l : list ascii) (x : ascii) :
  (List.length l <= n)%nat -> last (group3_rev l) x = last l x.
Proof.
  revert l. induction n as [n IH] using lt_wf_ind. intros l Hlen.
  destruct l as [|a [|b [|c [|d rest]]]]; try reflexivity.
  change (group3_rev (a :: b :: c :: d :: rest))
    with (a :: b :: c :: ","%char :: group3_rev (d :: rest)).
  change (last (a :: b :: c :: d :: rest) x) with (last (d :: rest) x).
  assert (Htail : last (group3_rev (d :: rest)) x = last (d :: rest) x).
  { apply (IH (List.length (d :: rest))); [simpl in *; lia | lia]. }
  rewrite <- Htail.
  destruct (group3_rev (d :: rest)) eqn:E; [|reflexivity].
  destruct rest as [|e [|f [|g rest']]]; discriminate E.
Qed.

(** X18.  In the separator format of a non-negative integer the commas
    stand, counted from the right end, exactly at every fourth position (3,
    7, 11, ...), so every comma is followed by three digits; the text does
    not start with a comma. *)
Theorem separators_stand_every_fourth_place (z : Z) :
  (0 <= z)%Z ->
  let text := list_ascii_of_string (format_commas z) in
  (forall i, (i < List.length text)%nat ->
     (Ascii.eqb (nth i (rev text) "0"%char) ","%char = true <-> (i mod 4 = 3)%nat)) /\
  Ascii.eqb (hd "0"%char text) ","%char = false.
Proof.
  intros Hz text.
  destruct (digits_spec (Z.abs_N z)) as (Hne & _ & Hall).
  assert (Hnocomma : Forall (fun c => Ascii.eqb c ","%char = false)
                       (rev (digits (Z.abs_N z)))).
  { apply Forall_rev. eapply Forall_impl; [|exact Hall]. intros c [d Hd].
    now destruct (digit_is_not_sign c d Hd). }
  assert (Htext : text = rev (group3_rev (rev (digits (Z.abs_N z))))).
  { unfold text, format_commas, with_sign.
    rewrite list_ascii_of_string_of_list_ascii.
    destruct (Z.ltb_spec z 0); [lia | reflexivity]. }
  rewrite Htext, rev_involutive, length_rev. split.
  - intros i Hi.
    apply (group3_rev_positions (List.length (rev (digits (Z.abs_N z)))));
      [lia | exact Hnocomma | exact Hi].
  - set (g := group3_rev (rev (digits (Z.abs_N z)))).
    assert (Hhd : hd "0"%char (rev g) = last g "0"%char).
    { destruct g as [|c g'] using rev_ind; [reflexivity|].
      now rewrite rev_app_distr, last_last. }
    rewrite Hhd. unfold g.
    rewrite (group3_rev_last (List.length (rev (digits (Z.abs_N z))))) by lia.
    assert (Hin : In (last (rev (digits (Z.abs_N z))) "0"%char) (rev (digits (Z.abs_N z)))).
    { destruct (rev (digits (Z.abs_N z))) as [|c l] eqn:E.
      - apply (f_equal (@rev ascii)) in E. rewrite rev_involutive in E. contradiction.
      - destruct (@exists_last _ (c :: l) ltac:(discriminate)) as (l' & y & ->).
        rewrite last_last. apply in_or_app. right. now left. }
    rewrite Forall_forall in Hnocomma. now apply Hnocomma.
Qed.

Lemma separators_stand_every_fourth_place_witness :
  Ascii.eqb (nth 3 (rev (list_ascii_of_string (format_commas 1234567))) "0"%char)
            ","%char = true /\
  Ascii.eqb (nth 4 (rev (list_ascii_of_string (format_commas 1234567))) "0"%char)
            ","%char = false.
Proof.
  destruct (separators_stand_every_fourth_place 1234567) as [Hpos _]; [lia|].
  split.
  - apply (Hpos 3%nat); [simpl; lia | reflexivity].
  - destruct (Ascii.eqb (nth 4 _ _) _) eqn:E; [|reflexivity].
    apply (Hpos 4%nat) in E; [discriminate E | simpl; lia].
Defined.

(** ** Clean data *)







(* ===================================================================== *)
(** * Part V: the figures as they are displayed                           *)
(* ===================================================================== *)

(** ** C10: displayed population figures *)

(** [f"{int(x):,}"] returns on finite values only, and then with the
    truncated value. *)
Lemma fmt_int_inv (x : float64) (text : string) :
  fmt_int x = Ok text -> exists e : R, x = Finite e /\ text = format_commas (Rtrunc e).
Proof.
  destruct x as [e| | |]; try discriminate.
  rewrite fmt_int_finite. intros H. apply Ok_inj in H. eauto.
Qed.

Lemma table_body_figures (first_year stop_year : Z) (pexp plog : list float64)
    (acc acc' : list forecast_row) (y : Z) :
  (first_year < stop_year)%Z ->
  table_body (arange first_year stop_year) pexp plog acc y = Ok acc' ->
  acc' = acc \/
  exists row, acc' = acc ++ [row] /\ row_figures first_year pexp plog row.
Proof.
  intros Hlt. unfold table_body. rewrite getitem_arange_0 by assumption.
  cbv beta iota delta [bind].
  destruct (y <? first_year)%Z.
  { intros H. apply Ok_inj in H. now left. }
  destruct (y - first_year >=? len (arange first_year stop_year))%Z.
  { intros H. apply Ok_inj in H. now left. }
  destruct (np_getitem pexp (y - first_year)) as [e|] eqn:He; [|discriminate].
  destruct (fmt_int e) as [exp_text|] eqn:Hexp; [|discriminate].
  destruct (getitem plog (y - first_year)) as [l|] eqn:Hl; [|discriminate].
  destruct (fmt_int l) as [log_text|] eqn:Hlog; [|discriminate].
  intros H. apply Ok_inj in H. subst acc'.
  apply fmt_int_inv in Hexp. destruct Hexp as (e' & -> & ->).
  apply fmt_int_inv in Hlog. destruct Hlog as (l' & -> & ->).
  right. eexists. split; [reflexivity|].
  exists e', l'. cbn [row_year row_exp row_log]. auto.
Qed.

Lemma build_table_figures (first_year stop_year : Z) (pexp plog : list float64)
    (points : list Z) (acc table : list forecast_row) :
  (first_year < stop_year)%Z ->
  foldM (table_body (arange first_year stop_year) pexp plog) points acc = Ok table ->
  Forall (row_figures first_year pexp plog) acc ->
  Forall (row_figures first_year pexp plog) table.
Proof.
  intros Hlt. revert acc. induction points as [|y points IH]; intros acc; simpl.
  - intros H Hacc. apply Ok_inj in H. now subst table.
  - intros H Hacc. apply bind_Ok in H. destruct H as (acc' & Hbody & Hrest).
    apply (IH acc' Hrest).
    destruct (table_body_figures _ _ _ _ _ _ _ Hlt Hbody) as [-> | (row & -> & Hrow)];
      [exact Hacc|].
    apply Forall_app. split; [exact Hacc | now constructor].
Qed.

Lemma mapM_history_figures (l : list (Z * float64)) (h : list (Z * string)) :
  mapM history_entry l = Ok h -> Forall2 history_figure l h.
Proof.
  revert h. induction l as [|[y v] l IH]; intros h; simpl.
  - intros H. apply Ok_inj in H. subst h. constructor.
  - unfold history_entry at 1. cbn [fst snd].
    destruct (fmt_int v) as [text|] eqn:Htext; [|discriminate].
    cbv beta iota delta [bind].
    destruct (mapM history_entry l) as [h'|]; [|discriminate].
    cbv beta iota delta [bind].
    intros H. apply Ok_inj in H. subst h.
    apply fmt_int_inv in Htext. destruct Htext as (x & -> & ->).
    constructor; [|now apply IH]. exists x. split; reflexivity.
Qed.

(** On finite values the figures of the history are determined. *)
Lemma history_figures_finite (yps : list (Z * R)) (h : list (Z * string)) :
  Forall2 history_figure (map (fun yp => (fst yp, Finite (snd yp))) yps) h ->
  h = map (fun yp => (fst yp, format_commas (Rtrunc (snd yp)))) yps.
Proof.
  revert h. induction yps as [|[y p] yps IH]; intros h H.
  - inversion H. reflexivity.
  - simpl in H. inversion H as [|yv entry l h' Hfig Hrest]; subst.
    destruct Hfig as (x & Hx & ->). cbn [fst snd] in Hx. injection Hx as <-.
    simpl. f_equal. now apply IH.
Qed.

(** Without a year in the horizon the first checkpoint already fails at
    [future_years[0]]. *)
Lemma build_forecast_table_empty_horizon (first_year stop_year : Z)
    (pexp plog : list float64) (table : list forecast_row) :
  (stop_year <= first_year)%Z ->
  build_forecast_table forecast_points (arange first_year stop_year) pexp plog
    <> Ok table.
Proof.
  intros Hle. unfold arange.
  replace (Z.to_nat (stop_year - first_year)) with 0%nat by lia.
  discriminate.
Qed.

(** The commas of the separator format, counted from the right end. *)
Lemma format_commas_positions (z : Z) (i : nat) :
  (0 <= z)%Z ->
  (i < List.length (list_ascii_of_string (format_commas z)))%nat ->
  (Ascii.eqb (nth i (rev (list_ascii_of_string (format_commas z))) "0"%char) ","%char
   = true <-> (i mod 4 = 3)%nat).
Proof.
  intros Hz.
  destruct (digits_spec (Z.abs_N z)) as (_ & _ & Hall).
  assert (Hnocomma : Forall (fun c => Ascii.eqb c ","%char = false)
                       (rev (digits (Z.abs_N z)))).
  { apply Forall_rev. eapply Forall_impl; [|exact Hall]. intros c [d Hd].
    now destruct (digit_is_not_sign c d Hd). }
  assert (Htext : list_ascii_of_string (format_commas z) =
                  rev (group3_rev (rev (digits (Z.abs_N z))))).
  { unfold format_commas, with_sign.
    rewrite list_ascii_of_string_of_list_ascii.
    destruct (Z.ltb_spec z 0); [lia | reflexivity]. }
  rewrite Htext, rev_involutive, length_rev. intros Hi.
  apply (group3_rev_positions (List.length (rev (digits (Z.abs_N z)))));
    [lia | exact Hnocomma | exact Hi].
Qed.

Lemma format_commas_reads_back (z : Z) :
  parse_int (strip_commas (format_commas z)) = Some z.
Proof.
  destruct (digits_spec (Z.abs_N z)) as (Hne & Hparse & Hall).
  rewrite strip_commas_format. now apply parse_int_signed.
Qed.

(** C10.  In a context that is returned every population figure is the
    value the program computed, truncated toward zero by [int] and then
    written with thousands separators: the two texts of every table row are
    the values of the two series at the offset of the row's year, the
    history pairs every year with the value of that year, and, when the
    table is empty, the summary is filled with the last values of the two
    series.  Truncation is not rounding: for [x >= 0] the displayed integer
    [n] satisfies [n <= x < n + 1], and in general [|n| <= |x|] and
    [|x - n| < 1], so 1234567.9 is shown as 1,234,567.  The separators
    change nothing in the number: without its commas the text reads back as
    [n], and the commas stand before every group of three digits counted
    from the right. *)
Theorem displayed_figures_are_truncated
    (first_year stop_year : Z) (name : string) (data : Row) (ctx : context) :
  country_forecast years first_year stop_year forecast_points name data = Ok ctx ->
  exists m : models,
    growth_models years first_year stop_year (pop_of data) = Ok m /\
    Forall (fun row =>
              exists e l : R,
                np_getitem (pop_future_exp m) (row_year row - first_year) = Ok (Finite e) /\
                getitem (pop_log m) (row_year row - first_year) = Ok (Finite l) /\
                row_exp row = format_commas (Rtrunc e) /\
                row_log row = format_commas (Rtrunc l))
           (forecast_table ctx) /\
    Forall2 (fun (yv : Z * float64) (entry : Z * string) =>
               exists x : R,
                 snd yv = Finite x /\ entry = (fst yv, format_commas (Rtrunc x)))
            (combine (rev years) (rev (pop_of data))) (population_history ctx) /\
    (forecast_table ctx = [] ->
     exists e l : R,
       np_getitem (pop_future_exp m) (-1) = Ok (Finite e) /\
       getitem (pop_log m) (-1) = Ok (Finite l) /\
       forecast_summary ctx =
         summary_text {| final_year := (stop_year - 1)%Z;
                         final_exp := format_commas (Rtrunc e);
                         final_log := format_commas (Rtrunc l) |}) /\
    (forall x : R, fmt_int (Finite x) = Ok (format_commas (Rtrunc x))) /\
    (forall x : R, (0 <= x)%R -> (IZR (Rtrunc x) <= x < IZR (Rtrunc x) + 1)%R) /\
    (forall x : R,
        (Rabs (IZR (Rtrunc x)) <= Rabs x)%R /\ (Rabs (x - IZR (Rtrunc x)) < 1)%R) /\
    (forall z : Z,
        strip_commas (format_commas z) = str z /\
        parse_int (strip_commas (format_commas z)) = Some z) /\
    (forall (z : Z) (i : nat),
        (0 <= z)%Z ->
        (i < List.length (list_ascii_of_string (format_commas z)))%nat ->
        (Ascii.eqb (nth i (rev (list_ascii_of_string (format_commas z))) "0"%char)
                   ","%char = true <-> (i mod 4 = 3)%nat)) /\
    fmt_int (Finite (12345679 / 10)) = Ok "1,234,567"%string /\
    fmt_int (Finite (- 12345679 / 10)) = Ok "-1,234,567"%string /\
    int (Finite (27 / 10)) = Ok 2%Z /\
    int (Finite (- 27 / 10)) = Ok (-2)%Z.
Proof.
  intros H. unfold country_forecast in H. cbv zeta in H.
  apply bind_Ok in H. destruct H as (m & Hm & H).
  apply bind_Ok in H. destruct H as (table & Htable & H).
  apply bind_Ok in H. destruct H as (final & Hfinal & H).
  apply bind_Ok in H. destruct H as (st & _ & H).
  apply bind_Ok in H. destruct H as (history & Hhistory & H).
  apply Ok_inj in H. subst ctx.
  cbn [forecast_table population_history forecast_summary].
  destruct (growth_models_horizon first_year stop_year data m Hm) as (Hfy & _ & _).
  rewrite Hfy in Htable, Hfinal.
  assert (Hlt : (first_year < stop_year)%Z).
  { destruct (Z_lt_le_dec first_year stop_year) as [Hlt|Hle]; [exact Hlt|].
    now apply build_forecast_table_empty_horizon in Htable. }
  exists m. split; [exact Hm|]. split.
  { apply (build_table_figures first_year stop_year _ _ forecast_points [] table Hlt Htable).
    constructor. }
  split; [now apply mapM_history_figures|]. split.
  { intros ->. unfold final_values in Hfinal.
    apply bind_Ok in Hfinal. destruct Hfinal as (y & Hy & Hfinal).
    apply bind_Ok in Hfinal. destruct Hfinal as (e & He & Hfinal).
    apply bind_Ok in Hfinal. destruct Hfinal as (exp_text & Hexp & Hfinal).
    apply bind_Ok in Hfinal. destruct Hfinal as (l & Hl & Hfinal).
    apply bind_Ok in Hfinal. destruct Hfinal as (log_text & Hlog & Hfinal).
    apply Ok_inj in Hfinal. subst final.
    apply fmt_int_inv in Hexp. destruct Hexp as (e' & -> & ->).
    apply fmt_int_inv in Hlog. destruct Hlog as (l' & -> & ->).
    rewrite getitem_last_Z in Hy.
    2:{ intros E. apply (f_equal (@List.length Z)) in E.
        rewrite arange_length in E. simpl in E. lia. }
    rewrite arange_last in Hy by assumption. apply Ok_inj in Hy. subst y.
    exists e', l'. auto. }
  split; [exact fmt_int_finite|]. split; [exact Rtrunc_nonneg|].
  split; [exact Rtrunc_toward_zero|].
  split; [intros z; split; [apply strip_commas_format | apply format_commas_reads_back]|].
  split; [intros z i; apply format_commas_positions|].
  split.
  { rewrite fmt_int_finite. f_equal.
    rewrite (Rtrunc_between (12345679 / 10) 1234567) by lra. reflexivity. }
  split.
  { rewrite fmt_int_finite. f_equal.
    rewrite (Rtrunc_between_neg (- 12345679 / 10) (-1234567)) by lra. reflexivity. }
  split; [exact int_truncates_positive | exact int_truncates_negative].
Qed.

(** A series of figures that are not whole numbers: every figure of the
    history is cut, not rounded (182159.9 gives 182,159), and carries its
    separator. *)
Lemma displayed_figures_are_truncated_witness :
  exists ctx : context,
    country_forecast years 2022 2072 forecast_points "Indonesia"
      (sample_row "Indonesia" fractional_series) = Ok ctx /\
    population_history ctx =
      [(2022, "275,501"); (2020, "271,858"); (2015, "259,092"); (2010, "244,016");
       (2000, "214,072"); (1990, "182,159"); (1980, "148,177"); (1970, "115,228")]%Z%string.
Proof.
  destruct (country_forecast_positive 2022 2072 forecast_points "Indonesia"
              (sample_row "Indonesia" fractional_series) fractional_series 4 1904569)
    as (final & st & _ & _ & Hctx);
    [lia | reflexivity | exact fractional_series_positive | reflexivity | reflexivity |].
  match type of Hctx with
  | _ = Ok ?c => exists c
  end.
  split; [exact Hctx|].
  destruct (displayed_figures_are_truncated 2022 2072 "Indonesia"
              (sample_row "Indonesia" fractional_series) _ Hctx)
    as (m & _ & _ & Hhistory & _).
  cbn [population_history] in Hhistory |- *.
  change (combine (rev years) (rev (pop_of (sample_row "Indonesia" fractional_series))))
    with (map (fun yp : Z * R => (fst yp, Finite (snd yp)))
              (combine (rev years) (rev fractional_series))) in Hhistory.
  apply history_figures_finite in Hhistory. rewrite Hhistory.
  unfold fractional_series, years. simpl combine. simpl map.
  rewrite (Rtrunc_between (2755013 / 10) 275501) by lra.
  rewrite (Rtrunc_between (2718585 / 10) 271858) by lra.
  rewrite (Rtrunc_between (2590925 / 10) 259092) by lra.
  rewrite (Rtrunc_between (2440162 / 10) 244016) by lra.
  rewrite (Rtrunc_between (2140724 / 10) 214072) by lra.
  rewrite (Rtrunc_between (1821599 / 10) 182159) by lra.
  rewrite (Rtrunc_between (1481771 / 10) 148177) by lra.
  rewrite (Rtrunc_between (1152284 / 10) 115228) by lra.
  reflexivity.
Defined.
